(** * rpmalloc: a shallow embedding of [rpmalloc/rpmalloc.c]

    The development follows the layout of the C file: machine integers and
    build constants, the size class table, the page, span, block and heap
    interfaces, and the extern entry points.  Memory is a store addressed
    by (base address, struct field); every C function becomes a function
    on the state of the allocator.  The default build is modelled
    (ARCH_64BIT, ENABLE_ASSERTS 0, ENABLE_UNMAP 1, POSIX); the argument
    validation switch ENABLE_VALIDATE_ARGS is a build parameter. *)

From Stdlib Require Import ZArith List Lia Bool.
Import ListNotations.
Local Open Scope Z_scope.

(** ** Machine integers *)

(** [uint32_t], [size_t]/[uintptr_t] and [int32_t] values live in [Z]; the
    wrap-around of the C arithmetic is written out at every operation. *)
Definition u32 (x : Z) : Z := x mod 2 ^ 32.
Definition u64 (x : Z) : Z := x mod 2 ^ 64.
Definition s32 (x : Z) : Z := if u32 x <? 2 ^ 31 then u32 x else u32 x - 2 ^ 32.

(** [pointer_offset(ptr, ofs)]: byte address arithmetic in a 64-bit
    address space.  [pointer_diff(first, second)] is the mathematical
    difference; its casts to [uint32_t] and [size_t] are [u32] and [u64]. *)
Definition pointer_offset (ptr ofs : Z) : Z := u64 (ptr + ofs).
Definition pointer_diff (first second : Z) : Z := first - second.

(** ** Built in size configurations *)

Definition PAGE_HEADER_SIZE : Z := 128.
Definition SPAN_HEADER_SIZE : Z := PAGE_HEADER_SIZE.
Definition SMALL_GRANULARITY : Z := 32.
Definition SMALL_BLOCK_SIZE_LIMIT : Z := 4 * 1024.
Definition MEDIUM_BLOCK_SIZE_LIMIT : Z := 256 * 1024.
Definition LARGE_BLOCK_SIZE_LIMIT : Z := 8 * 1024 * 1024.
Definition SMALL_SIZE_CLASS_COUNT : Z := 29.
Definition MEDIUM_SIZE_CLASS_COUNT : Z := 24.
Definition LARGE_SIZE_CLASS_COUNT : Z := 20.
Definition SIZE_CLASS_COUNT : Z :=
  SMALL_SIZE_CLASS_COUNT + MEDIUM_SIZE_CLASS_COUNT + LARGE_SIZE_CLASS_COUNT.
Definition SMALL_PAGE_SIZE_SHIFT : Z := 16.
Definition SMALL_PAGE_SIZE : Z := Z.shiftl 1 SMALL_PAGE_SIZE_SHIFT.
Definition MEDIUM_PAGE_SIZE_SHIFT : Z := 22.
Definition MEDIUM_PAGE_SIZE : Z := Z.shiftl 1 MEDIUM_PAGE_SIZE_SHIFT.
Definition LARGE_PAGE_SIZE_SHIFT : Z := 26.
Definition LARGE_PAGE_SIZE : Z := Z.shiftl 1 LARGE_PAGE_SIZE_SHIFT.
Definition SPAN_SIZE : Z := 256 * 1024 * 1024.
Definition SPAN_MASK : Z := u64 (Z.lnot (SPAN_SIZE - 1)).
Definition MAX_ALIGNMENT : Z := 256 * 1024.

(** Values of <errno.h> on the POSIX targets of the file. *)
Definition ENOMEM : Z := 12.
Definition EINVAL : Z := 22.

(** Flags of the reallocation entry points (rpmalloc.h). *)
Definition RPMALLOC_NO_PRESERVE : Z := 1.
Definition RPMALLOC_GROW_OR_FAIL : Z := 2.

(** ** Memory page type *)

Definition PAGE_SMALL : Z := 0.
Definition PAGE_MEDIUM : Z := 1.
Definition PAGE_LARGE : Z := 2.
Definition PAGE_HUGE : Z := 3.

(** ** Size classes *)

Record size_class_t := mk_size_class { block_size : Z; block_count : Z }.

Definition SCLASS (n : Z) : size_class_t :=
  mk_size_class (n * SMALL_GRANULARITY)
                ((SMALL_PAGE_SIZE - PAGE_HEADER_SIZE) / (n * SMALL_GRANULARITY)).
Definition MCLASS (n : Z) : size_class_t :=
  mk_size_class (n * SMALL_GRANULARITY)
                ((MEDIUM_PAGE_SIZE - PAGE_HEADER_SIZE) / (n * SMALL_GRANULARITY)).
Definition LCLASS (n : Z) : size_class_t :=
  mk_size_class (n * SMALL_GRANULARITY)
                ((LARGE_PAGE_SIZE - PAGE_HEADER_SIZE) / (n * SMALL_GRANULARITY)).

Definition global_size_class_table : list size_class_t :=
  [ SCLASS 1;      SCLASS 1;      SCLASS 2;     SCLASS 3;     SCLASS 4;      SCLASS 5;      SCLASS 6;
    SCLASS 7;      SCLASS 8;      SCLASS 9;     SCLASS 10;    SCLASS 11;     SCLASS 12;     SCLASS 13;
    SCLASS 14;     SCLASS 15;     SCLASS 16;    SCLASS 20;    SCLASS 24;     SCLASS 28;     SCLASS 32;
    SCLASS 40;     SCLASS 48;     SCLASS 56;    SCLASS 64;    SCLASS 80;     SCLASS 96;     SCLASS 112;
    SCLASS 128;    MCLASS 160;    MCLASS 192;   MCLASS 224;   MCLASS 256;    MCLASS 320;    MCLASS 384;
    MCLASS 448;    MCLASS 512;    MCLASS 640;   MCLASS 768;   MCLASS 896;    MCLASS 1024;   MCLASS 1280;
    MCLASS 1536;   MCLASS 1792;   MCLASS 2048;  MCLASS 2560;  MCLASS 3072;   MCLASS 3584;   MCLASS 4096;
    MCLASS 5120;   MCLASS 6144;   MCLASS 7168;  MCLASS 8192;  LCLASS 10240;  LCLASS 12288;  LCLASS 14336;
    LCLASS 16384;  LCLASS 20480;  LCLASS 24576; LCLASS 28672; LCLASS 32768;  LCLASS 40960;  LCLASS 49152;
    LCLASS 57344;  LCLASS 65536;  LCLASS 81920; LCLASS 98304; LCLASS 114688; LCLASS 131072; LCLASS 163840;
    LCLASS 196608; LCLASS 229376; LCLASS 262144 ].

(** [global_size_class[c]]; an index outside the array is not a valid C
    access and reads as the zero entry here. *)
Definition global_size_class (c : Z) : size_class_t :=
  nth (Z.to_nat c) global_size_class_table (mk_size_class 0 0).

(** ** Low level abstractions *)

(** [__builtin_clzll]: number of leading zero bits of a 64-bit word (the
    builtin is undefined at 0, where the lzcnt instruction gives 64). *)
Definition rpmalloc_clz (x : Z) : Z :=
  if x =? 0 then 64 else 63 - Z.log2 x.

(** ** Size class dispatch *)

Definition get_size_class_tiny (size : Z) : Z :=
  u32 (u32 size + (SMALL_GRANULARITY - 1)) / SMALL_GRANULARITY.

Definition get_size_class (size : Z) : Z :=
  let minblock_count := u64 (size + (SMALL_GRANULARITY - 1)) / SMALL_GRANULARITY in
  if size <=? SMALL_GRANULARITY * 16 then
    u32 (if minblock_count =? 0 then 1 else minblock_count)
  else
    let minblock_count := u64 (minblock_count - 1) in
    let most_significant_bit := u32 (63 - rpmalloc_clz minblock_count) in
    let subclass_bits :=
      u32 (Z.land (Z.shiftr minblock_count (u32 (most_significant_bit - 2))) 3) in
    let class_idx := u32 (u32 (u32 (Z.shiftl most_significant_bit 2) + subclass_bits) + 1) in
    class_idx.

Definition get_page_type (size_class : Z) : Z :=
  if size_class <? SMALL_SIZE_CLASS_COUNT then PAGE_SMALL
  else if size_class <? SMALL_SIZE_CLASS_COUNT + MEDIUM_SIZE_CLASS_COUNT then PAGE_MEDIUM
  else if size_class <? SIZE_CLASS_COUNT then PAGE_LARGE
  else PAGE_HUGE.

(** ** Data types *)

(** The fields of [page_t], [span_t], [heap_t] and [block_t].  A [span_t]
    starts with a [page_t] (its member [page]), so the page fields at a
    span's address are the header of the first page of that span, exactly
    as in the C layout.  [user_ptr] is a [void*] object of the caller. *)
Inductive field : Type :=
  | page_size_class | page_block_size | page_block_count | page_block_initialized
  | page_block_used | page_page_type | page_is_full | page_is_free | page_is_zero
  | page_is_decommitted | page_has_aligned_block | page_local_free_count
  | page_local_free | page_owner_thread | page_heap | page_next | page_prev
  | page_thread_free
  | span_page_initialized | span_page_count | span_page_size | span_page_size_shift
  | span_page_type | span_offset | span_mapped_size | span_next | span_prev
  | heap_owner_thread
  | heap_local_free (size_class : Z)
  | heap_page_available (size_class : Z)
  | heap_page_free (page_type : Z)
  | heap_page_free_thread (page_type : Z)
  | heap_span_partial (page_type : Z)
  | heap_span_used (page_type : Z)
  | heap_next | heap_id | heap_finalize | heap_offset | heap_mapped_size
  | block_next
  | user_ptr.

Definition field_code (f : field) : Z * Z :=
  match f with
  | page_size_class => (0, 0) | page_block_size => (1, 0) | page_block_count => (2, 0)
  | page_block_initialized => (3, 0) | page_block_used => (4, 0) | page_page_type => (5, 0)
  | page_is_full => (6, 0) | page_is_free => (7, 0) | page_is_zero => (8, 0)
  | page_is_decommitted => (9, 0) | page_has_aligned_block => (10, 0)
  | page_local_free_count => (11, 0) | page_local_free => (12, 0)
  | page_owner_thread => (13, 0) | page_heap => (14, 0) | page_next => (15, 0)
  | page_prev => (16, 0) | page_thread_free => (17, 0)
  | span_page_initialized => (18, 0) | span_page_count => (19, 0) | span_page_size => (20, 0)
  | span_page_size_shift => (21, 0) | span_page_type => (22, 0) | span_offset => (23, 0)
  | span_mapped_size => (24, 0) | span_next => (25, 0) | span_prev => (26, 0)
  | heap_owner_thread => (27, 0)
  | heap_local_free c => (28, c) | heap_page_available c => (29, c)
  | heap_page_free t => (30, t) | heap_page_free_thread t => (31, t)
  | heap_span_partial t => (32, t) | heap_span_used t => (33, t)
  | heap_next => (34, 0) | heap_id => (35, 0) | heap_finalize => (36, 0)
  | heap_offset => (37, 0) | heap_mapped_size => (38, 0)
  | block_next => (39, 0)
  | user_ptr => (40, 0)
  end.

Definition field_eqb (f g : field) : bool :=
  (fst (field_code f) =? fst (field_code g)) && (snd (field_code f) =? snd (field_code g)).

Definition is_heap_field (f : field) : bool :=
  (27 <=? fst (field_code f)) && (fst (field_code f) <=? 38).

(** What the allocator does to the outside: calls of the OS memory
    primitives, the naming of a mapping, and bulk writes to block
    payloads. *)
Inductive event : Type :=
  | ev_mmap (map_size : Z)
  | ev_set_page_name (address size : Z)
  | ev_mcommit (address size : Z)
  | ev_mdecommit (address size : Z)
  | ev_munmap (address mapped_size : Z)
  | ev_memset (address size : Z)
  | ev_memcpy (dst src size : Z)
  | ev_memmove (dst src size : Z).

(** ** Global data *)

(** The global and thread local variables of the file, the store, and the
    environment: the system page size and the addresses that successive
    [mmap] calls will return (0 stands for MAP_FAILED).  Thread local
    variables are indexed by the thread id.  [errno] holds what the
    allocator itself assigns; the value a system call leaves there is
    not tracked. *)
Record state : Type := mk_state {
  mem : Z -> field -> Z;
  global_heap_default : Z;
  global_heap_queue : Z;
  global_heap_lock : Z;
  global_heap_id : Z;
  global_memory_interface : Z;
  os_map_granularity : Z;
  os_page_size : Z;
  global_thread_heap : Z -> Z;
  errno : Z -> Z;
  sysconf_pagesize : Z;
  mmap_results : list Z;
  trace : list event
}.

Definition with_mem (m : Z -> field -> Z) (st : state) : state :=
  mk_state m (global_heap_default st) (global_heap_queue st) (global_heap_lock st)
           (global_heap_id st) (global_memory_interface st) (os_map_granularity st)
           (os_page_size st) (global_thread_heap st) (errno st) (sysconf_pagesize st)
           (mmap_results st) (trace st).
Definition with_global_heap_queue (v : Z) (st : state) : state :=
  mk_state (mem st) (global_heap_default st) v (global_heap_lock st)
           (global_heap_id st) (global_memory_interface st) (os_map_granularity st)
           (os_page_size st) (global_thread_heap st) (errno st) (sysconf_pagesize st)
           (mmap_results st) (trace st).
Definition with_global_heap_lock (v : Z) (st : state) : state :=
  mk_state (mem st) (global_heap_default st) (global_heap_queue st) v
           (global_heap_id st) (global_memory_interface st) (os_map_granularity st)
           (os_page_size st) (global_thread_heap st) (errno st) (sysconf_pagesize st)
           (mmap_results st) (trace st).
Definition with_global_heap_id (v : Z) (st : state) : state :=
  mk_state (mem st) (global_heap_default st) (global_heap_queue st) (global_heap_lock st)
           v (global_memory_interface st) (os_map_granularity st)
           (os_page_size st) (global_thread_heap st) (errno st) (sysconf_pagesize st)
           (mmap_results st) (trace st).
Definition with_global_memory_interface (v : Z) (st : state) : state :=
  mk_state (mem st) (global_heap_default st) (global_heap_queue st) (global_heap_lock st)
           (global_heap_id st) v (os_map_granularity st)
           (os_page_size st) (global_thread_heap st) (errno st) (sysconf_pagesize st)
           (mmap_results st) (trace st).
Definition with_os_page_sizes (granularity page_size : Z) (st : state) : state :=
  mk_state (mem st) (global_heap_default st) (global_heap_queue st) (global_heap_lock st)
           (global_heap_id st) (global_memory_interface st) granularity
           page_size (global_thread_heap st) (errno st) (sysconf_pagesize st)
           (mmap_results st) (trace st).
Definition with_global_thread_heap (tid heap : Z) (st : state) : state :=
  mk_state (mem st) (global_heap_default st) (global_heap_queue st) (global_heap_lock st)
           (global_heap_id st) (global_memory_interface st) (os_map_granularity st)
           (os_page_size st)
           (fun t => if t =? tid then heap else global_thread_heap st t)
           (errno st) (sysconf_pagesize st) (mmap_results st) (trace st).
Definition set_errno (tid code : Z) (st : state) : state :=
  mk_state (mem st) (global_heap_default st) (global_heap_queue st) (global_heap_lock st)
           (global_heap_id st) (global_memory_interface st) (os_map_granularity st)
           (os_page_size st) (global_thread_heap st)
           (fun t => if t =? tid then code else errno st t)
           (sysconf_pagesize st) (mmap_results st) (trace st).
Definition with_mmap_results (l : list Z) (st : state) : state :=
  mk_state (mem st) (global_heap_default st) (global_heap_queue st) (global_heap_lock st)
           (global_heap_id st) (global_memory_interface st) (os_map_granularity st)
           (os_page_size st) (global_thread_heap st) (errno st) (sysconf_pagesize st)
           l (trace st).
Definition emit (e : event) (st : state) : state :=
  mk_state (mem st) (global_heap_default st) (global_heap_queue st) (global_heap_lock st)
           (global_heap_id st) (global_memory_interface st) (os_map_granularity st)
           (os_page_size st) (global_thread_heap st) (errno st) (sysconf_pagesize st)
           (mmap_results st) (trace st ++ [e]).

(** [ptr->field] and [ptr->field = v]. *)
Definition load (st : state) (ptr : Z) (f : field) : Z := mem st ptr f.
Definition store (ptr : Z) (f : field) (v : Z) (st : state) : state :=
  with_mem (fun a g => if field_eqb g f && (a =? ptr) then v else mem st a g) st.

(** [memset(address, 0, size)]: the links stored in the blocks of the
    range are cleared; the payload bytes are recorded in the trace. *)
Definition memset (address size : Z) (st : state) : state :=
  emit (ev_memset address size)
    (with_mem (fun a g =>
                 if field_eqb g block_next && (address <=? a) && (a <? address + size)
                 then 0 else mem st a g) st).

(** [memset_const(heap, 0, sizeof(heap_t))]. *)
Definition sizeof_heap_t : Z := 1304.
Definition memset_heap (heap : Z) (st : state) : state :=
  with_mem (fun a g => if is_heap_field g && (a =? heap) then 0 else mem st a g) st.

(** The process before the first call: zeroed static data, both the
    default heap pointer and every thread's heap pointer at the static
    fallback heap. *)
Definition initial_state (global_heap_fallback pagesize : Z) (mmaps : list Z) : state :=
  mk_state (fun _ _ => 0) global_heap_fallback 0 0 1 0 0 0
           (fun _ => global_heap_fallback) (fun _ => 0) pagesize mmaps [].

(** ** Thread local heap and ID *)

(** [get_thread_id()] reads the thread pointer register; it is the
    argument [tid] of every function that uses it. *)
Definition get_thread_heap (tid : Z) (st : state) : Z := global_thread_heap st tid.

Definition set_thread_heap (tid heap : Z) (st : state) : state :=
  let st := with_global_thread_heap tid heap st in
  if heap =? 0 then st else store heap heap_owner_thread tid st.

Definition get_page_aligned_size (st : state) (size : Z) : Z :=
  let unalign := size mod os_page_size st in
  if unalign =? 0 then size else u64 (size + (os_page_size st - unalign)).

(** ** OS entry points *)

(** [os_set_page_name], as compiled for Linux: a mapping that succeeded
    is named through [prctl(PR_SET_VMA, PR_SET_VMA_ANON_NAME, ...)];
    [global_page_name] is never null and the result of the call is
    ignored. *)
Definition os_set_page_name (address size : Z) (st : state) : state :=
  if address =? 0 then st else emit (ev_set_page_name address size) st.

(** [os_mmap], the [MAP_HUGETLB] branch ([global_use_huge_pages] is never
    set): one [mmap] of [size + alignment] bytes, named, the result
    shifted forward to the alignment.  The out parameters [offset] and
    [mapped_size] are passed in and returned.  The default interface has
    no [map_fail_callback], so a failed map returns null. *)
Definition os_mmap (size alignment offset mapped_size : Z) (st : state)
  : Z * Z * Z * state :=
  let map_size := u64 (size + alignment) in
  let ptr := hd 0 (mmap_results st) in
  let st := emit (ev_mmap map_size) (with_mmap_results (tl (mmap_results st)) st) in
  let st := os_set_page_name ptr map_size st in
  if ptr =? 0 then (0, offset, mapped_size, st)
  else
    let '(ptr, offset) :=
      if alignment =? 0 then (ptr, offset)
      else
        let padding := Z.land ptr (u64 (alignment - 1)) in
        let padding := if padding =? 0 then padding else u64 (alignment - padding) in
        (pointer_offset ptr padding, padding) in
    (ptr, offset, map_size, st).

Definition os_mcommit (address size : Z) (st : state) : state :=
  emit (ev_mcommit address size) st.

Definition os_mdecommit (address size : Z) (st : state) : state :=
  emit (ev_mdecommit address size) st.

Definition os_munmap (address offset mapped_size : Z) (st : state) : state :=
  let address := pointer_offset address (- s32 offset) in
  emit (ev_munmap address mapped_size) st.

(** [global_memory_interface->memory_map] and its siblings: the interface
    installed by [rpmalloc_initialize(0)] is the OS one. *)
Definition memory_map := os_mmap.
Definition memory_commit := os_mcommit.
Definition memory_decommit := os_mdecommit.
Definition memory_unmap := os_munmap.

(** ** Page interface *)

(** Atomic objects ([page->thread_free], [heap->page_free_thread]) are
    read and written with [load] and [store]: every operation of the file
    runs here without another thread in between, so each compare-and-swap
    finds the value that was just loaded and succeeds at once. *)

Definition page_get_span (page : Z) : Z := Z.land page SPAN_MASK.

Definition page_get_size (st : state) (page : Z) : Z :=
  if load st page page_page_type =? PAGE_SMALL then SMALL_PAGE_SIZE
  else if load st page page_page_type =? PAGE_MEDIUM then MEDIUM_PAGE_SIZE
  else if load st page page_page_type =? PAGE_LARGE then LARGE_PAGE_SIZE
  else load st (page_get_span page) span_page_size.

Definition page_block_start (page : Z) : Z := pointer_offset page PAGE_HEADER_SIZE.

Definition page_block (st : state) (page block_index : Z) : Z :=
  pointer_offset page (u32 (PAGE_HEADER_SIZE + u32 (load st page page_block_size * block_index))).

Definition page_block_index (st : state) (page block : Z) : Z :=
  let block_first := page_block_start page in
  u32 (pointer_diff block block_first) / load st page page_block_size.

(** Returns the list count and the head block (the C out parameter). *)
Definition page_block_from_thread_free_list (st : state) (page token : Z) : Z * Z :=
  let block_index := u32 (Z.land token 0xFFFFFFFF) in
  let list_count := u32 (Z.land (Z.shiftr token 32) 0xFFFFFFFF) in
  (list_count, if list_count =? 0 then 0 else page_block st page block_index).

Definition page_block_to_thread_free_list (page block_index list_count : Z) : Z :=
  Z.lor (u64 (Z.shiftl list_count 32)) block_index.

Definition page_block_realign (st : state) (page block : Z) : Z :=
  let blocks_start := page_block_start page in
  let block_offset := u32 (pointer_diff block blocks_start) in
  pointer_offset block (- s32 (block_offset mod load st page page_block_size)).

Definition page_get_local_free_block (page : Z) (st : state) : Z * state :=
  if load st page page_local_free =? 0 then (0, st)
  else
    let block := load st page page_local_free in
    let st := store page page_local_free (load st block block_next) st in
    let st := store page page_local_free_count (u32 (load st page page_local_free_count - 1)) st in
    let st := store page page_block_used (u32 (load st page page_block_used + 1)) st in
    (block, st).

Definition page_decommit_memory_pages (page : Z) (st : state) : state :=
  let extra_page := pointer_offset page (os_page_size st) in
  let extra_page_size := u64 (page_get_size st page - os_page_size st) in
  let st := memory_decommit extra_page extra_page_size st in
  store page page_is_decommitted 1 st.

Definition page_commit_memory_pages (page : Z) (st : state) : state :=
  let extra_page := pointer_offset page (os_page_size st) in
  let extra_page_size := u64 (page_get_size st page - os_page_size st) in
  let st := memory_commit extra_page extra_page_size st in
  store page page_is_decommitted 0 st.

Definition page_available_to_free (page : Z) (st : state) : state :=
  let heap := load st page page_heap in
  let st :=
    if load st heap (heap_page_available (load st page page_size_class)) =? page then
      store heap (heap_page_available (load st page page_size_class)) (load st page page_next) st
    else
      let st := store (load st page page_prev) page_next (load st page page_next) st in
      if load st page page_next =? 0 then st
      else store (load st page page_next) page_prev (load st page page_prev) st in
  let st := store page page_is_free 1 st in
  let st := store page page_next (load st heap (heap_page_free (load st page page_page_type))) st in
  let st := store heap (heap_page_free (load st page page_page_type)) page st in
  if load st page page_next =? 0 then st
  else page_decommit_memory_pages (load st page page_next) st.

Definition page_full_to_available (page : Z) (st : state) : state :=
  let heap := load st page page_heap in
  let st := store page page_next (load st heap (heap_page_available (load st page page_size_class))) st in
  let st :=
    if load st page page_next =? 0 then st
    else store (load st page page_next) page_prev page st in
  let st := store heap (heap_page_available (load st page page_size_class)) page st in
  store page page_is_full 0 st.

Definition page_put_local_free_block (page block : Z) (st : state) : state :=
  let st := store block block_next (load st page page_local_free) st in
  let st := store page page_local_free block st in
  let st := store page page_local_free_count (u32 (load st page page_local_free_count + 1)) st in
  let st := store page page_block_used (u32 (load st page page_block_used - 1)) st in
  if load st page page_block_used =? 0 then page_available_to_free page st
  else if negb (load st page page_is_full =? 0) then page_full_to_available page st
  else st.

Definition page_adopt_thread_free_block_list (page : Z) (st : state) : state :=
  let thread_free := load st page page_thread_free in
  if thread_free =? 0 then st
  else
    let st := store page page_thread_free 0 st in
    let '(list_count, block) := page_block_from_thread_free_list st page thread_free in
    let st := store page page_local_free block st in
    let st := store page page_local_free_count list_count st in
    store page page_block_used
          (u32 (load st page page_block_used - load st page page_local_free_count)) st.

Definition page_get_thread_free_block (page : Z) (st : state) : Z * state :=
  let st := page_adopt_thread_free_block_list page st in
  let block := load st page page_local_free in
  if block =? 0 then (block, st)
  else
    let st := store page page_local_free (load st block block_next) st in
    let st := store page page_local_free_count (u32 (load st page page_local_free_count - 1)) st in
    let st := store page page_block_used (u32 (load st page page_block_used + 1)) st in
    (block, st).

Definition page_put_thread_free_block (page block : Z) (st : state) : state :=
  let prev_thread_free := load st page page_thread_free in
  let block_index := page_block_index st page block in
  let '(prev_count, prev_head) := page_block_from_thread_free_list st page prev_thread_free in
  let st := store block block_next prev_head st in
  let list_size := u32 (prev_count + 1) in
  let thread_free := page_block_to_thread_free_list page block_index list_size in
  let st := store page page_thread_free thread_free st in
  if (list_size =? 1) && negb (load st page page_is_full =? 0) then
    (* TODO: Add the page to heap list of potentially available pages *)
    st
  else if load st page page_block_count <=? list_size then
    let st := page_decommit_memory_pages page st in
    let heap := load st page page_heap in
    let prev_head := load st heap (heap_page_free_thread (load st page page_page_type)) in
    let st := store page page_next prev_head st in
    store heap (heap_page_free_thread (load st page page_page_type)) page st
  else st.

Definition page_push_local_free_to_heap (page : Z) (st : state) : state :=
  if load st page page_local_free =? 0 then st
  else
    let st := store (load st page page_heap) (heap_local_free (load st page page_size_class))
                    (load st page page_local_free) st in
    let st := store page page_block_used
                    (u32 (load st page page_block_used + load st page page_local_free_count)) st in
    let st := store page page_local_free 0 st in
    store page page_local_free_count 0 st.

(** The loop of [page_initialize_blocks] that links the blocks up to the
    next memory page.  It runs at most [max_list_count] times, which is
    the fuel it is called with.  Returns [last_block], [list_count]. *)
Fixpoint page_link_free_blocks (fuel : nat) (page memory_page_next max_list_count : Z)
         (free_block last_block list_count : Z) (st : state) : Z * Z * state :=
  match fuel with
  | O => (last_block, list_count, st)
  | S fuel =>
      if (free_block <? memory_page_next) && (list_count <? max_list_count) then
        let last_block := free_block in
        let st := store free_block block_next
                        (pointer_offset free_block (load st page page_block_size)) st in
        let free_block := load st free_block block_next in
        page_link_free_blocks fuel page memory_page_next max_list_count
                              free_block last_block (u32 (list_count + 1)) st
      else (last_block, list_count, st)
  end.

Definition page_initialize_blocks (page : Z) (st : state) : Z * state :=
  let block := page_block st page (load st page page_block_initialized) in
  let st := store page page_block_initialized (u32 (load st page page_block_initialized + 1)) st in
  let st := store page page_block_used (u32 (load st page page_block_used + 1)) st in
  if (load st page page_page_type =? PAGE_SMALL)
     && (load st page page_block_size <? Z.shiftr (os_page_size st) 1) then
    let memory_page_start := Z.land block (u64 (Z.lnot (u64 (os_page_size st - 1)))) in
    let memory_page_next := pointer_offset memory_page_start (os_page_size st) in
    let free_block := pointer_offset block (load st page page_block_size) in
    let first_block := free_block in
    let max_list_count :=
      u32 (load st page page_block_count - load st page page_block_initialized) in
    let '(last_block, list_count, st) :=
      page_link_free_blocks (Z.to_nat max_list_count) page memory_page_next max_list_count
                            free_block free_block 0 st in
    if list_count =? 0 then (block, st)
    else
      let st := store last_block block_next 0 st in
      let st := store page page_local_free first_block st in
      let st := store page page_block_initialized
                      (u32 (load st page page_block_initialized + list_count)) st in
      let st := store page page_local_free_count list_count st in
      (block, st)
  else (block, st).

Definition page_allocate_block (page zero : Z) (st : state) : Z * state :=
  let '(block, is_zero, st) :=
    let '(block, st) := page_get_local_free_block page st in
    if block =? 0 then
      let '(block, st) := page_get_thread_free_block page st in
      if block =? 0 then
        let '(block, st) := page_initialize_blocks page st in
        (block, load st page page_is_zero, st)
      else (block, 0, st)
    else (block, 0, st) in
  let st := page_push_local_free_to_heap page st in
  let st :=
    if load st page page_block_used =? load st page page_block_count
    then page_adopt_thread_free_block_list page st else st in
  let st :=
    if load st page page_block_used =? load st page page_block_count then
      (* Page is fully utilized *)
      let st :=
        if load st page page_is_full =? 0 then
          let heap := load st page page_heap in
          if load st heap (heap_page_available (load st page page_size_class)) =? page then
            store heap (heap_page_available (load st page page_size_class))
                  (load st page page_next) st
          else
            let st := store (load st page page_prev) page_next (load st page page_next) st in
            if load st page page_next =? 0 then st
            else store (load st page page_next) page_prev (load st page page_prev) st
        else st in
      let st := store page page_is_full 1 st in
      store page page_is_zero 0 st
    else st in
  let st :=
    if negb (zero =? 0) && (is_zero =? 0) && negb (block =? 0)
    then memset block (load st page page_block_size) st else st in
  (block, st).

Definition page_deallocate_block (tid page block : Z) (st : state) : state :=
  let calling_thread := tid in
  let is_local :=
    (load st page page_owner_thread =? 0) || (load st page page_owner_thread =? calling_thread) in
  let block :=
    if negb (load st page page_has_aligned_block =? 0)
    then page_block_realign st page block else block in
  if is_local then page_put_local_free_block page block st
  else page_put_thread_free_block page block st.

(** ** Span interface *)

Definition span_get_page_from_block (st : state) (span block : Z) : Z :=
  let page_count := Z.shiftr (u64 (pointer_diff block span)) (load st span span_page_size_shift) in
  pointer_offset span (u64 (Z.shiftl page_count (load st span span_page_size_shift))).

Definition span_allocate_page (span : Z) (st : state) : Z * state :=
  let heap := load st span page_heap in
  let page := pointer_offset span
                (u32 (load st span span_page_size * load st span span_page_initialized)) in
  let st := store span span_page_initialized (u32 (load st span span_page_initialized + 1)) st in
  let st := store page page_page_type (load st span span_page_type) st in
  let st := store page page_is_zero 1 st in
  let st := store page page_owner_thread (load st heap heap_owner_thread) st in
  let st := store page page_heap heap st in
  let st :=
    if load st span span_page_initialized =? load st span span_page_count then
      (* Span fully utilized *)
      let st := store heap (heap_span_partial (load st span span_page_type)) 0 st in
      let st := store span span_next (load st heap (heap_span_used (load st span span_page_type))) st in
      let st :=
        if load st span span_next =? 0 then st
        else store (load st span span_next) span_prev span st in
      store heap (heap_span_used (load st span span_page_type)) span st
    else st in
  (page, st).

(** ** Block interface *)

Definition block_get_span (block : Z) : Z := Z.land block SPAN_MASK.

Definition block_deallocate (tid block : Z) (st : state) : state :=
  let span := Z.land block SPAN_MASK in
  if load st span span_page_type <=? PAGE_LARGE then
    let page := span_get_page_from_block st span block in
    page_deallocate_block tid page block st
  else
    memory_unmap span (load st span span_offset) (load st span span_mapped_size) st.

Definition block_usable_size (st : state) (block : Z) : Z :=
  let span := Z.land block SPAN_MASK in
  if load st span span_page_type <=? PAGE_LARGE then
    let page := span_get_page_from_block st span block in
    let blocks_start := pointer_offset page PAGE_HEADER_SIZE in
    u64 (load st page page_block_size
         - u64 (pointer_diff block blocks_start) mod load st page page_block_size)
  else
    u64 (load st span span_mapped_size - u64 (pointer_diff block span)).

(** ** Initialization *)

(** [rpmalloc_initialize(0)]: installs the OS memory interface and reads
    the page size ([global_use_huge_pages] is never set in the file).
    [rpmalloc_thread_initialize] is empty. *)
Definition rpmalloc_initialize (st : state) : Z * state :=
  if negb (global_memory_interface st =? 0) then (0, st)
  else
    let st := with_global_memory_interface 1 st in
    let st := with_os_page_sizes (sysconf_pagesize st) (sysconf_pagesize st) st in
    (0, st).

Definition rpmalloc_finalize (st : state) : state :=
  with_global_memory_interface 0 st.

(** ** Heap interface *)

Definition heap_lock_acquire (tid : Z) (st : state) : state :=
  with_global_heap_lock tid st.

Definition heap_lock_release (st : state) : state :=
  with_global_heap_lock 0 st.

Definition heap_initialize (block : Z) (st : state) : Z * state :=
  let heap := block in
  let st := memset_heap heap st in
  let old_id := global_heap_id st in
  let st := with_global_heap_id (u32 (old_id + 1)) st in
  let st := store heap heap_id (u32 (1 + old_id)) st in
  (heap, st).

Definition heap_allocate_new (st : state) : Z * state :=
  let heap_size := get_page_aligned_size st sizeof_heap_t in
  let '(block, offset, mapped_size, st) := memory_map heap_size 0 0 0 st in
  let '(heap, st) := heap_initialize block st in
  let st := store heap heap_offset (u32 offset) st in
  let st := store heap heap_mapped_size mapped_size st in
  (heap, st).

Definition heap_allocate (tid first_class : Z) (st : state) : Z * state :=
  let '(heap, st) :=
    if first_class =? 0 then
      let st := heap_lock_acquire tid st in
      let heap := global_heap_queue st in
      let st := with_global_heap_queue (if heap =? 0 then 0 else load st heap heap_next) st in
      let st := heap_lock_release st in
      (heap, st)
    else (0, st) in
  let '(heap, st) := if heap =? 0 then heap_allocate_new st else (heap, st) in
  if heap =? 0 then (heap, st)
  else
    let st := store heap heap_next 0 st in
    let st := store heap heap_owner_thread tid st in
    (heap, st).

Definition get_thread_heap_allocate (tid : Z) (st : state) : Z * state :=
  let '(heap, st) := heap_allocate tid 0 st in
  let st := set_thread_heap tid heap st in
  (heap, st).

Definition heap_release (tid heap : Z) (st : state) : state :=
  let st := heap_lock_acquire tid st in
  let st := store heap heap_next (global_heap_queue st) st in
  let st := with_global_heap_queue heap st in
  heap_lock_release st.

Definition heap_make_free_page_available (heap size_class page : Z) (st : state) : state :=
  let st := store page page_size_class size_class st in
  let st := store page page_block_size (block_size (global_size_class size_class)) st in
  let st := store page page_block_count (block_count (global_size_class size_class)) st in
  let st := store page page_block_used 0 st in
  let st := store page page_block_initialized 0 st in
  let st := store page page_local_free 0 st in
  let st := store page page_local_free_count 0 st in
  let st := store page page_is_full 0 st in
  let st := store page page_is_free 0 st in
  let st := store page page_has_aligned_block 0 st in
  let st := store page page_owner_thread (load st heap heap_owner_thread) st in
  let head := load st heap (heap_page_available size_class) in
  let st := store page page_next head st in
  let st := store page page_prev 0 st in
  let st := store page page_thread_free 0 st in
  let st := if head =? 0 then st else store head page_prev page st in
  let st := store heap (heap_page_available size_class) page st in
  if load st page page_is_decommitted =? 0 then st
  else
    let st := page_commit_memory_pages page st in
    let first_page := pointer_offset page PAGE_HEADER_SIZE in
    let st := memset first_page (u64 (os_page_size st - PAGE_HEADER_SIZE)) st in
    store page page_is_zero 1 st.

Definition heap_get_span (tid heap page_type : Z) (st : state) : Z * state :=
  if negb (load st heap (heap_span_partial page_type) =? 0) then
    (load st heap (heap_span_partial page_type), st)
  else
    let '(heap, st) :=
      if heap =? global_heap_default st then
        (* Thread has not yet initialized *)
        let '(_, st) := rpmalloc_initialize st in
        get_thread_heap_allocate tid st
      else (heap, st) in
    (* Fallback path, map more memory *)
    let '(span, offset, mapped_size, st) := memory_map SPAN_SIZE SPAN_SIZE 0 0 st in
    let st :=
      if span =? 0 then st
      else
        let st := store span span_page_type page_type st in
        let st := store span page_heap heap st in
        let st := store span page_owner_thread (load st heap heap_owner_thread) st in
        let st :=
          if page_type =? PAGE_SMALL then
            let st := store span span_page_count (SPAN_SIZE / SMALL_PAGE_SIZE) st in
            let st := store span span_page_size SMALL_PAGE_SIZE st in
            store span span_page_size_shift SMALL_PAGE_SIZE_SHIFT st
          else if page_type =? PAGE_MEDIUM then
            let st := store span span_page_count (SPAN_SIZE / MEDIUM_PAGE_SIZE) st in
            let st := store span span_page_size MEDIUM_PAGE_SIZE st in
            store span span_page_size_shift MEDIUM_PAGE_SIZE_SHIFT st
          else
            let st := store span span_page_count (SPAN_SIZE / LARGE_PAGE_SIZE) st in
            let st := store span span_page_size LARGE_PAGE_SIZE st in
            store span span_page_size_shift LARGE_PAGE_SIZE_SHIFT st in
        let st := store span span_offset (u32 offset) st in
        let st := store span span_mapped_size mapped_size st in
        store heap (heap_span_partial page_type) span st in
    (* Make sure default heap has owning thread *)
    let st :=
      if load st heap heap_owner_thread =? 0 then store heap heap_owner_thread tid st else st in
    (span, st).

Definition heap_get_page (tid heap size_class : Z) (st : state) : Z * state :=
  (* Fast path, available page for given size class *)
  let page := load st heap (heap_page_available size_class) in
  if negb (page =? 0) then (page, st)
  else
    (* Check if there is a free page *)
    let page_type := get_page_type size_class in
    let page := load st heap (heap_page_free page_type) in
    if negb (page =? 0) then
      let st := store heap (heap_page_free page_type) (load st page page_next) st in
      let st := heap_make_free_page_available heap size_class page st in
      (page, st)
    else
      (* Check if there is a free page from multithreaded deallocations *)
      let page_mt := load st heap (heap_page_free_thread page_type) in
      if negb (page_mt =? 0) then
        let st := store heap (heap_page_free_thread page_type) 0 st in
        let page := page_mt in
        let st := store heap (heap_page_free page_type) (load st page page_next) st in
        let st := heap_make_free_page_available heap size_class page st in
        (page, st)
      else
        (* Fallback path, find or allocate span for given size class *)
        let '(span, st) := heap_get_span tid heap page_type st in
        if negb (span =? 0) then
          let '(page, st) := span_allocate_page span st in
          let st := heap_make_free_page_available (load st page page_heap) size_class page st in
          (page, st)
        else (page, st).

Definition heap_pop_local_free (heap size_class : Z) (st : state) : Z * state :=
  let block := load st heap (heap_local_free size_class) in
  if negb (block =? 0) then
    (block, store heap (heap_local_free size_class) (load st block block_next) st)
  else (block, st).

Definition heap_allocate_block_small_to_large (tid heap size_class zero : Z) (st : state)
  : Z * state :=
  let '(page, st) := heap_get_page tid heap size_class st in
  if negb (page =? 0) then page_allocate_block page zero st
  else (0, st).

Definition heap_allocate_block_huge (heap size : Z) (st : state) : Z * state :=
  let alloc_size := get_page_aligned_size st (u64 (size + SPAN_HEADER_SIZE)) in
  let '(block, offset, mapped_size, st) := memory_map alloc_size SPAN_SIZE 0 0 st in
  if negb (block =? 0) then
    let span := block in
    let st := store span span_page_type PAGE_HUGE st in
    let st := store span span_page_size (u32 size) st in
    let st := store span span_page_size_shift 0 st in
    let st := store span span_offset (u32 offset) st in
    let st := store span span_mapped_size mapped_size st in
    let st := store span page_is_full 1 st in
    (pointer_offset block SPAN_HEADER_SIZE, st)
  else (0, st).

Definition heap_allocate_block_tiny (tid heap size zero : Z) (st : state) : Z * state :=
  let size_class := get_size_class_tiny size in
  let '(block, st) := heap_pop_local_free heap size_class st in
  if negb (block =? 0) then
    (* Fast track with small block available in heap level local free list *)
    let st :=
      if negb (zero =? 0) then memset block (block_size (global_size_class size_class)) st
      else st in
    (block, st)
  else heap_allocate_block_small_to_large tid heap size_class zero st.

Definition heap_allocate_block_generic (tid heap size zero : Z) (st : state) : Z * state :=
  let size_class := get_size_class size in
  if size_class <? SIZE_CLASS_COUNT then
    let '(block, st) := heap_pop_local_free heap size_class st in
    if negb (block =? 0) then
      let st :=
        if negb (zero =? 0) then memset block (block_size (global_size_class size_class)) st
        else st in
      (block, st)
    else heap_allocate_block_small_to_large tid heap size_class zero st
  else heap_allocate_block_huge heap size st.

Definition heap_allocate_block (tid heap size zero : Z) (st : state) : Z * state :=
  if size <=? SMALL_GRANULARITY * 16 then heap_allocate_block_tiny tid heap size zero st
  else heap_allocate_block_generic tid heap size zero st.

(** ** Build time configuration *)

(** [ENABLE_VALIDATE_ARGS] (0 unless the build overrides it) and the two
    macros its code refers to, which rpmalloc.c does not define. *)
Record build : Type := mk_build {
  ENABLE_VALIDATE_ARGS : bool;
  MAX_ALLOC_SIZE : Z;
  _memory_page_size : Z
}.

Definition default_build : build := mk_build false 0 0.

Definition heap_allocate_block_aligned (cfg : build) (tid heap alignment size zero : Z)
           (st : state) : Z * state :=
  if alignment <=? SMALL_GRANULARITY then heap_allocate_block tid heap size zero st
  else if ENABLE_VALIDATE_ARGS cfg && (u64 (size + alignment) <? size) then
    (0, set_errno tid EINVAL st)
  else if ENABLE_VALIDATE_ARGS cfg && negb (Z.land alignment (u64 (alignment - 1)) =? 0) then
    (0, set_errno tid EINVAL st)
  else if MAX_ALIGNMENT <=? alignment then
    (0, set_errno tid EINVAL st)
  else
    let align_mask := u64 (alignment - 1) in
    let '(block, st) := heap_allocate_block tid heap (u64 (size + alignment)) zero st in
    if negb (Z.land block align_mask =? 0) then
      let block := u64 (Z.land block (u64 (Z.lnot align_mask)) + alignment) in
      (* Mark as having aligned blocks *)
      let span := block_get_span block in
      let page := span_get_page_from_block st span block in
      let st := store page page_has_aligned_block 1 st in
      (block, st)
    else (block, st).

(** The size requested from [heap_allocate_block] when a reallocation
    moves the block: the hysteresis rule of [heap_reallocate_block]. *)
Definition heap_reallocate_new_size (size old_size : Z) : Z :=
  let lower_bound := u64 (old_size + Z.shiftr old_size 2 + Z.shiftr old_size 3) in
  if lower_bound <? size then size
  else if old_size <? size then lower_bound else size.

Definition heap_reallocate_block (tid heap block size old_size flags : Z) (st : state)
  : Z * state :=
  (* [inplace] is the early return of the C function, if it is taken *)
  let '(inplace, old_size, st) :=
    if negb (block =? 0) then
      (* Grab the span using guaranteed span alignment *)
      let span := block_get_span block in
      if load st span span_page_type <=? PAGE_LARGE then
        (* Normal sized block *)
        let page := span_get_page_from_block st span block in
        let blocks_start := pointer_offset page PAGE_HEADER_SIZE in
        let block_offset := u32 (pointer_diff block blocks_start) in
        let block_idx := block_offset / load st page page_block_size in
        let block_origin :=
          pointer_offset blocks_start (u64 (block_idx * load st page page_block_size)) in
        let old_size :=
          if old_size =? 0
          then u64 (load st page page_block_size - pointer_diff block block_origin)
          else old_size in
        if size <=? load st page page_block_size then
          (* Still fits in block *)
          let st :=
            if negb (block =? block_origin) && (Z.land flags RPMALLOC_NO_PRESERVE =? 0)
            then emit (ev_memmove block_origin block old_size) st else st in
          (Some block_origin, old_size, st)
        else (None, old_size, st)
      else
        (* Oversized block *)
        let block_start := pointer_offset span SPAN_HEADER_SIZE in
        let old_size := if old_size =? 0 then load st span span_page_size else old_size in
        if size <? load st span span_mapped_size then
          (* Still fits in block *)
          let st :=
            if negb (block_start =? block) && (Z.land flags RPMALLOC_NO_PRESERVE =? 0)
            then emit (ev_memmove block_start block old_size) st else st in
          let st := store span span_page_size (u32 size) st in
          (Some block_start, old_size, st)
        else (None, old_size, st)
    else (None, 0, st) in
  match inplace with
  | Some result => (result, st)
  | None =>
      if negb (Z.land flags RPMALLOC_GROW_OR_FAIL =? 0) then (0, st)
      else
        (* Size is greater than block size, need to allocate a new block and
           deallocate the old.  Avoid hysteresis by overallocating if increase
           is small (below 37%) *)
        let new_size := heap_reallocate_new_size size old_size in
        let old_block := block in
        let '(block, st) := heap_allocate_block tid heap new_size 0 st in
        let st :=
          if negb (block =? 0) && negb (old_block =? 0) then
            let st :=
              if Z.land flags RPMALLOC_NO_PRESERVE =? 0
              then emit (ev_memcpy block old_block
                                   (if old_size <? new_size then old_size else new_size)) st
              else st in
            block_deallocate tid old_block st
          else st in
        (block, st)
  end.

Definition heap_reallocate_block_aligned (cfg : build)
           (tid heap block alignment size old_size flags : Z) (st : state) : Z * state :=
  if alignment <=? SMALL_GRANULARITY
  then heap_reallocate_block tid heap block size old_size flags st
  else
    let no_alloc := negb (Z.land flags RPMALLOC_GROW_OR_FAIL =? 0) in
    let usable_size := if block =? 0 then 0 else block_usable_size st block in
    if (size <=? usable_size) && (Z.land block (u64 (alignment - 1)) =? 0)
       && (no_alloc || (usable_size / 2 <=? size))
    then (block, st)
    else
      (* Aligned alloc marks span as having aligned blocks *)
      let old_block := block in
      let '(block, st) :=
        if no_alloc then (0, st)
        else heap_allocate_block_aligned cfg tid heap alignment size 0 st in
      let st :=
        if negb (block =? 0) && (Z.land flags RPMALLOC_NO_PRESERVE =? 0)
           && negb (old_block =? 0) then
          let old_size := if old_size =? 0 then usable_size else old_size in
          emit (ev_memcpy block old_block (if old_size <? size then old_size else size)) st
        else st in
      let st := if negb (old_block =? 0) then block_deallocate tid old_block st else st in
      (block, st).

(** ** Extern interface *)

Definition rpmalloc_is_thread_initialized (tid : Z) (st : state) : Z :=
  if get_thread_heap tid st =? global_heap_default st then 0 else 1.

Definition rpmalloc (cfg : build) (tid size : Z) (st : state) : Z * state :=
  if ENABLE_VALIDATE_ARGS cfg && (MAX_ALLOC_SIZE cfg <=? size) then
    (0, set_errno tid EINVAL st)
  else
    let heap := get_thread_heap tid st in
    heap_allocate_block tid heap size 0 st.

Definition rpfree (tid ptr : Z) (st : state) : state :=
  if ptr =? 0 then st else block_deallocate tid ptr st.

(** [__builtin_umull_overflow(num, size, &total)]. *)
Definition umull_overflow (num size : Z) : bool * Z :=
  (2 ^ 64 <=? num * size, u64 (num * size)).

Definition rpcalloc (cfg : build) (tid num size : Z) (st : state) : Z * state :=
  let '(err, total) := umull_overflow num size in
  if ENABLE_VALIDATE_ARGS cfg && (err || (MAX_ALLOC_SIZE cfg <=? total)) then
    (0, set_errno tid EINVAL st)
  else
    let total := u64 (num * size) in
    let heap := get_thread_heap tid st in
    heap_allocate_block tid heap total 1 st.

Definition rprealloc (cfg : build) (tid ptr size : Z) (st : state) : Z * state :=
  if ENABLE_VALIDATE_ARGS cfg && (MAX_ALLOC_SIZE cfg <=? size) then
    (ptr, set_errno tid EINVAL st)
  else
    let heap := get_thread_heap tid st in
    heap_reallocate_block tid heap ptr size 0 0 st.

Definition rpaligned_realloc (cfg : build) (tid ptr alignment size oldsize flags : Z)
           (st : state) : Z * state :=
  if ENABLE_VALIDATE_ARGS cfg
     && ((u64 (size + alignment) <? size) || (_memory_page_size cfg <? alignment)) then
    (0, set_errno tid EINVAL st)
  else
    let heap := get_thread_heap tid st in
    heap_reallocate_block_aligned cfg tid heap ptr alignment size oldsize flags st.

Definition rpaligned_alloc (cfg : build) (tid alignment size : Z) (st : state) : Z * state :=
  let heap := get_thread_heap tid st in
  heap_allocate_block_aligned cfg tid heap alignment size 0 st.

Definition rpaligned_calloc (cfg : build) (tid alignment num size : Z) (st : state)
  : Z * state :=
  let '(err, total) := umull_overflow num size in
  if ENABLE_VALIDATE_ARGS cfg && (err || (MAX_ALLOC_SIZE cfg <=? total)) then
    (0, set_errno tid EINVAL st)
  else
    let total := u64 (num * size) in
    let heap := get_thread_heap tid st in
    heap_allocate_block_aligned cfg tid heap alignment total 1 st.

Definition rpmemalign (cfg : build) (tid alignment size : Z) (st : state) : Z * state :=
  let heap := get_thread_heap tid st in
  heap_allocate_block_aligned cfg tid heap alignment size 0 st.

(** Returns the [int] result; [*memptr] is the [user_ptr] object at
    address [memptr]. *)
Definition rpposix_memalign (cfg : build) (tid memptr alignment size : Z) (st : state)
  : Z * state :=
  let heap := get_thread_heap tid st in
  if negb (memptr =? 0) then
    let '(block, st) := heap_allocate_block_aligned cfg tid heap alignment size 0 st in
    let st := store memptr user_ptr block st in
    (if negb (load st memptr user_ptr =? 0) then 0 else ENOMEM, st)
  else (EINVAL, st).

Definition rpmalloc_usable_size (ptr : Z) (st : state) : Z :=
  if negb (ptr =? 0) then block_usable_size st ptr else 0.

Definition rpmalloc_thread_finalize (tid release_caches : Z) (st : state) : state :=
  let heap := get_thread_heap tid st in
  if negb (heap =? global_heap_default st) then
    let st := set_thread_heap tid (global_heap_default st) st in
    heap_release tid heap st
  else st.

(** * Specification vocabulary *)

(** Block size of a size class, and the rounded-up quotient [⌈n / g⌉]. *)
Definition class_block_size (c : Z) : Z := block_size (global_size_class c).
Definition class_block_count (c : Z) : Z := block_count (global_size_class c).
Definition ceil_div (n g : Z) : Z := (n + (g - 1)) / g.


(** [block] is an address inside the block area of [page]; the page lies
    in the 64-bit address space and its block size is a positive
    [uint32_t] no larger than the area. *)
Definition block_in_page (st : state) (page block : Z) : Prop :=
  0 <= page /\ page + 2 ^ 32 <= 2 ^ 64 /\
  0 < load st page page_block_size < 2 ^ 31 /\
  page + PAGE_HEADER_SIZE <= block < page + 2 ^ 32.

(** The hysteresis rule as the specification words it, in unbounded
    arithmetic. *)
Definition grow_size (size old_size : Z) : Z :=
  let bound := old_size + old_size / 4 + old_size / 8 in
  if bound <? size then size
  else if old_size <? size then bound else size.

(** The fields that link pages into the lists of a heap, and the page
    flags that follow these list moves. *)
Definition is_list_field (f : field) : bool :=
  match f with
  | page_next | page_prev | page_is_free | page_is_full | page_is_zero | page_is_decommitted
  | heap_page_available _ | heap_page_free _ | heap_page_free_thread _ => true
  | _ => false
  end.

(** [frame touched st st']: the store of [st'] agrees with that of [st]
    on every field outside [touched]. *)
Definition frame (touched : field -> bool) (st st' : state) : Prop :=
  forall a f, touched f = false -> load st' a f = load st a f.

(** The page of a class-backed block and the origin of the block, as
    [heap_reallocate_block] computes them. *)
Definition block_page (st : state) (block : Z) : Z :=
  span_get_page_from_block st (block_get_span block) block.

Definition block_origin (st : state) (block : Z) : Z :=
  let page := block_page st block in
  let blocks_start := pointer_offset page PAGE_HEADER_SIZE in
  let block_idx := u32 (pointer_diff block blocks_start) / load st page page_block_size in
  pointer_offset blocks_start (u64 (block_idx * load st page page_block_size)).

(** Whether a block lives in a class-backed page or is a huge block. *)
Definition block_is_class_backed (st : state) (block : Z) : bool :=
  load st (block_get_span block) span_page_type <=? PAGE_LARGE.

(** The old size [heap_reallocate_block] works with: the caller's value,
    or when that is 0 what the block can hold (class-backed), the
    recorded size of the span (huge), or 0 (no block). *)
Definition realloc_old_size (st : state) (block old_size : Z) : Z :=
  if block =? 0 then 0
  else if block_is_class_backed st block then
    if old_size =? 0
    then u64 (load st (block_page st block) page_block_size
              - pointer_diff block (block_origin st block))
    else old_size
  else
    if old_size =? 0 then load st (block_get_span block) span_page_size else old_size.

(** The in-place test of [heap_reallocate_block]. *)
Definition realloc_fits_in_place (st : state) (block size : Z) : bool :=
  if block =? 0 then false
  else if block_is_class_backed st block
       then size <=? load st (block_page st block) page_block_size
       else size <? load st (block_get_span block) span_mapped_size.

(** What [heap_reallocate_block] does once it has to move the block:
    allocate [new_size] bytes, copy and release the old block. *)
Definition realloc_move (tid heap block new_size old_size flags : Z) (st : state)
  : Z * state :=
  let '(new_block, st) := heap_allocate_block tid heap new_size 0 st in
  if (new_block =? 0) || (block =? 0) then (new_block, st)
  else
    let st :=
      if Z.land flags RPMALLOC_NO_PRESERVE =? 0
      then emit (ev_memcpy new_block block
                           (if old_size <? new_size then old_size else new_size)) st
      else st in
    (new_block, block_deallocate tid block st).

(** ** Example runs *)

(** A fresh process with 4 KiB pages and two threads; the static fallback
    heap sits at [0x600000] and the kernel will hand out four mappings.
    The states below are reached by running the entry points. *)
Definition thread_A : Z := 0x7fa000.
Definition thread_B : Z := 0x7fb000.

Definition fresh_process : state :=
  initial_state 0x600000 4096
                [0x7f0000001000; 0x7f1000002000; 0x7f4000003000; 0x7f8000004000].

(** Thread A allocates 48 bytes twice. *)
Definition after_alloc_1 : Z * state := rpmalloc default_build thread_A 48 fresh_process.
Definition after_alloc_2 : Z * state :=
  rpmalloc default_build thread_A 48 (snd after_alloc_1).


(** The pointer [page_deallocate_block] hands to the free lists. *)
Definition dealloc_target (st : state) (page block : Z) : Z :=
  if negb (load st page page_has_aligned_block =? 0)
  then page_block_realign st page block else block.

(** Count and head block of the thread-free list of a page. *)
Definition thread_free_count (st : state) (page : Z) : Z :=
  fst (page_block_from_thread_free_list st page (load st page page_thread_free)).
Definition thread_free_head (st : state) (page : Z) : Z :=
  snd (page_block_from_thread_free_list st page (load st page page_thread_free)).

(** Thread A fills a large page with seven 8 MiB blocks; thread B then
    frees the first six of them. *)
Fixpoint alloc_blocks (n : nat) (tid size : Z) (st : state) : list Z * state :=
  match n with
  | O => ([], st)
  | S n =>
      let '(p, st) := rpmalloc default_build tid size st in
      let '(ps, st) := alloc_blocks n tid size st in
      (p :: ps, st)
  end.

Definition after_filling_page : list Z * state :=
  alloc_blocks 7 thread_A (8 * 1024 * 1024) fresh_process.


(** ** Page accounting *)

(** A free list threaded through the blocks: [head] is null for the
    empty list, else the first block, whose [next] heads the rest. *)
Fixpoint free_chain (st : state) (head : Z) (l : list Z) : Prop :=
  match l with
  | [] => head = 0
  | b :: l' => head = b /\ b <> 0 /\ free_chain st (load st b block_next) l'
  end.

(** The accounting of a page whose local free list holds the blocks [l]
    and whose thread-free list holds the blocks [lt].  The blocks on the
    thread-free list are still counted in [block_used]: they leave it
    when the list is adopted. *)
Definition page_accounting (st : state) (page : Z) (l lt : list Z) : Prop :=
  load st page page_block_used + load st page page_local_free_count
  + (load st page page_block_count - load st page page_block_initialized)
  = load st page page_block_count /\
  0 <= load st page page_block_used /\
  load st page page_block_initialized <= load st page page_block_count /\
  load st page page_block_count < 2 ^ 32 /\
  load st page page_local_free_count = Z.of_nat (length l) /\
  free_chain st (load st page page_local_free) l /\
  thread_free_count st page = Z.of_nat (length lt) /\
  free_chain st (thread_free_head st page) lt /\
  thread_free_count st page <= load st page page_block_used.

(** The equation as the specification words it, with the thread-free
    count as a term of its own. *)
Definition spec_accounting_equation (st : state) (page : Z) : Prop :=
  load st page page_block_used + load st page page_local_free_count
  + thread_free_count st page
  + (load st page page_block_count - load st page page_block_initialized)
  = load st page page_block_count.

(** The block area of the page lies inside the address space and inside
    the largest page size, with blocks no larger than the largest class. *)
Definition page_geometry (st : state) (page : Z) : Prop :=
  0 <= page /\ page + 2 ^ 27 <= 2 ^ 64 /\
  0 < load st page page_block_size <= LARGE_BLOCK_SIZE_LIMIT /\
  0 <= load st page page_block_count /\
  PAGE_HEADER_SIZE + load st page page_block_size * load st page page_block_count
  <= LARGE_PAGE_SIZE.

(** [n] consecutive blocks of size [bs] from [first] on. *)
Fixpoint block_run (first bs : Z) (n : nat) : list Z :=
  match n with
  | O => []
  | S n => first :: block_run (first + bs) bs n
  end.

(** ** Placement of spans, pages and blocks *)

Definition page_shift_of (page_type : Z) : Z :=
  if page_type =? PAGE_SMALL then SMALL_PAGE_SIZE_SHIFT
  else if page_type =? PAGE_MEDIUM then MEDIUM_PAGE_SIZE_SHIFT
  else LARGE_PAGE_SIZE_SHIFT.

Definition page_size_of (page_type : Z) : Z := 2 ^ page_shift_of page_type.

(** A span header of the given page type at a 256 MiB boundary. *)
Definition span_placed (st : state) (page_type span : Z) : Prop :=
  0 <= page_type <= PAGE_LARGE /\
  0 < span /\ span + SPAN_SIZE <= 2 ^ 64 /\ span mod SPAN_SIZE = 0 /\
  load st span span_page_type = page_type /\
  load st span span_page_size_shift = page_shift_of page_type.

(** A page at a page boundary of such a span. *)
Definition page_placed (st : state) (page_type page : Z) : Prop :=
  exists span j,
    span_placed st page_type span /\ 0 <= j /\
    page = span + j * page_size_of page_type /\
    (j + 1) * page_size_of page_type <= SPAN_SIZE.

(** A span that still has pages to hand out. *)
Definition span_ready (st : state) (page_type span : Z) : Prop :=
  span_placed st page_type span /\
  load st span span_page_size = page_size_of page_type /\
  load st span span_page_count = SPAN_SIZE / page_size_of page_type /\
  0 <= load st span span_page_initialized < load st span span_page_count.

(** [block] is the origin of one of the blocks of [page]. *)
Definition block_origin_of (st : state) (page block : Z) : Prop :=
  exists k, 0 <= k < load st page page_block_count /\
       block = page + PAGE_HEADER_SIZE + k * load st page page_block_size.





(** The fields that locate a block: they are written when a span is
    mapped and when a page is set up for a class, never by the block
    operations. *)
Definition is_layout_field (f : field) : bool :=
  match f with
  | span_page_type | span_page_size_shift | span_mapped_size | span_page_size
  | span_page_count | span_page_initialized
  | page_block_size | page_block_count => true
  | _ => false
  end.

Definition is_span_field (f : field) : bool :=
  match f with
  | span_page_type | span_page_size_shift | span_mapped_size | span_page_size
  | span_page_count | span_page_initialized | span_offset | span_next | span_prev => true
  | _ => false
  end.

(** The fields the block and page list operations may write. *)
Definition block_ops_touch (f : field) : bool := negb (is_layout_field f).

(** The first step of [page_allocate_block]: the block, the zero flag
    and the state after trying the three sources in order. *)
Definition page_take_block (page : Z) (st : state) : Z * Z * state :=
  let '(block, st) := page_get_local_free_block page st in
  if block =? 0 then
    let '(block, st) := page_get_thread_free_block page st in
    if block =? 0 then
      let '(block, st) := page_initialize_blocks page st in
      (block, load st page page_is_zero, st)
    else (block, 0, st)
  else (block, 0, st).

(** The two span fields that place a page; everything else may change
    without moving a block to another page. *)
Definition is_place_field (f : field) : bool :=
  match f with
  | span_page_type | span_page_size_shift => true
  | _ => false
  end.
Definition place_keep (f : field) : bool := negb (is_place_field f).

(** The address [os_mmap] returns for a raw mapping at [ptr]. *)
Definition mmap_aligned (ptr alignment : Z) : Z :=
  let padding := Z.land ptr (u64 (alignment - 1)) in
  pointer_offset ptr (if padding =? 0 then padding else u64 (alignment - padding)).

(** A process whose kernel hands out two mappings only, after the first
    allocation of thread A: the heap and the first span are mapped, and
    the fast list of class 2 holds the rest of the first OS page. *)
Definition after_first_alloc : Z * state :=
  rpmalloc default_build thread_A 48
           (initial_state 0x600000 4096 [0x7f0000001000; 0x7f1000002000]).

(** ** Vocabulary of the further properties *)

(** A page set up for class [c]: it lies at a page boundary of a span of
    the page type of the class and carries the block size and count of
    the class.  Nothing is said about how many of its blocks are in
    use. *)
Definition page_laid_out (st : state) (c page : Z) : Prop :=
  page_placed st (get_page_type c) page /\
  load st page page_block_size = class_block_size c /\
  load st page page_block_count = class_block_count c.

(** The fields the block operations of a page write while the page stays
    in its list: the links in the blocks, the counters and free list
    heads of the page and the fast lists of the heap. *)
Definition is_block_field (f : field) : bool :=
  match f with
  | block_next | page_local_free | page_local_free_count | page_block_used
  | page_block_initialized | page_thread_free | heap_local_free _ => true
  | _ => false
  end.

(** What [heap_make_free_page_available] leaves in a page that it puts
    in front of an empty available list. *)
Definition page_reset_for (st st' : state) (heap c page : Z) : Prop :=
  load st' heap (heap_page_available c) = page /\
  load st' page page_size_class = c /\
  load st' page page_block_size = class_block_size c /\
  load st' page page_block_count = class_block_count c /\
  load st' page page_block_used = 0 /\
  load st' page page_block_initialized = 0 /\
  load st' page page_local_free = 0 /\
  load st' page page_local_free_count = 0 /\
  load st' page page_thread_free = 0 /\
  load st' page page_is_full = 0 /\
  load st' page page_is_free = 0 /\
  load st' page page_has_aligned_block = 0 /\
  load st' page page_is_decommitted = 0 /\
  load st' page page_owner_thread = load st heap heap_owner_thread /\
  load st' page page_next = 0 /\
  load st' page page_prev = 0 /\
  mmap_results st' = mmap_results st /\
  (load st page page_is_decommitted = 0 ->
   trace st' = trace st /\ load st' page page_is_zero = load st page page_is_zero) /\
  (load st page page_is_decommitted <> 0 ->
   load st' page page_is_zero = 1 /\
   trace st' = trace st ++ [ev_mcommit (pointer_offset page (os_page_size st))
                                       (u64 (page_get_size st page - os_page_size st));
                            ev_memset (pointer_offset page PAGE_HEADER_SIZE)
                                      (u64 (os_page_size st - PAGE_HEADER_SIZE))]).

(** Thread A allocates two 8 MiB blocks and frees the first: the block
    is on the local free list of its page. *)
Definition after_large_allocs : list Z * state :=
  alloc_blocks 2 thread_A (8 * 1024 * 1024) fresh_process.

Definition after_large_free : state :=
  rpfree thread_A (hd 0 (fst after_large_allocs)) (snd after_large_allocs).

(** Thread A allocates one 8 MiB block and frees it: its page is on the
    free list of the heap. *)
Definition after_page_freed : state :=
  rpfree thread_A (fst (rpmalloc default_build thread_A (8 * 1024 * 1024) fresh_process))
         (snd (rpmalloc default_build thread_A (8 * 1024 * 1024) fresh_process)).

(** * Machine integer facts *)

Lemma u32_small x : 0 <= x < 2 ^ 32 -> u32 x = x.
Proof. intros; unfold u32; apply Z.mod_small; lia. Qed.

Lemma u64_small x : 0 <= x < 2 ^ 64 -> u64 x = x.
Proof. intros; unfold u64; apply Z.mod_small; lia. Qed.

Lemma u32_range x : 0 <= u32 x < 2 ^ 32.
Proof. unfold u32; apply Z.mod_pos_bound; lia. Qed.

Lemma u64_range x : 0 <= u64 x < 2 ^ 64.
Proof. unfold u64; apply Z.mod_pos_bound; lia. Qed.

(** * Size classes *)

Lemma class_block_size_step :
  forall k, (k < 72)%nat ->
       class_block_size (Z.of_nat k) <= class_block_size (Z.of_nat k + 1).
Proof.
  assert (H : forallb (fun k => class_block_size (Z.of_nat k) <=? class_block_size (Z.of_nat k + 1))
                      (seq 0 72) = true) by (vm_compute; reflexivity).
  rewrite forallb_forall in H. intros k Hk.
  apply Z.leb_le, H, in_seq. lia.
Qed.

Lemma class_block_size_mono c c' :
  0 <= c <= c' -> c' < SIZE_CLASS_COUNT -> class_block_size c <= class_block_size c'.
Proof.
  intros [H0 Hle] Hc'. change SIZE_CLASS_COUNT with 73 in Hc'.
  replace c' with (c + Z.of_nat (Z.to_nat (c' - c))) in * by lia.
  induction (Z.to_nat (c' - c)) as [|d IH].
  - rewrite Z.add_0_r. lia.
  - etransitivity; [apply IH; lia|].
    replace (c + Z.of_nat (S d)) with (Z.of_nat (Z.to_nat c + d) + 1) by lia.
    replace (c + Z.of_nat d) with (Z.of_nat (Z.to_nat c + d)) by lia.
    apply class_block_size_step. lia.
Qed.

(** Above the linear range the table holds four sizes per power of two. *)
Lemma class_block_size_geometric b s :
  4 <= b <= 17 -> 0 <= s <= 3 ->
  class_block_size (4 * b + s + 1) = 32 * (5 + s) * 2 ^ (b - 2) /\
  class_block_size (4 * b + s) = 32 * (4 + s) * 2 ^ (b - 2).
Proof.
  intros Hb Hs.
  assert (Hb' : b = 4 \/ b = 5 \/ b = 6 \/ b = 7 \/ b = 8 \/ b = 9 \/ b = 10 \/ b = 11 \/
                b = 12 \/ b = 13 \/ b = 14 \/ b = 15 \/ b = 16 \/ b = 17) by lia.
  assert (Hs' : s = 0 \/ s = 1 \/ s = 2 \/ s = 3) by lia.
  repeat (destruct Hb' as [-> | Hb']); try subst b;
    repeat (destruct Hs' as [-> | Hs']); try subst s; vm_compute; auto.
Qed.

Lemma class_block_size_linear c :
  1 <= c <= 16 -> class_block_size c = 32 * c.
Proof.
  intros Hc.
  assert (Hc' : c = 1 \/ c = 2 \/ c = 3 \/ c = 4 \/ c = 5 \/ c = 6 \/ c = 7 \/ c = 8 \/ c = 9
                \/ c = 10 \/ c = 11 \/ c = 12 \/ c = 13 \/ c = 14 \/ c = 15 \/ c = 16) by lia.
  repeat (destruct Hc' as [-> | Hc']); try subst c; reflexivity.
Qed.

(** The top three bits of a block count: position [b] of the most
    significant bit and the two bits below it. *)
Lemma most_significant_bits x :
  16 <= x < 2 ^ 64 ->
  let b := Z.log2 x in
  let q := x / 2 ^ (b - 2) in
  4 <= b <= 63 /\ 4 <= q <= 7 /\ Z.land (Z.shiftr x (b - 2)) 3 = q - 4 /\
  q * 2 ^ (b - 2) <= x < (q + 1) * 2 ^ (b - 2).
Proof.
  intros Hx b q.
  assert (Hb4 : 4 <= b) by (change 4 with (Z.log2 16); apply Z.log2_le_mono; lia).
  assert (Hb63 : b < 64) by (apply Z.log2_lt_pow2; lia).
  destruct (Z.log2_spec x) as [Hlo Hhi]; [lia|]. fold b in Hlo, Hhi.
  assert (HP : 0 < 2 ^ (b - 2)) by (apply Z.pow_pos_nonneg; lia).
  assert (E1 : 2 ^ b = 4 * 2 ^ (b - 2)).
  { replace b with (2 + (b - 2)) at 1 by lia. rewrite Z.pow_add_r by lia. reflexivity. }
  assert (E2 : 2 ^ Z.succ b = 8 * 2 ^ (b - 2)).
  { replace (Z.succ b) with (3 + (b - 2)) by lia. rewrite Z.pow_add_r by lia. reflexivity. }
  assert (Hq : 4 <= q <= 7).
  { split.
    - apply Z.div_le_lower_bound; lia.
    - enough (q < 8) by lia. apply Z.div_lt_upper_bound; lia. }
  assert (Hdm := Z.div_mod x (2 ^ (b - 2)) ltac:(lia)). fold q in Hdm.
  assert (Hmb := Z.mod_pos_bound x (2 ^ (b - 2)) HP).
  split; [lia|]. split; [lia|]. split.
  - rewrite Z.shiftr_div_pow2 by lia. fold q.
    change 3 with (Z.ones 2). rewrite Z.land_ones by lia.
    change (2 ^ 2) with 4. symmetry. apply Z.mod_unique with 1; lia.
  - nia.
Qed.

Lemma get_size_class_linear n :
  0 <= n <= 16 * SMALL_GRANULARITY ->
  get_size_class n = Z.max (ceil_div n SMALL_GRANULARITY) 1 /\
  get_size_class_tiny n = ceil_div n SMALL_GRANULARITY /\
  0 <= ceil_div n SMALL_GRANULARITY <= 16 /\
  32 * (ceil_div n SMALL_GRANULARITY - 1) < n <= 32 * ceil_div n SMALL_GRANULARITY.
Proof.
  change (16 * SMALL_GRANULARITY) with 512. intros Hn.
  unfold get_size_class, get_size_class_tiny, ceil_div.
  change (SMALL_GRANULARITY * 16) with 512. change (SMALL_GRANULARITY - 1) with 31.
  change SMALL_GRANULARITY with 32.
  destruct (Z.leb_spec n 512); [|lia].
  rewrite (u32_small n), (u32_small (n + 31)), (u64_small (n + 31)) by lia.
  assert (Hdm := Z.div_mod (n + 31) 32 ltac:(lia)).
  assert (Hmb := Z.mod_pos_bound (n + 31) 32 ltac:(lia)).
  set (m := (n + 31) / 32) in *.
  destruct (Z.eqb_spec m 0) as [E|E].
  - rewrite E in *. repeat split; lia.
  - rewrite u32_small by lia. rewrite Z.max_l by lia. repeat split; lia.
Qed.

Lemma get_size_class_geometric n :
  16 * SMALL_GRANULARITY < n < 2 ^ 64 ->
  exists x b s,
    get_size_class n = 4 * b + s + 1 /\ 4 <= b <= 63 /\ 0 <= s <= 3 /\
    (4 + s) * 2 ^ (b - 2) <= x < (5 + s) * 2 ^ (b - 2) /\
    (x < 2 ^ 59 -> 32 * x < n <= 32 * (x + 1)) /\ (2 ^ 59 <= x -> 2 ^ 59 <= n).
Proof.
  change (16 * SMALL_GRANULARITY) with 512. intros Hn.
  unfold get_size_class.
  change (SMALL_GRANULARITY * 16) with 512. change (SMALL_GRANULARITY - 1) with 31.
  change SMALL_GRANULARITY with 32.
  destruct (Z.leb_spec n 512); [lia|].
  assert (Hx : exists x, u64 (u64 (n + 31) / 32 - 1) = x /\ 16 <= x < 2 ^ 64 /\
               (x < 2 ^ 59 -> 32 * x < n <= 32 * (x + 1)) /\ (2 ^ 59 <= x -> 2 ^ 59 <= n)).
  { destruct (Z.lt_ge_cases (n + 31) (2 ^ 64)) as [Hlt|Hge].
    - rewrite (u64_small (n + 31)) by lia.
      assert (Hdm := Z.div_mod (n + 31) 32 ltac:(lia)).
      assert (Hmb := Z.mod_pos_bound (n + 31) 32 ltac:(lia)).
      exists ((n + 31) / 32 - 1). rewrite u64_small by lia. repeat split; lia.
    - exists (2 ^ 64 - 1).
      assert (E : u64 (n + 31) / 32 = 0).
      { apply Z.div_small. unfold u64.
        replace (n + 31) with ((n + 31 - 2 ^ 64) + 1 * 2 ^ 64) by lia.
        rewrite Z.mod_add by lia. rewrite Z.mod_small; lia. }
      rewrite E. repeat split; try reflexivity; try lia. }
  destruct Hx as (x & -> & Hx & Hn1 & Hn2).
  destruct (most_significant_bits x Hx) as (Hb & Hq & Hland & Hrange).
  set (b := Z.log2 x) in *. set (q := x / 2 ^ (b - 2)) in *.
  exists x, b, (q - 4).
  unfold rpmalloc_clz. destruct (Z.eqb_spec x 0); [lia|]. fold b.
  replace (63 - (63 - b)) with b by lia.
  rewrite (u32_small b) by lia. rewrite (u32_small (b - 2)) by lia.
  rewrite Hland. rewrite Z.shiftl_mul_pow2 by lia. change (2 ^ 2) with 4.
  rewrite (u32_small (q - 4)), (u32_small (b * 4)) by lia.
  rewrite (u32_small (b * 4 + (q - 4))) by lia. rewrite u32_small by lia.
  repeat split; try lia.
Qed.

(** C1 (as amended).  For every request size [n], [get_size_class n] is a
    class index of at least 1.  When it is below 73, its block size holds
    [n] and every class from 1 up to it is too small; when it is 73 or
    more (a huge request), no class of the table holds [n].  For
    [n <= 16 * 32] it equals [max (⌈n/32⌉, 1)], also at [n = 0]; the tiny
    dispatch path returns [⌈n/32⌉], the same class for [n >= 1] and
    class 0, whose block size is that of class 1, for [n = 0]. *)
Theorem get_size_class_smallest_fitting (n : Z) :
  0 <= n < 2 ^ 64 ->
  let c := get_size_class n in
  1 <= c /\
  (c < SIZE_CLASS_COUNT ->
   n <= class_block_size c /\ forall c', 1 <= c' < c -> class_block_size c' < n) /\
  (SIZE_CLASS_COUNT <= c ->
   forall c', 0 <= c' < SIZE_CLASS_COUNT -> class_block_size c' < n) /\
  (n <= 16 * SMALL_GRANULARITY ->
   c = Z.max (ceil_div n SMALL_GRANULARITY) 1 /\
   get_size_class_tiny n = ceil_div n SMALL_GRANULARITY /\
   (1 <= n -> get_size_class_tiny n = c) /\
   (n = 0 -> get_size_class_tiny n = 0 /\ class_block_size 0 = class_block_size c)).
Proof.
  intros Hn c. change SIZE_CLASS_COUNT with 73.
  destruct (Z.le_gt_cases n (16 * SMALL_GRANULARITY)) as [Hlin|Hgeo].
  - destruct (get_size_class_linear n) as (Hc & Ht & Hm & Hb); [lia|].
    fold c in Hc. set (m := ceil_div n SMALL_GRANULARITY) in *.
    assert (Hc16 : 1 <= c <= 16) by lia.
    split; [lia|]. split; [|split; [lia|]].
    + intros _. split.
      * rewrite class_block_size_linear by lia. lia.
      * intros c' Hc'. rewrite class_block_size_linear by lia. lia.
    + intros _. split; [exact Hc|]. split; [exact Ht|]. split.
      * intros H1. lia.
      * intros ->. subst c. split; reflexivity.
  - destruct (get_size_class_geometric n) as (x & b & s & Hc & Hb & Hs & Hx & Hn1 & Hn2); [lia|].
    fold c in Hc. change (16 * SMALL_GRANULARITY) with 512 in *.
    assert (HP : 0 < 2 ^ (b - 2)) by (apply Z.pow_pos_nonneg; lia).
    split; [lia|]. split; [|split; [|lia]].
    + intros Hlt. assert (Hb17 : b <= 17) by lia.
      destruct (class_block_size_geometric b s) as [E1 E2]; [lia|lia|].
      assert (Hpow : 2 ^ (b - 2) <= 2 ^ 15) by (apply Z.pow_le_mono_r; lia).
      assert (Hx59 : x < 2 ^ 59) by nia.
      specialize (Hn1 Hx59). split.
      * rewrite Hc, E1. nia.
      * intros c' Hc'.
        apply Z.le_lt_trans with (class_block_size (4 * b + s)).
        -- apply class_block_size_mono; change SIZE_CLASS_COUNT with 73; lia.
        -- rewrite E2. nia.
    + intros Hge c' Hc'. assert (Hb18 : 18 <= b) by lia.
      apply Z.le_lt_trans with (class_block_size 72).
      * apply class_block_size_mono; change SIZE_CLASS_COUNT with 73; lia.
      * change (class_block_size 72) with (2 ^ 23).
        assert (Hpow : 2 ^ 16 <= 2 ^ (b - 2)) by (apply Z.pow_le_mono_r; lia).
        destruct (Z.lt_ge_cases x (2 ^ 59)) as [Hx59|Hx59].
        -- specialize (Hn1 Hx59). nia.
        -- specialize (Hn2 Hx59). lia.
Qed.

Lemma get_size_class_smallest_fitting_witness :
  0 <= 1000 < 2 ^ 64 /\ get_size_class 1000 = 20 /\
  1000 <= class_block_size 20 /\
  forall c', 1 <= c' < 20 -> class_block_size c' < 1000.
Proof.
  split; [lia|]. split; [reflexivity|].
  destruct (get_size_class_smallest_fitting 1000 ltac:(lia)) as (_ & H & _).
  apply H. vm_compute. reflexivity.
Defined.

(** C1 as stated fails twice at the bottom of the table: on the tiny
    dispatch path size 0 maps to class 0 and not to [max (⌈0/32⌉, 1)],
    and the class returned for 32 bytes (class 1) is not the smallest
    class that holds 32 bytes, since class 0 has the same block size. *)
Lemma get_size_class_counterexample :
  get_size_class_tiny 0 <> Z.max (ceil_div 0 SMALL_GRANULARITY) 1 /\
  ~ (forall c', 0 <= c' < get_size_class 32 -> class_block_size c' < 32).
Proof.
  split.
  - vm_compute. discriminate.
  - intros H. change (get_size_class 32) with 1 in H.
    assert (H' : class_block_size 0 < 32) by (apply H; lia).
    vm_compute in H'. discriminate H'.
Qed.

(** * The store *)

Lemma field_eqb_refl f : field_eqb f f = true.
Proof. unfold field_eqb. rewrite !Z.eqb_refl. reflexivity. Qed.

Lemma load_store ptr f v st a g :
  load (store ptr f v st) a g = if field_eqb g f && (a =? ptr) then v else load st a g.
Proof. reflexivity. Qed.

Lemma load_store_same ptr f v st : load (store ptr f v st) ptr f = v.
Proof. rewrite load_store, field_eqb_refl, Z.eqb_refl. reflexivity. Qed.

Lemma load_store_field ptr f v st a g :
  field_eqb g f = false -> load (store ptr f v st) a g = load st a g.
Proof. intros H. rewrite load_store, H. reflexivity. Qed.

Lemma load_store_addr ptr f v st a g :
  a <> ptr -> load (store ptr f v st) a g = load st a g.
Proof.
  intros H. rewrite load_store. destruct (Z.eqb_spec a ptr); [contradiction|].
  rewrite andb_false_r. reflexivity.
Qed.

Lemma load_emit e st a g : load (emit e st) a g = load st a g.
Proof. reflexivity. Qed.

Lemma heap_field_not_block_next f : is_heap_field f = true -> field_eqb f block_next = false.
Proof. destruct f; cbn; intros H; try discriminate H; reflexivity. Qed.

Lemma heap_field_not_page_thread_free f :
  is_heap_field f = true -> field_eqb f page_thread_free = false.
Proof. destruct f; cbn; intros H; try discriminate H; reflexivity. Qed.

(** Rewrites a load through stores to other fields and to the same cell. *)
Ltac ld :=
  repeat first
    [ rewrite load_store_same
    | rewrite load_store_field by reflexivity
    | rewrite load_emit ].

(** * The thread-free word *)

Lemma thread_free_token_index page i c :
  0 <= i < 2 ^ 32 -> 0 <= c < 2 ^ 32 ->
  u32 (Z.land (page_block_to_thread_free_list page i c) 0xFFFFFFFF) = i.
Proof.
  intros Hi Hc. unfold page_block_to_thread_free_list.
  change 0xFFFFFFFF with (Z.ones 32).
  rewrite Z.land_ones by lia.
  rewrite u64_small by (rewrite Z.shiftl_mul_pow2 by lia; lia).
  rewrite Z.shiftl_mul_pow2 by lia.
  rewrite <- Z.land_ones by lia. rewrite Z.land_lor_distr_l.
  rewrite !Z.land_ones by lia. rewrite Z.mod_mul by lia.
  rewrite Z.lor_0_l. rewrite Z.mod_small by lia. apply u32_small; lia.
Qed.

Lemma thread_free_token_count page i c :
  0 <= i < 2 ^ 32 -> 0 <= c < 2 ^ 32 ->
  u32 (Z.land (Z.shiftr (page_block_to_thread_free_list page i c) 32) 0xFFFFFFFF) = c.
Proof.
  intros Hi Hc. unfold page_block_to_thread_free_list.
  change 0xFFFFFFFF with (Z.ones 32).
  rewrite u64_small by (rewrite Z.shiftl_mul_pow2 by lia; lia).
  rewrite Z.shiftr_lor. rewrite Z.shiftr_shiftl_l by lia.
  change (32 - 32) with 0. rewrite Z.shiftl_0_r.
  rewrite (Z.shiftr_div_pow2 i) by lia. rewrite (Z.div_small i) by lia.
  rewrite Z.lor_0_r. rewrite Z.land_ones by lia. rewrite Z.mod_small by lia.
  apply u32_small; lia.
Qed.

Lemma thread_free_decode_encode st page i c :
  0 <= i < 2 ^ 32 -> 0 <= c < 2 ^ 32 ->
  page_block_from_thread_free_list st page (page_block_to_thread_free_list page i c)
  = (c, if c =? 0 then 0 else page_block st page i).
Proof.
  intros Hi Hc. unfold page_block_from_thread_free_list.
  rewrite thread_free_token_index, thread_free_token_count by assumption.
  reflexivity.
Qed.

(** C10.  The thread-free word round-trips: decoding the word built from
    a block index [i] and a list count [c] gives back the count [c] and,
    for [c > 0], the head block [page_block page i]; for [c = 0] the head
    is null whatever the index field holds, and the all-zero word is the
    empty list. *)
Theorem thread_free_list_round_trip (st : state) (page i c : Z) :
  0 <= i < 2 ^ 32 -> 0 <= c < 2 ^ 32 ->
  let token := page_block_to_thread_free_list page i c in
  fst (page_block_from_thread_free_list st page token) = c /\
  (0 < c -> snd (page_block_from_thread_free_list st page token) = page_block st page i) /\
  (c = 0 -> snd (page_block_from_thread_free_list st page token) = 0) /\
  page_block_from_thread_free_list st page 0 = (0, 0).
Proof.
  intros Hi Hc token. subst token.
  rewrite thread_free_decode_encode by assumption. cbn [fst snd].
  split; [reflexivity|]. split; [|split].
  - intros H. destruct (Z.eqb_spec c 0); [lia|reflexivity].
  - intros ->. reflexivity.
  - reflexivity.
Qed.

Lemma thread_free_list_round_trip_witness :
  let st := initial_state 4096 4096 [] in
  let st := store 65536 page_block_size 64 st in
  fst (page_block_from_thread_free_list st 65536 (page_block_to_thread_free_list 65536 5 3)) = 3 /\
  snd (page_block_from_thread_free_list st 65536 (page_block_to_thread_free_list 65536 5 3))
  = 65536 + 128 + 5 * 64.
Proof.
  intros st st0.
  destruct (thread_free_list_round_trip st0 65536 5 3 ltac:(lia) ltac:(lia)) as (H1 & H2 & _).
  split; [exact H1|]. rewrite (H2 ltac:(lia)). reflexivity.
Defined.

(** * Reallocation *)

Lemma heap_reallocate_new_size_grow size old_size :
  0 <= old_size -> old_size + old_size / 4 + old_size / 8 < 2 ^ 64 ->
  heap_reallocate_new_size size old_size = grow_size size old_size.
Proof.
  intros H0 Hb. unfold heap_reallocate_new_size, grow_size.
  rewrite !Z.shiftr_div_pow2 by lia. change (2 ^ 2) with 4. change (2 ^ 3) with 8.
  assert (0 <= old_size / 4) by (apply Z.div_pos; lia).
  assert (0 <= old_size / 8) by (apply Z.div_pos; lia).
  rewrite u64_small by lia. reflexivity.
Qed.

(** [heap_reallocate_block] past its in-place test. *)
Lemma heap_reallocate_block_moves tid heap block size old_size flags st :
  realloc_fits_in_place st block size = false ->
  heap_reallocate_block tid heap block size old_size flags st =
  if negb (Z.land flags RPMALLOC_GROW_OR_FAIL =? 0) then (0, st)
  else
    let old := realloc_old_size st block old_size in
    realloc_move tid heap block (heap_reallocate_new_size size old) old flags st.
Proof.
  unfold realloc_fits_in_place, realloc_old_size, heap_reallocate_block, realloc_move,
    block_is_class_backed, block_page, block_origin.
  intros Hfit.
  destruct (block =? 0) eqn:Hb; cbn [negb].
  - destruct (negb (Z.land flags RPMALLOC_GROW_OR_FAIL =? 0)); [reflexivity|].
    cbv zeta. destruct (heap_allocate_block _ _ _ _ _) as [nb st1].
    rewrite orb_true_r, andb_false_r. reflexivity.
  - destruct (load st (block_get_span block) span_page_type <=? PAGE_LARGE) eqn:Hty.
    + cbv zeta. rewrite Hfit.
      destruct (negb (Z.land flags RPMALLOC_GROW_OR_FAIL =? 0)); [reflexivity|].
      destruct (heap_allocate_block _ _ _ _ _) as [nb st1].
      rewrite orb_false_r. destruct (nb =? 0); reflexivity.
    + cbv zeta. rewrite Hfit.
      destruct (negb (Z.land flags RPMALLOC_GROW_OR_FAIL =? 0)); [reflexivity|].
      destruct (heap_allocate_block _ _ _ _ _) as [nb st1].
      rewrite orb_false_r. destruct (nb =? 0); reflexivity.
Qed.

(** C6.  When a reallocation cannot be satisfied in place (for a
    class-backed block: the new size exceeds the page's block size) and
    GROW_OR_FAIL is not set, the block is moved and the size requested
    from [heap_allocate_block] is the new size itself when it exceeds
    [old + old/4 + old/8], that bound when the new size exceeds the old
    size only, and the new size otherwise. *)
Theorem heap_reallocate_block_grow_size (tid heap block size old_size flags : Z) (st : state) :
  realloc_fits_in_place st block size = false ->
  Z.land flags RPMALLOC_GROW_OR_FAIL = 0 ->
  let old := realloc_old_size st block old_size in
  let bound := old + old / 4 + old / 8 in
  0 <= old -> bound < 2 ^ 64 ->
  exists new_size,
    heap_reallocate_block tid heap block size old_size flags st
    = realloc_move tid heap block new_size old flags st /\
    (bound < size -> new_size = size) /\
    (old < size <= bound -> new_size = bound) /\
    (size <= old -> new_size = size).
Proof.
  intros Hfit Hflag old bound Hold Hbound.
  exists (grow_size size old). split.
  - rewrite heap_reallocate_block_moves by assumption.
    rewrite Hflag. cbn [Z.eqb negb]. cbv zeta. fold old.
    rewrite heap_reallocate_new_size_grow by assumption. reflexivity.
  - assert (0 <= old / 4) by (apply Z.div_pos; lia).
    assert (0 <= old / 8) by (apply Z.div_pos; lia).
    unfold grow_size. fold bound.
    destruct (Z.ltb_spec bound size); destruct (Z.ltb_spec old size);
      repeat split; intros; subst bound; lia.
Qed.

Lemma heap_reallocate_block_grow_size_witness :
  let p := fst after_alloc_1 in
  let st := snd after_alloc_2 in
  realloc_old_size st p 0 = 64 /\
  heap_reallocate_block thread_A (get_thread_heap thread_A st) p 70 0 0 st
  = realloc_move thread_A (get_thread_heap thread_A st) p 88 64 0 st.
Proof.
  intros p st.
  assert (Hold : realloc_old_size st p 0 = 64) by (vm_compute; reflexivity).
  split; [exact Hold|].
  destruct (heap_reallocate_block_grow_size thread_A (get_thread_heap thread_A st) p 70 0 0 st)
    as (new_size & Heq & _ & Hmid & _).
  - vm_compute; reflexivity.
  - reflexivity.
  - rewrite Hold. lia.
  - rewrite Hold. vm_compute; reflexivity.
  - rewrite Hold in Heq, Hmid. rewrite Heq, Hmid; [reflexivity|]. 
    change (64 + 64 / 4 + 64 / 8) with 88. lia.
Defined.

(** * Entry points *)

(** C7 (as amended).  [rpposix_memalign] returns only 0, EINVAL or ENOMEM.
    A null out parameter yields EINVAL.  With a non-null out parameter it
    returns 0 and stores the block whenever the aligned allocation gives
    one.  In the default build (argument validation compiled out) an
    alignment below 256 KiB is never rejected, power of two or not: the
    result is 0, or ENOMEM when the allocation returns null. *)
Theorem rpposix_memalign_result (cfg : build) (tid memptr alignment size : Z) (st : state) :
  let r := rpposix_memalign cfg tid memptr alignment size st in
  let heap := get_thread_heap tid st in
  let a := heap_allocate_block_aligned cfg tid heap alignment size 0 st in
  (fst r = 0 \/ fst r = EINVAL \/ fst r = ENOMEM) /\
  (memptr = 0 -> r = (EINVAL, st)) /\
  (memptr <> 0 -> fst a <> 0 -> fst r = 0 /\ load (snd r) memptr user_ptr = fst a) /\
  (memptr <> 0 -> ENABLE_VALIDATE_ARGS cfg = false -> alignment < MAX_ALIGNMENT ->
   (fst a = 0 -> fst r = ENOMEM) /\
   (fst (heap_allocate_block tid heap
           (if alignment <=? SMALL_GRANULARITY then size else u64 (size + alignment)) 0 st) = 0
    -> fst r = ENOMEM)).
Proof.
  intros r heap a.
  assert (Hnull : memptr <> 0 -> fst a = 0 -> fst r = ENOMEM).
  { intros E Ha. subst r. unfold rpposix_memalign.
    destruct (Z.eqb_spec memptr 0) as [E'|_]; [contradiction|]. cbn [negb].
    fold heap. fold a. destruct a as [block st1]. cbn [fst] in Ha. subst block.
    rewrite load_store_same. reflexivity. }
  assert (Hsome : memptr <> 0 -> fst a <> 0 ->
                  fst r = 0 /\ load (snd r) memptr user_ptr = fst a).
  { intros E Ha. subst r. unfold rpposix_memalign.
    destruct (Z.eqb_spec memptr 0) as [E'|_]; [contradiction|]. cbn [negb].
    fold heap. fold a. destruct a as [block st1]. cbn [fst] in Ha.
    rewrite load_store_same. cbn [fst snd]. rewrite load_store_same.
    destruct (Z.eqb_spec block 0); [contradiction|]. split; reflexivity. }
  split; [|split; [|split; [exact Hsome|]]].
  - destruct (Z.eq_dec memptr 0) as [E|E].
    + right; left. subst r. unfold rpposix_memalign. rewrite E. reflexivity.
    + destruct (Z.eq_dec (fst a) 0) as [Ea|Ea].
      * right; right. auto.
      * left. apply Hsome; assumption.
  - intros ->. reflexivity.
  - intros E Hcfg Hal. split; [auto|]. intros Hoom. apply Hnull; [assumption|].
    subst a. unfold heap_allocate_block_aligned. rewrite Hcfg. cbn [andb].
    destruct (alignment <=? SMALL_GRANULARITY); [exact Hoom|].
    destruct (Z.leb_spec MAX_ALIGNMENT alignment); [lia|].
    destruct (heap_allocate_block _ _ _ _ _) as [b0 st0]. cbn [fst] in Hoom. subst b0.
    rewrite Z.land_0_l. reflexivity.
Qed.

(** C7 as stated fails for both kinds of invalid alignment.  In the
    default build the alignment 48, which is no power of two, is accepted
    and the call returns 0; the alignment 256 KiB, which is too large,
    makes the allocation return null with errno EINVAL, and the call
    returns ENOMEM. *)
Lemma rpposix_memalign_counterexample :
  Z.land 48 (48 - 1) <> 0 /\
  fst (rpposix_memalign default_build thread_A 0x5000 48 64 fresh_process) <> EINVAL /\
  MAX_ALIGNMENT <= 262144 /\
  fst (rpposix_memalign default_build thread_A 0x5000 262144 64 fresh_process) <> EINVAL.
Proof.
  split; [vm_compute; discriminate|].
  split; [vm_compute; discriminate|].
  split; [vm_compute; discriminate|].
  vm_compute; discriminate.
Qed.

(** C8 (as amended).  When the product of the two arguments overflows
    [size_t], [rpcalloc] returns null with errno EINVAL in a build with
    ENABLE_VALIDATE_ARGS; in the default build, where the validation is
    compiled out, the product wraps around and a block of the wrapped
    size is allocated. *)
Theorem rpcalloc_overflow (cfg : build) (tid num size : Z) (st : state) :
  0 <= num < 2 ^ 64 -> 0 <= size < 2 ^ 64 -> 2 ^ 64 <= num * size ->
  (ENABLE_VALIDATE_ARGS cfg = true ->
   fst (rpcalloc cfg tid num size st) = 0 /\
   errno (snd (rpcalloc cfg tid num size st)) tid = EINVAL) /\
  (ENABLE_VALIDATE_ARGS cfg = false ->
   rpcalloc cfg tid num size st
   = heap_allocate_block tid (get_thread_heap tid st) (u64 (num * size)) 1 st).
Proof.
  intros Hn Hs Hov. unfold rpcalloc, umull_overflow.
  destruct (Z.leb_spec (2 ^ 64) (num * size)); [|lia].
  split; intros ->; cbn [andb orb].
  - cbn [fst snd set_errno errno]. rewrite Z.eqb_refl. split; reflexivity.
  - reflexivity.
Qed.

Lemma rpcalloc_overflow_witness :
  fst (rpcalloc (mk_build true (2 ^ 48) 4096) thread_A (2 ^ 63) 2 fresh_process) = 0 /\
  errno (snd (rpcalloc (mk_build true (2 ^ 48) 4096) thread_A (2 ^ 63) 2 fresh_process))
        thread_A = EINVAL.
Proof.
  apply (rpcalloc_overflow (mk_build true (2 ^ 48) 4096) thread_A (2 ^ 63) 2 fresh_process);
    [lia | lia | vm_compute; discriminate | reflexivity].
Defined.

(** C8 as stated fails in the default build: [rpcalloc (2^63, 2)], whose
    product wraps to 0, returns a block and leaves errno alone. *)
Lemma rpcalloc_counterexample :
  2 ^ 64 <= 2 ^ 63 * 2 /\
  fst (rpcalloc default_build thread_A (2 ^ 63) 2 fresh_process) <> 0 /\
  errno (snd (rpcalloc default_build thread_A (2 ^ 63) 2 fresh_process)) thread_A <> EINVAL.
Proof.
  split; [vm_compute; discriminate|].
  split; vm_compute; discriminate.
Qed.

(** * Frames of the page operations *)

Lemma frame_refl touched st : frame touched st st.
Proof. intros a f _. reflexivity. Qed.

Lemma frame_trans touched st1 st2 st3 :
  frame touched st1 st2 -> frame touched st2 st3 -> frame touched st1 st3.
Proof. intros H12 H23 a f Hf. rewrite H23, H12 by assumption. reflexivity. Qed.

Lemma field_eqb_eq f g : field_eqb f g = true -> f = g.
Proof.
  unfold field_eqb. intros H. apply andb_true_iff in H. destruct H as [H1 H2].
  apply Z.eqb_eq in H1, H2.
  destruct f; cbn in H1, H2; destruct g; cbn in H1, H2;
    try discriminate H1; try reflexivity; subst; reflexivity.
Qed.

Lemma frame_store touched ptr g v st :
  touched g = true -> frame touched st (store ptr g v st).
Proof.
  intros Hg a f Hf. apply load_store_field.
  destruct (field_eqb f g) eqn:E; [|reflexivity].
  apply field_eqb_eq in E. congruence.
Qed.

Lemma frame_emit touched e st : frame touched st (emit e st).
Proof. intros a f _. reflexivity. Qed.

(** Proves [frame touched st (f st)] for straight-line code: the lets are
    named one at a time, the stores are peeled from the outside. *)
Ltac frame_step :=
  match goal with
  | |- frame _ ?s ?s => apply frame_refl
  | |- frame ?P ?s0 (let x := ?e in @?b x) =>
      let H := fresh "Hfr" in
      assert (H : frame P s0 e);
      [ | let y := fresh "st" in
          generalize dependent e; intros y H; cbv beta ]
  | |- frame _ _ (store _ _ _ _) =>
      eapply frame_trans; [ | apply frame_store; reflexivity ]
  | |- frame _ _ (emit _ _) =>
      eapply frame_trans; [ | apply frame_emit ]
  | |- frame _ _ (if ?c then _ else _) => destruct c
  | H : frame ?P ?s0 ?s1 |- frame ?P ?s0 _ => exact H
  | |- frame _ _ _ => solve [apply frame_refl]
  end.
Ltac frame_tac := repeat frame_step.

Lemma page_decommit_memory_pages_frame page st :
  frame is_list_field st (page_decommit_memory_pages page st).
Proof.
  unfold page_decommit_memory_pages, memory_decommit, os_mdecommit. cbv zeta. frame_tac.
Qed.

Lemma page_available_to_free_frame page st :
  frame is_list_field st (page_available_to_free page st).
Proof.
  unfold page_available_to_free. cbv zeta.
  repeat match goal with
         | |- frame _ _ (page_decommit_memory_pages _ _) =>
             eapply frame_trans; [ | apply page_decommit_memory_pages_frame ]
         | _ => frame_step
         end.
Qed.

Lemma page_full_to_available_frame page st :
  frame is_list_field st (page_full_to_available page st).
Proof. unfold page_full_to_available. cbv zeta. frame_tac. Qed.

(** * Deallocation to a page *)

Lemma page_block_start_eq st page block :
  block_in_page st page block -> page_block_start page = page + PAGE_HEADER_SIZE.
Proof.
  intros (H0 & H1 & _ & _). unfold page_block_start, pointer_offset, PAGE_HEADER_SIZE.
  apply u64_small. lia.
Qed.

Lemma page_block_realign_origin st page block :
  block_in_page st page block ->
  let r := (block - page_block_start page) mod load st page page_block_size in
  page_block_realign st page block = block - r /\
  block_in_page st page (block - r) /\
  (block - r - page_block_start page) mod load st page page_block_size = 0.
Proof.
  intros Hin r. pose proof (page_block_start_eq _ _ _ Hin) as Hs.
  destruct Hin as (H0 & H1 & Hbs & Hb). unfold PAGE_HEADER_SIZE in *.
  assert (Hr : 0 <= r < load st page page_block_size) by (apply Z.mod_pos_bound; lia).
  assert (Hrle : r <= block - page_block_start page) by (apply Z.mod_le; lia).
  split; [|split].
  - unfold page_block_realign, pointer_diff. cbv zeta.
    rewrite (u32_small (block - page_block_start page)) by lia. fold r.
    unfold s32. rewrite (u32_small r) by lia.
    destruct (Z.ltb_spec r (2 ^ 31)); [|lia].
    unfold pointer_offset. apply u64_small. lia.
  - unfold block_in_page, PAGE_HEADER_SIZE. repeat split; lia.
  - subst r. replace (block - _ - page_block_start page)
      with ((block - page_block_start page)
            - (block - page_block_start page) mod load st page page_block_size) by lia.
    rewrite Zminus_mod, Z.mod_mod, Z.sub_diag by lia. apply Z.mod_0_l. lia.
Qed.

(** A block at a block origin is the block of its own index. *)
Lemma page_block_of_index st st' page block :
  block_in_page st page block ->
  (block - page_block_start page) mod load st page page_block_size = 0 ->
  load st' page page_block_size = load st page page_block_size ->
  page_block st' page (page_block_index st page block) = block /\
  0 <= page_block_index st page block < 2 ^ 32.
Proof.
  intros Hin Hmod Hbs'. pose proof (page_block_start_eq _ _ _ Hin) as Hs.
  destruct Hin as (H0 & H1 & Hbs & Hb). unfold PAGE_HEADER_SIZE in *.
  unfold page_block, page_block_index, pointer_diff. cbv zeta. rewrite Hbs'.
  rewrite (u32_small (block - page_block_start page)) by lia.
  set (bs := load st page page_block_size) in *.
  set (off := block - page_block_start page) in *.
  assert (Hk : bs * (off / bs) = off).
  { symmetry. apply Z.div_exact; [lia|assumption]. }
  assert (Hk0 : 0 <= off / bs) by (apply Z.div_pos; lia).
  assert (Hkle : off / bs <= off) by (apply Z.div_le_upper_bound; nia).
  split; [|lia].
  rewrite Hk. rewrite (u32_small off) by lia.
  change PAGE_HEADER_SIZE with 128. rewrite u32_small by lia.
  unfold pointer_offset. rewrite u64_small by lia. lia.
Qed.

Lemma page_put_local_free_block_loads page block st :
  let st' := page_put_local_free_block page block st in
  load st' page page_local_free = block /\
  load st' block block_next = load st page page_local_free /\
  load st' page page_block_used = u32 (load st page page_block_used - 1) /\
  load st' page page_local_free_count = u32 (load st page page_local_free_count + 1) /\
  load st' page page_thread_free = load st page page_thread_free.
Proof.
  intros st'. subst st'. unfold page_put_local_free_block. cbv zeta.
  match goal with
  | |- context [if ?c1 then page_available_to_free _ ?s
                else if ?c2 then page_full_to_available _ ?s else ?s] =>
      set (st1 := s);
      assert (Hfr : frame is_list_field st1
                      (if c1 then page_available_to_free page st1
                       else if c2 then page_full_to_available page st1 else st1))
  end.
  { destruct (_ =? 0); [apply page_available_to_free_frame|].
    destruct (negb _); [apply page_full_to_available_frame|apply frame_refl]. }
  rewrite !Hfr by reflexivity. subst st1. ld. repeat split; reflexivity.
Qed.

Lemma page_put_thread_free_block_loads page block st :
  let st' := page_put_thread_free_block page block st in
  load st' page page_thread_free
  = page_block_to_thread_free_list page (page_block_index st page block)
                                   (u32 (thread_free_count st page + 1)) /\
  load st' block block_next = thread_free_head st page /\
  (forall a f, is_list_field f = false -> field_eqb f block_next = false ->
          field_eqb f page_thread_free = false -> load st' a f = load st a f).
Proof.
  intros st'. subst st'. unfold page_put_thread_free_block, thread_free_count, thread_free_head.
  destruct (page_block_from_thread_free_list st page (load st page page_thread_free))
    as [prev_count prev_head]. cbn [fst snd]. cbv zeta.
  match goal with
  | |- context [if ?c1 then ?s else if ?c2 then ?t else ?s] =>
      set (st1 := s);
      assert (Hfr : frame is_list_field st1 (if c1 then st1 else if c2 then t else st1))
  end.
  { destruct (_ && _); [apply frame_refl|]. destruct (_ <=? _); [|apply frame_refl].
    unfold page_decommit_memory_pages, memory_decommit, os_mdecommit. cbv zeta. frame_tac. }
  split; [|split].
  - rewrite Hfr by reflexivity. subst st1. ld. reflexivity.
  - rewrite Hfr by reflexivity. subst st1. ld. reflexivity.
  - intros a f H1 H2 H3. rewrite Hfr by assumption. subst st1.
    rewrite !load_store_field by assumption. reflexivity.
Qed.

(** C3.  Deallocating a block to a page.  The pointer is first re-aligned
    to its block origin, by subtracting (offset within the block area mod
    block size), when [has_aligned_block] is set.  If the page is unowned
    or owned by the calling thread the block becomes the head of
    [local_free], linked to the previous head, and [block_used] goes down
    by one; otherwise it becomes the head of the thread-free list, linked
    to the previous head, the list count goes up by one and the local list
    and [block_used] stay as they are. *)
Theorem page_deallocate_block_spec (tid page block : Z) (st : state) :
  block_in_page st page block ->
  (load st page page_has_aligned_block = 0 ->
   (block - page_block_start page) mod load st page page_block_size = 0) ->
  let owner := load st page page_owner_thread in
  let target := dealloc_target st page block in
  let st' := page_deallocate_block tid page block st in
  (load st page page_has_aligned_block <> 0 ->
   target = block - (block - page_block_start page) mod load st page page_block_size) /\
  (load st page page_has_aligned_block = 0 -> target = block) /\
  (owner = 0 \/ owner = tid ->
   0 < load st page page_block_used < 2 ^ 32 ->
   load st' page page_local_free = target /\
   load st' target block_next = load st page page_local_free /\
   load st' page page_block_used = load st page page_block_used - 1 /\
   load st' page page_local_free_count = u32 (load st page page_local_free_count + 1) /\
   load st' page page_thread_free = load st page page_thread_free) /\
  (owner <> 0 /\ owner <> tid ->
   thread_free_count st page + 1 < 2 ^ 32 ->
   thread_free_head st' page = target /\
   load st' target block_next = thread_free_head st page /\
   thread_free_count st' page = thread_free_count st page + 1 /\
   load st' page page_local_free = load st page page_local_free /\
   load st' page page_local_free_count = load st page page_local_free_count /\
   load st' page page_block_used = load st page page_block_used).
Proof.
  intros Hin Horigin owner target st'.
  destruct (page_block_realign_origin st page block Hin) as (Hre & Hre_in & Hre_mod).
  assert (Htarget : block_in_page st page target /\
                    (target - page_block_start page) mod load st page page_block_size = 0).
  { subst target. unfold dealloc_target.
    destruct (Z.eqb_spec (load st page page_has_aligned_block) 0) as [E|E]; cbn [negb].
    - split; [assumption|auto].
    - rewrite Hre. split; assumption. }
  destruct Htarget as [Hin_t Hmod_t].
  split; [|split; [|split]].
  - intros Hal. subst target. unfold dealloc_target.
    destruct (Z.eqb_spec (load st page page_has_aligned_block) 0); [contradiction|].
    exact Hre.
  - intros Hal. subst target. unfold dealloc_target. rewrite Hal. reflexivity.
  - intros Hown Hused.
    assert (Est : st' = page_put_local_free_block page target st).
    { subst st' target owner. unfold page_deallocate_block, dealloc_target. cbv zeta.
      destruct Hown as [-> | ->]; [reflexivity|].
      rewrite Z.eqb_refl, orb_true_r. reflexivity. }
    rewrite Est.
    destruct (page_put_local_free_block_loads page target st) as (H1 & H2 & H3 & H4 & H5).
    rewrite H1, H2, H3, H4, H5. rewrite u32_small by lia. repeat split; reflexivity.
  - intros [Hown0 Hown1] Hcount.
    assert (Est : st' = page_put_thread_free_block page target st).
    { subst st' target owner. unfold page_deallocate_block, dealloc_target. cbv zeta.
      destruct (Z.eqb_spec (load st page page_owner_thread) 0); [contradiction|].
      destruct (Z.eqb_spec (load st page page_owner_thread) tid); [contradiction|].
      reflexivity. }
    rewrite Est.
    destruct (page_put_thread_free_block_loads page target st) as (H1 & H2 & H3).
    assert (Hbs : load (page_put_thread_free_block page target st) page page_block_size
                  = load st page page_block_size) by (apply H3; reflexivity).
    destruct (page_block_of_index st (page_put_thread_free_block page target st)
                page target Hin_t Hmod_t Hbs) as [Hblk Hidx].
    assert (Hc0 : 0 <= thread_free_count st page).
    { unfold thread_free_count, page_block_from_thread_free_list. cbn [fst].
      apply u32_range. }
    unfold thread_free_head at 1, thread_free_count at 1. rewrite H1.
    rewrite thread_free_decode_encode by (auto using u32_range).
    cbn [fst snd]. rewrite H2, !H3 by reflexivity.
    rewrite u32_small by lia.
    destruct (Z.eqb_spec (thread_free_count st page + 1) 0) as [E|E]; [lia|].
    repeat split; try reflexivity. exact Hblk.
Qed.

Lemma page_deallocate_block_spec_witness :
  let st := snd after_alloc_2 in
  let block := fst after_alloc_1 in
  let page := block_page st block in
  (load (page_deallocate_block thread_A page block st) page page_local_free = block /\
   load (page_deallocate_block thread_A page block st) page page_block_used = 61) /\
  (thread_free_head (page_deallocate_block thread_B page block st) page = block /\
   thread_free_count (page_deallocate_block thread_B page block st) page = 1).
Proof.
  intros st block page.
  assert (Hin : block_in_page st page block)
    by (vm_compute; intuition discriminate).
  assert (Hor : load st page page_has_aligned_block = 0 ->
                (block - page_block_start page) mod load st page page_block_size = 0)
    by (intros _; vm_compute; reflexivity).
  assert (Htarget : dealloc_target st page block = block) by (vm_compute; reflexivity).
  split.
  - destruct (page_deallocate_block_spec thread_A page block st Hin Hor) as (_ & _ & Hloc & _).
    destruct Hloc as (H1 & _ & H3 & _).
    + right. vm_compute. reflexivity.
    + vm_compute. intuition discriminate.
    + rewrite H1, H3. split; [exact Htarget|]. vm_compute. reflexivity.
  - destruct (page_deallocate_block_spec thread_B page block st Hin Hor) as (_ & _ & _ & Hrem).
    destruct Hrem as (H1 & _ & H3 & _).
    + vm_compute. intuition discriminate.
    + vm_compute. reflexivity.
    + rewrite H1, H3. split; [exact Htarget|]. vm_compute. reflexivity.
Defined.

(** * Remote reclamation of a full page *)

Lemma class_block_size_pos c :
  0 <= c < SIZE_CLASS_COUNT -> 32 <= class_block_size c <= 2 ^ 23.
Proof.
  intros Hc. change SIZE_CLASS_COUNT with 73 in Hc. split.
  - change 32 with (class_block_size 0). apply class_block_size_mono;
      change SIZE_CLASS_COUNT with 73; lia.
  - change (2 ^ 23) with (class_block_size 72). apply class_block_size_mono;
      change SIZE_CLASS_COUNT with 73; lia.
Qed.

Lemma class_block_count_range c :
  0 <= c < SIZE_CLASS_COUNT -> 7 <= class_block_count c <= 2047.
Proof.
  intros Hc. change SIZE_CLASS_COUNT with 73 in Hc.
  assert (H : forallb (fun k => (7 <=? class_block_count (Z.of_nat k))
                                && (class_block_count (Z.of_nat k) <=? 2047))
                      (seq 0 73) = true) by (vm_compute; reflexivity).
  rewrite forallb_forall in H. specialize (H (Z.to_nat c)).
  rewrite Z2Nat.id in H by lia.
  assert (Hin : In (Z.to_nat c) (seq 0 73)) by (apply in_seq; lia).
  apply H in Hin. apply andb_true_iff in Hin. destruct Hin as [H1 H2].
  apply Z.leb_le in H1, H2. lia.
Qed.

Lemma trace_emit e st : trace (emit e st) = trace st ++ [e].
Proof. reflexivity. Qed.

Lemma trace_store ptr f v st : trace (store ptr f v st) = trace st.
Proof. reflexivity. Qed.

Lemma os_page_size_store ptr f v st : os_page_size (store ptr f v st) = os_page_size st.
Proof. reflexivity. Qed.




(** * Page accounting *)

Lemma free_chain_frame st st' head l :
  (forall a, load st' a block_next = load st a block_next) ->
  free_chain st head l -> free_chain st' head l.
Proof.
  intros Hnext. revert head. induction l as [|b l IH]; intros head H; [exact H|].
  destruct H as (Hh & Hb & Hl). cbn [free_chain]. rewrite Hnext. auto.
Qed.

Lemma free_chain_store_other st b v head l :
  ~ In b l -> free_chain st head l -> free_chain (store b block_next v st) head l.
Proof.
  revert head. induction l as [|x l IH]; intros head Hnin H; [exact H|].
  destruct H as (Hh & Hx & Hl). cbn [free_chain].
  rewrite load_store_addr by (intros ->; apply Hnin; left; reflexivity).
  repeat split; try assumption. apply IH; [|assumption].
  intros Hin. apply Hnin. right. exact Hin.
Qed.

Lemma free_chain_head_null st l : free_chain st 0 l -> l = [].
Proof. destruct l as [|b l]; [reflexivity|]. intros (H & Hb & _). congruence. Qed.

Lemma free_chain_nonnull st head l : head <> 0 -> free_chain st head l ->
  exists l', l = head :: l' /\ free_chain st (load st head block_next) l'.
Proof.
  intros Hh H. destruct l as [|b l]; [contradiction|].
  destruct H as (-> & _ & Hl). exists l. split; [reflexivity|exact Hl].
Qed.

Lemma thread_free_view_eq st st' page :
  load st' page page_thread_free = load st page page_thread_free ->
  load st' page page_block_size = load st page page_block_size ->
  thread_free_count st' page = thread_free_count st page /\
  thread_free_head st' page = thread_free_head st page.
Proof.
  intros Htf Hbs.
  unfold thread_free_count, thread_free_head, page_block_from_thread_free_list, page_block.
  rewrite Htf, Hbs. split; reflexivity.
Qed.

Lemma thread_free_empty st page :
  load st page page_thread_free = 0 ->
  thread_free_count st page = 0 /\ thread_free_head st page = 0.
Proof.
  intros H. unfold thread_free_count, thread_free_head. rewrite H. split; reflexivity.
Qed.

(** The accounting only reads the counters, the two list heads, the block
    size and the links in the blocks. *)
Lemma page_accounting_transfer st st' page l lt l' lt' :
  page_accounting st page l lt ->
  load st' page page_block_count = load st page page_block_count ->
  load st' page page_block_used + load st' page page_local_free_count
  = load st' page page_block_initialized ->
  0 <= load st' page page_block_used ->
  load st' page page_block_initialized <= load st page page_block_count ->
  load st' page page_local_free_count = Z.of_nat (length l') ->
  free_chain st' (load st' page page_local_free) l' ->
  thread_free_count st' page = Z.of_nat (length lt') ->
  free_chain st' (thread_free_head st' page) lt' ->
  thread_free_count st' page <= load st' page page_block_used ->
  page_accounting st' page l' lt'.
Proof.
  intros (Heq & Hu & Hbi & Hbc & _) Hbc' Heq' Hu' Hbi' Hl' Hc' Ht' Htc' Htu'.
  unfold page_accounting. rewrite Hbc'. repeat split; try assumption. lia.
Qed.

Lemma page_accounting_frame st st' page l lt :
  frame is_list_field st st' ->
  page_accounting st page l lt -> page_accounting st' page l lt.
Proof.
  intros Hfr Hacc.
  destruct (thread_free_view_eq st st' page) as [Hc Hh]; try (apply Hfr; reflexivity).
  pose proof Hacc as (Heq & Hu & Hbi & Hbc & Hlfc & Hch & Htc & Htch & Htu).
  apply (page_accounting_transfer st st' page l lt l lt Hacc);
    rewrite ?Hc, ?Hh, ?(Hfr page page_block_count), ?(Hfr page page_block_used),
      ?(Hfr page page_local_free_count), ?(Hfr page page_block_initialized),
      ?(Hfr page page_local_free) by reflexivity;
    try assumption; try lia.
  - apply free_chain_frame with st; [intros a; apply Hfr; reflexivity|assumption].
  - apply free_chain_frame with st; [intros a; apply Hfr; reflexivity|assumption].
Qed.

(** Allocation from the local free list. *)
Lemma page_get_local_free_block_accounting st page b l lt :
  page_accounting st page (b :: l) lt ->
  fst (page_get_local_free_block page st) = b /\
  page_accounting (snd (page_get_local_free_block page st)) page l lt.
Proof.
  intros Hacc.
  pose proof Hacc as (Heq & Hu & Hbi & Hbc & Hlfc & Hch & Htc & Htch & Htu).
  destruct Hch as (Hhead & Hb & Hch).
  cbn [length] in Hlfc. rewrite Nat2Z.inj_succ in Hlfc.
  unfold page_get_local_free_block. rewrite Hhead.
  destruct (Z.eqb_spec b 0); [contradiction|]. cbv zeta. cbn [fst snd].
  split; [reflexivity|].
  set (st' := store page page_block_used _ _).
  assert (Hnext : forall a, load st' a block_next = load st a block_next)
    by (intros a; subst st'; ld; reflexivity).
  destruct (thread_free_view_eq st st' page) as [Hc Hh]; try (subst st'; ld; reflexivity).
  apply (page_accounting_transfer st st' page (b :: l) lt l lt Hacc); rewrite ?Hc, ?Hh.
  - subst st'; ld; reflexivity.
  - subst st'; ld. rewrite !u32_small by lia. lia.
  - subst st'; ld. rewrite !u32_small by lia. lia.
  - subst st'; ld. assumption.
  - subst st'; ld. rewrite !u32_small by lia. lia.
  - apply free_chain_frame with st; [assumption|]. subst st'; ld. assumption.
  - assumption.
  - apply free_chain_frame with st; assumption.
  - subst st'; ld. rewrite !u32_small by lia. lia.
Qed.

(** Adoption of the thread-free list, with the local list empty. *)
Lemma page_adopt_thread_free_block_list_accounting st page lt :
  page_accounting st page [] lt ->
  page_accounting (page_adopt_thread_free_block_list page st) page lt [].
Proof.
  intros Hacc.
  pose proof Hacc as (Heq & Hu & Hbi & Hbc & Hlfc & Hch & Htc & Htch & Htu).
  cbn [length] in Hlfc. cbn [free_chain] in Hch.
  unfold page_adopt_thread_free_block_list. cbv zeta.
  destruct (Z.eqb_spec (load st page page_thread_free) 0) as [E|E].
  - destruct (thread_free_empty st page E) as [Hc0 Hh0].
    rewrite Hc0 in Htc. rewrite Hh0 in Htch.
    apply free_chain_head_null in Htch. subst lt. exact Hacc.
  - assert (Hdec : page_block_from_thread_free_list
                     (store page page_thread_free 0 st) page (load st page page_thread_free)
                   = (thread_free_count st page, thread_free_head st page)).
    { unfold thread_free_count, thread_free_head, page_block_from_thread_free_list, page_block.
      ld. reflexivity. }
    rewrite Hdec.
    set (st' := store page page_block_used _ _).
    assert (Hnext : forall a, load st' a block_next = load st a block_next)
      by (intros a; subst st'; ld; reflexivity).
    destruct (thread_free_empty st' page) as [Hc0 Hh0]; [subst st'; ld; reflexivity|].
    apply (page_accounting_transfer st st' page [] lt lt [] Hacc); rewrite ?Hc0, ?Hh0.
    + subst st'; ld; reflexivity.
    + subst st'; ld. rewrite !u32_small by lia. lia.
    + subst st'; ld. rewrite !u32_small by lia. lia.
    + subst st'; ld. assumption.
    + subst st'; ld. assumption.
    + apply free_chain_frame with st; [assumption|]. subst st'; ld. assumption.
    + reflexivity.
    + reflexivity.
    + subst st'; ld. rewrite !u32_small by lia. lia.
Qed.

Lemma page_get_thread_free_block_eq page st :
  page_get_thread_free_block page st
  = page_get_local_free_block page (page_adopt_thread_free_block_list page st).
Proof.
  unfold page_get_thread_free_block, page_get_local_free_block. cbv zeta.
  destruct (Z.eqb_spec (load (page_adopt_thread_free_block_list page st) page page_local_free) 0)
    as [E|E]; [rewrite E|]; reflexivity.
Qed.

(** Allocation from the adopted thread-free list. *)
Lemma page_get_thread_free_block_accounting st page lt :
  page_accounting st page [] lt ->
  fst (page_get_thread_free_block page st) = hd 0 lt /\
  page_accounting (snd (page_get_thread_free_block page st)) page (tl lt) [].
Proof.
  intros Hacc. rewrite page_get_thread_free_block_eq.
  apply page_adopt_thread_free_block_list_accounting in Hacc.
  destruct lt as [|b lt].
  - pose proof Hacc as (_ & _ & _ & _ & _ & Hch & _). cbn [free_chain] in Hch.
    unfold page_get_local_free_block. rewrite Hch. cbn [Z.eqb fst snd]. split; [reflexivity|exact Hacc].
  - cbn [hd tl]. apply page_get_local_free_block_accounting. exact Hacc.
Qed.

(** A local free. *)
Lemma page_put_local_free_block_accounting st page block l lt :
  page_accounting st page l lt ->
  block <> 0 -> ~ In block l -> ~ In block lt ->
  thread_free_count st page < load st page page_block_used ->
  page_accounting (page_put_local_free_block page block st) page (block :: l) lt.
Proof.
  intros Hacc Hb Hnl Hnlt Hlive.
  pose proof Hacc as (Heq & Hu & Hbi & Hbc & Hlfc & Hch & Htc & Htch & Htu).
  unfold page_put_local_free_block. cbv zeta.
  match goal with
  | |- page_accounting (if ?c1 then page_available_to_free _ ?s
                        else if ?c2 then page_full_to_available _ ?s else ?s) _ _ _ =>
      set (st1 := s);
      assert (Hfr : frame is_list_field st1
                      (if c1 then page_available_to_free page st1
                       else if c2 then page_full_to_available page st1 else st1))
  end.
  { destruct (_ =? 0); [apply page_available_to_free_frame|].
    destruct (negb _); [apply page_full_to_available_frame|apply frame_refl]. }
  apply (page_accounting_frame st1 _ page _ _ Hfr). clear Hfr.
  assert (Hlen : 0 <= Z.of_nat (length l)) by lia.
  destruct (thread_free_view_eq st st1 page) as [Hc Hh]; try (subst st1; ld; reflexivity).
  apply (page_accounting_transfer st st1 page l lt (block :: l) lt Hacc); rewrite ?Hc, ?Hh.
  - subst st1; ld; reflexivity.
  - subst st1; ld. rewrite !u32_small by lia. lia.
  - subst st1; ld. rewrite !u32_small by lia. lia.
  - subst st1; ld. assumption.
  - subst st1; ld. cbn [length]. rewrite Nat2Z.inj_succ. rewrite !u32_small by lia. lia.
  - subst st1. ld. cbn [free_chain]. split; [reflexivity|]. split; [assumption|].
    apply free_chain_frame with (store block block_next (load st page page_local_free) st).
    + intros a. ld. reflexivity.
    + ld. apply free_chain_store_other; assumption.
  - assumption.
  - apply free_chain_frame with (store block block_next (load st page page_local_free) st).
    + intros a. subst st1. ld. reflexivity.
    + apply free_chain_store_other; assumption.
  - subst st1; ld. rewrite !u32_small by lia. lia.
Qed.

(** A remote push. *)
Lemma page_put_thread_free_block_accounting st page block l lt :
  page_accounting st page l lt ->
  block_in_page st page block ->
  (block - page_block_start page) mod load st page page_block_size = 0 ->
  ~ In block l -> ~ In block lt ->
  thread_free_count st page < load st page page_block_used ->
  page_accounting (page_put_thread_free_block page block st) page l (block :: lt).
Proof.
  intros Hacc Hin Hmod Hnl Hnlt Hlive.
  pose proof Hacc as (Heq & Hu & Hbi & Hbc & Hlfc & Hch & Htc & Htch & Htu).
  set (st' := page_put_thread_free_block page block st).
  destruct (page_put_thread_free_block_loads page block st) as (H1 & H2 & H3).
  fold st' in H1, H2, H3.
  assert (Hbs : load st' page page_block_size = load st page page_block_size)
    by (apply H3; reflexivity).
  destruct (page_block_of_index st st' page block Hin Hmod Hbs) as [Hblk Hidx].
  assert (Hlen : 0 <= Z.of_nat (length l)) by lia.
  assert (Hlent : 0 <= Z.of_nat (length lt)) by lia.
  assert (Hcount : thread_free_count st' page = thread_free_count st page + 1
                   /\ thread_free_head st' page = block).
  { unfold thread_free_count at 1, thread_free_head at 1. rewrite H1.
    rewrite thread_free_decode_encode by (auto using u32_range). cbn [fst snd].
    rewrite u32_small by lia.
    destruct (Z.eqb_spec (thread_free_count st page + 1) 0); [lia|]. auto. }
  destruct Hcount as [Hc Hh].
  assert (Hnext : forall a, a <> block -> load st' a block_next = load st a block_next).
  { intros a Ha. subst st'. unfold page_put_thread_free_block.
    destruct (page_block_from_thread_free_list st page (load st page page_thread_free))
      as [prev_count prev_head]. cbv zeta.
    match goal with
    | |- load (if ?c1 then ?s else if ?c2 then ?t else ?s) _ _ = _ =>
        assert (Hfr : frame is_list_field s (if c1 then s else if c2 then t else s))
    end.
    { destruct (_ && _); [apply frame_refl|]. destruct (_ <=? _); [|apply frame_refl].
      unfold page_decommit_memory_pages, memory_decommit, os_mdecommit. cbv zeta. frame_tac. }
    rewrite Hfr by reflexivity. ld. apply load_store_addr. assumption. }
  assert (Hchain : forall head k, ~ In block k -> free_chain st head k -> free_chain st' head k).
  { intros head k. revert head. induction k as [|x k IH]; intros head Hnin Hk; [exact Hk|].
    destruct Hk as (Hx & Hx0 & Hk). cbn [free_chain].
    rewrite Hnext by (intros ->; apply Hnin; left; reflexivity).
    repeat split; try assumption. apply IH; [|assumption].
    intros Hi. apply Hnin. right. exact Hi. }
  destruct Hin as (Hp0 & Hp1 & Hbsr & Hbr). unfold PAGE_HEADER_SIZE in Hbr.
  apply (page_accounting_transfer st st' page l lt l (block :: lt) Hacc); rewrite ?Hc, ?Hh.
  - apply H3; reflexivity.
  - rewrite !H3 by reflexivity. lia.
  - rewrite !H3 by reflexivity. lia.
  - rewrite !H3 by reflexivity. assumption.
  - rewrite !H3 by reflexivity. assumption.
  - rewrite !H3 by reflexivity. apply Hchain; assumption.
  - cbn [length]. rewrite Nat2Z.inj_succ. lia.
  - cbn [free_chain]. split; [reflexivity|]. split; [lia|]. rewrite H2. apply Hchain; assumption.
  - rewrite !H3 by reflexivity. lia.
Qed.

(** The linking loop of [page_initialize_blocks]. *)
Lemma page_link_free_blocks_spec fuel :
  forall page memory_page_next max free last count st last' count' st',
    let bs := load st page page_block_size in
    0 < bs -> 0 < free -> 0 <= count <= max -> max < 2 ^ 32 ->
    free + (max - count + 1) * bs <= 2 ^ 64 ->
    page_link_free_blocks fuel page memory_page_next max free last count st
    = (last', count', st') ->
    count <= count' <= max /\
    (forall a f, field_eqb f block_next = false -> load st' a f = load st a f) /\
    (forall a, a < free -> load st' a block_next = load st a block_next) /\
    (count' = count -> last' = last /\ st' = st) /\
    (count < count' ->
     free <= last' /\
     free_chain (store last' block_next 0 st') free
                (block_run free bs (Z.to_nat (count' - count)))).
Proof.
  induction fuel as [|fuel IH];
    intros page memory_page_next max free last count st last' count' st' bs
           Hbs Hfree Hcount Hmax Hwrap Hrun.
  - cbn [page_link_free_blocks] in Hrun. injection Hrun as <- <- <-.
    repeat split; try lia; try reflexivity.
  - cbn [page_link_free_blocks] in Hrun.
    destruct ((free <? memory_page_next) && (count <? max)) eqn:Hcond.
    + apply andb_true_iff in Hcond. destruct Hcond as [_ Hlt]. apply Z.ltb_lt in Hlt.
      cbv zeta in Hrun. rewrite load_store_same in Hrun. fold bs in Hrun.
      assert (Hoff : pointer_offset free bs = free + bs).
      { unfold pointer_offset. apply u64_small. nia. }
      rewrite Hoff in Hrun. rewrite (u32_small (count + 1)) in Hrun by lia.
      set (st1 := store free block_next (free + bs) st) in *.
      assert (Hbs1 : load st1 page page_block_size = bs) by (subst st1; ld; reflexivity).
      specialize (IH page memory_page_next max (free + bs) free (count + 1) st1
                     last' count' st').
      cbv zeta in IH. rewrite Hbs1 in IH.
      destruct IH as (Hc & Hfr & Hlow & Hsame & Hgrow);
        [lia | lia | lia | lia | nia | exact Hrun |].
      split; [lia|]. split; [|split; [|split]].
      * intros a f Hf. rewrite Hfr by assumption. subst st1.
        apply load_store_field. assumption.
      * intros a Ha. rewrite Hlow by lia. subst st1. apply load_store_addr. lia.
      * intros E. lia.
      * intros _. destruct (Z.eq_dec count' (count + 1)) as [E|E].
        -- destruct (Hsame E) as [-> ->]. split; [lia|].
           replace (count' - count) with 1 by lia. change (Z.to_nat 1) with 1%nat.
           cbn [block_run free_chain].
           rewrite load_store_same. repeat split; lia.
        -- destruct Hgrow as [Hle Hch]; [lia|]. split; [lia|].
           replace (Z.to_nat (count' - count)) with (S (Z.to_nat (count' - (count + 1)))) by lia.
           cbn [block_run free_chain]. split; [reflexivity|]. split; [lia|].
           rewrite load_store_addr by lia. rewrite Hlow by lia.
           subst st1. rewrite load_store_same. exact Hch.
    + injection Hrun as <- <- <-. repeat split; try lia; try reflexivity.
Qed.

(** Allocation by bumping [block_initialized]. *)
Lemma page_initialize_blocks_accounting st page :
  page_accounting st page [] [] ->
  page_geometry st page ->
  load st page page_block_initialized < load st page page_block_count ->
  0 <= load st page page_block_initialized ->
  fst (page_initialize_blocks page st)
  = page + PAGE_HEADER_SIZE
    + load st page page_block_size * load st page page_block_initialized /\
  exists l, page_accounting (snd (page_initialize_blocks page st)) page l [].
Proof.
  intros Hacc (Hp0 & Hp1 & Hbs & Hbc0 & Harea) Hroom Hbi0.
  pose proof Hacc as (Heq & Hu & Hbi & Hbc & Hlfc & Hch & Htc & Htch & Htu).
  cbn [length] in Hlfc, Htc. cbn [free_chain] in Hch, Htch.
  change (Z.of_nat 0) with 0 in *.
  unfold PAGE_HEADER_SIZE, LARGE_PAGE_SIZE, LARGE_BLOCK_SIZE_LIMIT in *.
  change (Z.shiftl 1 LARGE_PAGE_SIZE_SHIFT) with (2 ^ 26) in Harea.
  change (8 * 1024 * 1024) with (2 ^ 23) in Hbs.
  unfold page_initialize_blocks. cbv zeta.
  set (bs := load st page page_block_size) in *.
  set (bi := load st page page_block_initialized) in *.
  set (bc := load st page page_block_count) in *.
  assert (Hprod : bs * bi < bs * bc) by nia.
  assert (Hblock : page_block st page bi = page + 128 + bs * bi).
  { unfold page_block. fold bs. change PAGE_HEADER_SIZE with 128.
    rewrite (u32_small (bs * bi)) by nia. rewrite u32_small by nia.
    unfold pointer_offset. rewrite u64_small by nia. lia. }
  rewrite Hblock.
  set (st1 := store page page_block_used _ (store page page_block_initialized _ st)).
  assert (Hbs1 : load st1 page page_block_size = bs) by (subst st1; ld; reflexivity).
  assert (Hbc1 : load st1 page page_block_count = bc) by (subst st1; ld; reflexivity).
  assert (Hbi1 : load st1 page page_block_initialized = bi + 1)
    by (subst st1; ld; fold bi; apply u32_small; lia).
  assert (Hu1 : load st1 page page_block_used = bi + 1).
  { subst st1; ld. rewrite u32_small by lia. lia. }
  assert (Hlfc1 : load st1 page page_local_free_count = 0) by (subst st1; ld; assumption).
  assert (Hlf1 : load st1 page page_local_free = 0) by (subst st1; ld; assumption).
  assert (Hnext1 : forall a, load st1 a block_next = load st a block_next)
    by (intros a; subst st1; ld; reflexivity).
  destruct (thread_free_view_eq st st1 page) as [Hc1 Hh1]; try (subst st1; ld; reflexivity).
  assert (Hacc1 : page_accounting st1 page [] []).
  { apply (page_accounting_transfer st st1 page [] [] [] [] Hacc);
      rewrite ?Hc1, ?Hh1, ?Hbc1, ?Hbi1, ?Hu1, ?Hlfc1, ?Hlf1; cbn [length free_chain];
      try reflexivity; try assumption; try lia. }
  rewrite Hbs1, Hbc1, Hbi1.
  destruct ((load st1 page page_page_type =? PAGE_SMALL) && (bs <? Z.shiftr (os_page_size st1) 1)).
  2:{ cbn [fst snd]. split; [reflexivity|]. exists []. exact Hacc1. }
  assert (Hfirst : pointer_offset (page + 128 + bs * bi) bs = page + 128 + bs * (bi + 1)).
  { unfold pointer_offset. rewrite u64_small by nia. lia. }
  rewrite Hfirst. rewrite (u32_small (bc - (bi + 1))) by lia.
  set (first := page + 128 + bs * (bi + 1)) in *.
  destruct (page_link_free_blocks _ _ _ _ _ _ _ _) as [[last' count'] st2] eqn:Hrun.
  apply page_link_free_blocks_spec in Hrun; cbv zeta; rewrite ?Hbs1; try lia; try nia.
  destruct Hrun as (Hc & Hfr & Hlow & Hsame & Hgrow).
  destruct (Z.eqb_spec count' 0) as [E|E].
  - cbn [fst snd]. split; [reflexivity|]. exists [].
    destruct (Hsame E) as [_ ->]. exact Hacc1.
  - cbn [fst snd]. split; [reflexivity|].
    destruct Hgrow as [Hle Hchain]; [lia|]. rewrite Z.sub_0_r in Hchain.
    exists (block_run first bs (Z.to_nat count')).
    set (st3 := store page page_local_free_count _ _).
    assert (Hlen : forall n f, length (block_run f bs n) = n).
    { induction n as [|n IHn]; intros f; cbn [block_run length]; [reflexivity|].
      rewrite IHn. reflexivity. }
    destruct (thread_free_view_eq st1 st3 page) as [Hc3 Hh3].
    { subst st3. ld. apply Hfr. reflexivity. }
    { subst st3. ld. apply Hfr. reflexivity. }
    apply (page_accounting_transfer st st3 page [] [] _ [] Hacc);
      rewrite ?Hc3, ?Hh3, ?Hc1, ?Hh1.
    + subst st3. ld. rewrite Hfr by reflexivity. assumption.
    + subst st3. ld. rewrite !Hfr by reflexivity. rewrite Hu1, Hbi1.
      rewrite u32_small by lia. lia.
    + subst st3. ld. rewrite !Hfr by reflexivity. lia.
    + subst st3. ld. rewrite !Hfr by reflexivity. rewrite Hbi1.
      rewrite u32_small by lia. fold bc. lia.
    + subst st3. ld. rewrite Hlen. lia.
    + subst st3.
      apply free_chain_frame with (store last' block_next 0 st2).
      * intros a. ld. reflexivity.
      * ld. exact Hchain.
    + cbn [length]. lia.
    + cbn [free_chain]. assumption.
    + subst st3. ld. rewrite !Hfr by reflexivity. lia.
Qed.

(** C2 (as amended).  For every page
    [block_used + local_free_count + (block_count - block_initialized)
     = block_count], where the blocks on the thread-free list are still
    counted in [block_used] (their count never exceeds it) until the list
    is adopted.  With the two free lists threaded through the blocks this
    accounting is preserved by every page operation: allocating from the
    local free list, from the adopted thread-free list, or by bumping
    [block_initialized]; freeing a live block locally; pushing a live
    block remotely, which changes none of the counters; and adopting the
    thread-free list when the local list is empty, as at both call
    sites. *)
Theorem page_accounting_preserved (st : state) (page : Z) (l lt : list Z) :
  page_accounting st page l lt ->
  (load st page page_block_used + load st page page_local_free_count
   + (load st page page_block_count - load st page page_block_initialized)
   = load st page page_block_count /\
   thread_free_count st page <= load st page page_block_used) /\
  (forall b l', l = b :: l' ->
     fst (page_get_local_free_block page st) = b /\
     page_accounting (snd (page_get_local_free_block page st)) page l' lt) /\
  (l = [] ->
     fst (page_get_thread_free_block page st) = hd 0 lt /\
     page_accounting (snd (page_get_thread_free_block page st)) page (tl lt) []) /\
  (l = [] -> lt = [] -> page_geometry st page ->
     0 <= load st page page_block_initialized < load st page page_block_count ->
     exists l', page_accounting (snd (page_initialize_blocks page st)) page l' []) /\
  (forall block, block <> 0 -> ~ In block l -> ~ In block lt ->
     thread_free_count st page < load st page page_block_used ->
     page_accounting (page_put_local_free_block page block st) page (block :: l) lt) /\
  (forall block, block_in_page st page block ->
     (block - page_block_start page) mod load st page page_block_size = 0 ->
     ~ In block l -> ~ In block lt ->
     thread_free_count st page < load st page page_block_used ->
     page_accounting (page_put_thread_free_block page block st) page l (block :: lt)) /\
  (l = [] -> page_accounting (page_adopt_thread_free_block_list page st) page lt []).
Proof.
  intros Hacc. split; [|split; [|split; [|split; [|split; [|split]]]]].
  - destruct Hacc as (Heq & _ & _ & _ & _ & _ & _ & _ & Htu). split; assumption.
  - intros b l' ->. apply page_get_local_free_block_accounting. exact Hacc.
  - intros ->. apply page_get_thread_free_block_accounting. exact Hacc.
  - intros -> -> Hgeo Hbi.
    destruct (page_initialize_blocks_accounting st page Hacc Hgeo) as [_ H]; [lia|lia|].
    exact H.
  - intros block. apply page_put_local_free_block_accounting. exact Hacc.
  - intros block. apply page_put_thread_free_block_accounting. exact Hacc.
  - intros ->. apply page_adopt_thread_free_block_list_accounting. exact Hacc.
Qed.

Lemma page_accounting_preserved_witness :
  let st := snd after_alloc_2 in
  let block := fst after_alloc_1 in
  let page := block_page st block in
  page_accounting st page [] [] /\
  page_accounting (page_put_thread_free_block page block st) page [] [block] /\
  page_accounting (page_put_local_free_block page block st) page [block] [] /\
  exists l', page_accounting (snd (page_initialize_blocks page st)) page l' [].
Proof.
  intros st block page.
  assert (Hacc : page_accounting st page [] []).
  { unfold page_accounting. vm_compute. intuition discriminate. }
  destruct (page_accounting_preserved st page [] [] Hacc)
    as (_ & _ & _ & Hbump & Hlocal & Hremote & _).
  split; [exact Hacc|]. split; [|split].
  - apply Hremote.
    + vm_compute. intuition discriminate.
    + vm_compute. reflexivity.
    + intros [].
    + intros [].
    + vm_compute. reflexivity.
  - apply Hlocal.
    + vm_compute. discriminate.
    + intros [].
    + intros [].
    + vm_compute. reflexivity.
  - apply Hbump; try reflexivity.
    + vm_compute. intuition discriminate.
    + vm_compute. intuition discriminate.
Defined.

(** C2 as stated fails at the first remote free: the equation with the
    thread-free count as a separate term holds after thread A has
    allocated two blocks, and no longer once thread B has freed one of
    them, because a remote push leaves [block_used] alone. *)
Lemma spec_accounting_equation_counterexample :
  let st := snd after_alloc_2 in
  let block := fst after_alloc_1 in
  let page := block_page st block in
  spec_accounting_equation st page /\
  ~ spec_accounting_equation (rpfree thread_B block st) page.
Proof.
  intros st block page. split.
  - vm_compute. reflexivity.
  - vm_compute. discriminate.
Qed.

(** * Reallocation of huge blocks *)


(** * Locating the page of a block *)

Lemma land_span_mask b :
  0 <= b < 2 ^ 64 -> Z.land b SPAN_MASK = b / SPAN_SIZE * SPAN_SIZE.
Proof.
  intros Hb. unfold SPAN_MASK, u64. change (SPAN_SIZE - 1) with (Z.ones 28).
  rewrite <- Z.land_ones by lia. rewrite Z.land_assoc.
  rewrite (Z.land_comm b). rewrite <- Z.land_assoc.
  rewrite (Z.land_ones b) by lia. rewrite (Z.mod_small b) by lia.
  rewrite Z.land_comm. change (Z.land b (Z.lnot (Z.ones 28))) with (Z.ldiff b (Z.ones 28)).
  rewrite Z.ldiff_ones_r by lia.
  rewrite Z.shiftl_mul_pow2, Z.shiftr_div_pow2 by lia. reflexivity.
Qed.

Lemma block_get_span_inside span b :
  0 <= span -> span + SPAN_SIZE <= 2 ^ 64 -> span mod SPAN_SIZE = 0 ->
  span <= b < span + SPAN_SIZE -> block_get_span b = span.
Proof.
  intros H0 H1 Hal Hb. unfold block_get_span. unfold SPAN_SIZE in *.
  rewrite land_span_mask by lia. unfold SPAN_SIZE.
  assert (Hq : b / (256 * 1024 * 1024) = span / (256 * 1024 * 1024)).
  { symmetry. apply Z.div_unique with (b - span + span mod (256 * 1024 * 1024)).
    - left. lia.
    - pose proof (Z.div_mod span (256 * 1024 * 1024) ltac:(lia)). lia. }
  rewrite Hq. pose proof (Z.div_mod span (256 * 1024 * 1024) ltac:(lia)). lia.
Qed.

Lemma page_shift_of_range t :
  page_shift_of t = 16 \/ page_shift_of t = 22 \/ page_shift_of t = 26.
Proof.
  unfold page_shift_of. destruct (t =? PAGE_SMALL); [left; reflexivity|].
  destruct (t =? PAGE_MEDIUM); [right; left|right; right]; reflexivity.
Qed.

Lemma page_size_of_range t : 2 ^ 16 <= page_size_of t <= 2 ^ 26.
Proof.
  unfold page_size_of. destruct (page_shift_of_range t) as [->|[->| ->]]; lia.
Qed.

(** A block inside a placed page is found again by the address masks. *)
Lemma block_page_lookup st t page b :
  page_placed st t page ->
  page <= b < page + page_size_of t ->
  load st (block_get_span b) span_page_type = t /\
  block_page st b = page.
Proof.
  intros (span & j & (Ht & Hs0 & Hs1 & Hal & Hty & Hsh) & Hj & Hpage & Hfit) Hb.
  pose proof (page_size_of_range t) as Hps.
  assert (Hspan : block_get_span b = span).
  { apply block_get_span_inside; solve [lia | unfold SPAN_SIZE in *; nia]. }
  unfold block_page. rewrite Hspan. split; [exact Hty|].
  unfold span_get_page_from_block, pointer_diff. rewrite Hsh.
  rewrite (u64_small (b - span)) by nia.
  assert (Hsh0 : 0 <= page_shift_of t) by (destruct (page_shift_of_range t) as [->|[->| ->]]; lia).
  rewrite Z.shiftr_div_pow2, Z.shiftl_mul_pow2 by assumption.
  fold (page_size_of t).
  assert (Hq : (b - span) / page_size_of t = j).
  { symmetry. apply Z.div_unique with (b - page); [left; lia|]. lia. }
  rewrite Hq. unfold pointer_offset. rewrite (u64_small (j * page_size_of t)) by nia.
  rewrite u64_small by nia. lia.
Qed.

(** The block area of every class fits the page of its page type. *)
Lemma class_block_area c :
  0 <= c < SIZE_CLASS_COUNT ->
  PAGE_HEADER_SIZE + class_block_size c * class_block_count c
  <= page_size_of (get_page_type c).
Proof.
  intros Hc. change SIZE_CLASS_COUNT with 73 in Hc.
  assert (H : forallb (fun k => PAGE_HEADER_SIZE
                                + class_block_size (Z.of_nat k) * class_block_count (Z.of_nat k)
                                <=? page_size_of (get_page_type (Z.of_nat k)))
                      (seq 0 73) = true) by (vm_compute; reflexivity).
  rewrite forallb_forall in H. specialize (H (Z.to_nat c)).
  rewrite Z2Nat.id in H by lia. apply Z.leb_le, H, in_seq. lia.
Qed.

Lemma get_page_type_range c :
  0 <= c < SIZE_CLASS_COUNT -> 0 <= get_page_type c <= PAGE_LARGE.
Proof.
  intros Hc. unfold get_page_type.
  destruct (c <? SMALL_SIZE_CLASS_COUNT); [cbv; intuition discriminate|].
  destruct (c <? SMALL_SIZE_CLASS_COUNT + MEDIUM_SIZE_CLASS_COUNT); [cbv; intuition discriminate|].
  destruct (Z.ltb_spec c SIZE_CLASS_COUNT); [cbv; intuition discriminate|lia].
Qed.


(** * Frames of the allocation path *)

Ltac frame_more :=
  match goal with
  | H : frame ?P ?s1 ?s2 |- frame ?P ?s0 ?s2 =>
      apply (frame_trans P s0 s1 s2); [ | exact H ]
  | |- frame _ _ (snd (if ?c then _ else _)) => destruct c
  | |- frame _ _ (snd (_, _)) => cbn [snd]
  | _ => frame_step
  end.
Ltac frame_auto := repeat frame_more.

Lemma frame_memset touched address size st :
  touched block_next = true -> frame touched st (memset address size st).
Proof.
  intros Ht a f Hf. unfold memset. rewrite load_emit. unfold load, with_mem. cbn [mem].
  destruct (field_eqb f block_next) eqn:E; [|reflexivity].
  apply field_eqb_eq in E. congruence.
Qed.

Lemma page_get_local_free_block_frame page st :
  frame block_ops_touch st (snd (page_get_local_free_block page st)).
Proof. unfold page_get_local_free_block. cbv zeta. frame_auto. Qed.

Lemma page_adopt_thread_free_block_list_frame page st :
  frame block_ops_touch st (page_adopt_thread_free_block_list page st).
Proof.
  unfold page_adopt_thread_free_block_list. cbv zeta.
  destruct (_ =? 0); [apply frame_refl|].
  destruct (page_block_from_thread_free_list _ _ _) as [list_count block]. frame_auto.
Qed.

Lemma page_get_thread_free_block_frame page st :
  frame block_ops_touch st (snd (page_get_thread_free_block page st)).
Proof.
  rewrite page_get_thread_free_block_eq.
  eapply frame_trans; [apply page_adopt_thread_free_block_list_frame|].
  apply page_get_local_free_block_frame.
Qed.

Lemma page_link_free_blocks_frame fuel :
  forall page memory_page_next max free last count st,
    frame block_ops_touch st
          (snd (page_link_free_blocks fuel page memory_page_next max free last count st)).
Proof.
  induction fuel as [|fuel IH]; intros; cbn [page_link_free_blocks].
  - apply frame_refl.
  - destruct (_ && _); [|apply frame_refl]. cbv zeta.
    eapply frame_trans; [|apply IH]. apply frame_store. reflexivity.
Qed.

Lemma page_initialize_blocks_frame page st :
  frame block_ops_touch st (snd (page_initialize_blocks page st)).
Proof.
  unfold page_initialize_blocks. cbv zeta.
  destruct (_ && _); [|frame_auto].
  match goal with
  | |- context [page_link_free_blocks ?fuel ?p ?n ?m ?f ?l ?c ?s] =>
      pose proof (page_link_free_blocks_frame fuel p n m f l c s) as Hloop;
      destruct (page_link_free_blocks fuel p n m f l c s) as [[last_block list_count] st2]
  end.
  cbn [snd] in Hloop.
  assert (Hpre : frame block_ops_touch st st2).
  { eapply frame_trans; [|exact Hloop]. frame_auto. }
  clear Hloop. destruct (list_count =? 0); cbn [snd]; [exact Hpre|].
  repeat (eapply frame_trans; [ | apply frame_store; reflexivity ]). exact Hpre.
Qed.

Lemma page_push_local_free_to_heap_frame page st :
  frame block_ops_touch st (page_push_local_free_to_heap page st).
Proof. unfold page_push_local_free_to_heap. cbv zeta. frame_auto. Qed.

Lemma page_take_block_frame page st :
  frame block_ops_touch st (snd (page_take_block page st)).
Proof.
  unfold page_take_block.
  pose proof (page_get_local_free_block_frame page st) as H0.
  destruct (page_get_local_free_block page st) as [b0 s0]. cbn [snd] in H0.
  destruct (b0 =? 0); [|exact H0].
  pose proof (page_get_thread_free_block_frame page s0) as H1.
  destruct (page_get_thread_free_block page s0) as [b1 s1]. cbn [snd] in H1.
  destruct (b1 =? 0); [|cbn [snd]; eapply frame_trans; eassumption].
  pose proof (page_initialize_blocks_frame page s1) as H2.
  destruct (page_initialize_blocks page s1) as [b2 s2]. cbn [snd] in *.
  eapply frame_trans; [|exact H2]. eapply frame_trans; eassumption.
Qed.


(** * The block taken from a ready page *)







(** * Setting up a page *)


Lemma frame_weaken (t1 t2 : field -> bool) st st' :
  (forall f, t1 f = true -> t2 f = true) -> frame t1 st st' -> frame t2 st st'.
Proof.
  intros Hsub Hfr a f Hf. apply Hfr. destruct (t1 f) eqn:E; [|reflexivity].
  apply Hsub in E. congruence.
Qed.

Lemma load_memset address size st a f :
  field_eqb f block_next = false -> load (memset address size st) a f = load st a f.
Proof.
  intros Hf. unfold memset. rewrite load_emit. unfold load, with_mem. cbn [mem].
  rewrite Hf. reflexivity.
Qed.


Lemma place_keep_frame st st' :
  frame place_keep st st' ->
  forall a f, is_place_field f = true -> load st' a f = load st a f.
Proof. intros Hfr a f Hf. apply Hfr. unfold place_keep. rewrite Hf. reflexivity. Qed.



Ltac ld_all :=
  repeat first
    [ rewrite load_store_same
    | rewrite load_store_field by reflexivity
    | rewrite load_emit
    | rewrite load_memset by reflexivity ].



(** * Mapping memory *)

Lemma os_mmap_effect size alignment st :
  let ptr := hd 0 (mmap_results st) in
  let r := os_mmap size alignment 0 0 st in
  mem (snd r) = mem st /\
  mmap_results (snd r) = tl (mmap_results st) /\
  os_page_size (snd r) = os_page_size st /\
  (ptr = 0 -> fst (fst (fst r)) = 0) /\
  (ptr <> 0 -> alignment <> 0 ->
   fst (fst (fst r)) = mmap_aligned ptr alignment /\
   snd (fst r) = u64 (size + alignment)).
Proof.
  intros ptr r. subst r. unfold os_mmap, os_set_page_name. cbv zeta. fold ptr.
  destruct (Z.eqb_spec ptr 0) as [E|E].
  - cbn [fst snd]. repeat split; try reflexivity; intros; contradiction.
  - destruct (Z.eqb_spec alignment 0) as [Ea|Ea]; cbn [fst snd].
    + repeat split; try reflexivity; intros; contradiction.
    + repeat split; try reflexivity; try contradiction.
Qed.

Lemma mmap_aligned_span r :
  0 < r < 2 ^ 63 ->
  r <= mmap_aligned r SPAN_SIZE < r + SPAN_SIZE /\
  mmap_aligned r SPAN_SIZE mod SPAN_SIZE = 0.
Proof.
  intros Hr. unfold mmap_aligned, pointer_offset. cbv zeta.
  change (u64 (SPAN_SIZE - 1)) with (Z.ones 28). rewrite Z.land_ones by lia.
  change SPAN_SIZE with (2 ^ 28).
  pose proof (Z.mod_pos_bound r (2 ^ 28) ltac:(lia)) as Hm.
  pose proof (Z.div_mod r (2 ^ 28) ltac:(lia)) as Hdm.
  destruct (Z.eqb_spec (r mod 2 ^ 28) 0) as [E|E].
  - rewrite E, Z.add_0_r, u64_small by lia. split; [lia|exact E].
  - rewrite (u64_small (2 ^ 28 - r mod 2 ^ 28)) by lia.
    rewrite u64_small by lia. split; [lia|].
    replace (r + (2 ^ 28 - r mod 2 ^ 28)) with ((r / 2 ^ 28 + 1) * 2 ^ 28) by lia.
    apply Z.mod_mul. lia.
Qed.






Lemma span_allocate_page_placed st t span :
  span_ready st t span ->
  page_placed (snd (span_allocate_page span st)) t (fst (span_allocate_page span st)).
Proof.
  intros (Hplaced & Hsize & Hcount & Hinit).
  pose proof (page_size_of_range t) as Hps.
  assert (Hfr : frame place_keep st (snd (span_allocate_page span st))).
  { unfold span_allocate_page. cbv zeta. cbn [snd]. frame_auto. }
  assert (Hfst : fst (span_allocate_page span st)
                 = span + load st span span_page_initialized * page_size_of t
                 /\ (load st span span_page_initialized + 1) * page_size_of t <= SPAN_SIZE).
  { unfold span_allocate_page. cbv zeta. cbn [fst]. rewrite Hsize.
    destruct Hplaced as (Ht & Hs0 & Hs1 & Hal & Hty & Hsh).
    rewrite Hcount in Hinit. unfold SPAN_SIZE in *.
    assert (Hle : (load st span span_page_initialized + 1) * page_size_of t
                  <= 256 * 1024 * 1024).
    { pose proof (Z.mul_div_le (256 * 1024 * 1024) (page_size_of t) ltac:(lia)). nia. }
    split; [|exact Hle].
    rewrite u32_small by nia. unfold pointer_offset. rewrite u64_small by nia. lia. }
  destruct Hfst as [Hfst Hfit]. rewrite Hfst.
  exists span, (load st span span_page_initialized).
  split; [|split; [lia|split; [reflexivity|exact Hfit]]].
  destruct Hplaced as (Ht & Hs0 & Hs1 & Hal & Hty & Hsh).
  unfold span_placed. rewrite !(place_keep_frame _ _ Hfr) by reflexivity. auto 10.
Qed.


(** * Acquiring a page for a class *)


Lemma block_usable_size_frame st st' b :
  (forall a f, is_layout_field f = true -> load st' a f = load st a f) ->
  block_usable_size st' b = block_usable_size st b.
Proof.
  intros Hlay. unfold block_usable_size, span_get_page_from_block. cbv zeta.
  rewrite !(Hlay _ span_page_type), !(Hlay _ span_page_size_shift),
    !(Hlay _ span_mapped_size), !(Hlay _ page_block_size) by reflexivity.
  reflexivity.
Qed.

Lemma block_ops_touch_layout st st' :
  frame block_ops_touch st st' ->
  forall a f, is_layout_field f = true -> load st' a f = load st a f.
Proof. intros Hfr a f Hf. apply Hfr. unfold block_ops_touch. rewrite Hf. reflexivity. Qed.


(** * Huge blocks and the entry point *)



Lemma get_page_aligned_size_bounds st size :
  0 < os_page_size st -> 0 <= size -> size + os_page_size st <= 2 ^ 64 ->
  size <= get_page_aligned_size st size < size + os_page_size st.
Proof.
  intros Hps Hs Hfit. unfold get_page_aligned_size. cbv zeta.
  pose proof (Z.mod_pos_bound size (os_page_size st) Hps) as Hm.
  destruct (Z.eqb_spec (size mod os_page_size st) 0); [lia|].
  rewrite u64_small by lia. lia.
Qed.



(** * Consistency of a reached state *)








(** * Further properties of the size class table *)

(** X1.  Every entry of the size class table fits the page type that
    [get_page_type] gives its index: the block size is a positive
    multiple of the granularity within the limits of that page type, and
    the block count is the number of whole blocks behind the header of a
    page of that type. *)
Theorem size_class_table_page_type (c : Z) :
  0 <= c < SIZE_CLASS_COUNT ->
  let bs := class_block_size c in
  let t := get_page_type c in
  0 < bs /\ bs mod SMALL_GRANULARITY = 0 /\
  class_block_count c = (page_size_of t - PAGE_HEADER_SIZE) / bs /\
  (t = PAGE_SMALL /\ bs <= SMALL_BLOCK_SIZE_LIMIT \/
   t = PAGE_MEDIUM /\ SMALL_BLOCK_SIZE_LIMIT < bs <= MEDIUM_BLOCK_SIZE_LIMIT \/
   t = PAGE_LARGE /\ MEDIUM_BLOCK_SIZE_LIMIT < bs <= LARGE_BLOCK_SIZE_LIMIT).
Proof.
  intros Hc.
  assert (H : forallb
                (fun k =>
                   let c := Z.of_nat k in
                   let bs := class_block_size c in
                   let t := get_page_type c in
                   (0 <? bs) && (bs mod SMALL_GRANULARITY =? 0)
                   && (class_block_count c =? (page_size_of t - PAGE_HEADER_SIZE) / bs)
                   && (((t =? PAGE_SMALL) && (bs <=? SMALL_BLOCK_SIZE_LIMIT))
                       || ((t =? PAGE_MEDIUM) && (SMALL_BLOCK_SIZE_LIMIT <? bs)
                           && (bs <=? MEDIUM_BLOCK_SIZE_LIMIT))
                       || ((t =? PAGE_LARGE) && (MEDIUM_BLOCK_SIZE_LIMIT <? bs)
                           && (bs <=? LARGE_BLOCK_SIZE_LIMIT))))
                (seq 0 73) = true) by (vm_compute; reflexivity).
  rewrite forallb_forall in H.
  specialize (H (Z.to_nat c)). rewrite Z2Nat.id in H by lia.
  change SIZE_CLASS_COUNT with 73 in Hc.
  specialize (H ltac:(apply in_seq; lia)). cbv zeta in H |- *.
  repeat (apply andb_true_iff in H; destruct H as [H ?]).
  repeat match goal with
         | H : (_ <? _) = true |- _ => apply Z.ltb_lt in H
         | H : (_ =? _) = true |- _ => apply Z.eqb_eq in H
         end.
  split; [assumption|]. split; [assumption|]. split; [assumption|].
  match goal with H : (_ || _) = true |- _ => rename H into Hor end.
  apply orb_true_iff in Hor. destruct Hor as [Hor|Hor];
    [apply orb_true_iff in Hor; destruct Hor as [Hor|Hor]|];
    repeat (apply andb_true_iff in Hor; destruct Hor as [Hor ?]);
    repeat match goal with
           | H : (_ <? _) = true |- _ => apply Z.ltb_lt in H
           | H : (_ <=? _) = true |- _ => apply Z.leb_le in H
           | H : (_ =? _) = true |- _ => apply Z.eqb_eq in H
           end.
  - left. split; assumption.
  - right; left. split; [assumption|lia].
  - right; right. split; [assumption|lia].
Qed.

Lemma size_class_table_page_type_witness :
  0 <= 29 < SIZE_CLASS_COUNT /\
  class_block_size 29 = 5120 /\
  class_block_count 29 = (page_size_of (get_page_type 29) - PAGE_HEADER_SIZE) / 5120.
Proof.
  split; [vm_compute; split; [discriminate|reflexivity]|].
  split; [reflexivity|].
  exact (proj1 (proj2 (proj2 (size_class_table_page_type 29 ltac:(vm_compute; split; [discriminate|reflexivity]))))).
Defined.

(** The block count of a request above the linear range and the class
    computed from its three top bits. *)
Lemma get_size_class_of_count n :
  16 * SMALL_GRANULARITY < n < 2 ^ 64 ->
  let x := u64 (u64 (n + (SMALL_GRANULARITY - 1)) / SMALL_GRANULARITY - 1) in
  16 <= x < 2 ^ 64 /\
  get_size_class n = 4 * Z.log2 x + (x / 2 ^ (Z.log2 x - 2) - 4) + 1 /\
  (n + 31 < 2 ^ 64 -> x = (n + 31) / 32 - 1) /\
  (2 ^ 64 <= n + 31 -> x = 2 ^ 64 - 1).
Proof.
  change (16 * SMALL_GRANULARITY) with 512. intros Hn x.
  assert (Hx : 16 <= x < 2 ^ 64 /\ (n + 31 < 2 ^ 64 -> x = (n + 31) / 32 - 1) /\
               (2 ^ 64 <= n + 31 -> x = 2 ^ 64 - 1)).
  { subst x. change (SMALL_GRANULARITY - 1) with 31. change SMALL_GRANULARITY with 32.
    destruct (Z.lt_ge_cases (n + 31) (2 ^ 64)) as [Hlt|Hge].
    - rewrite (u64_small (n + 31)) by lia.
      assert (Hdm := Z.div_mod (n + 31) 32 ltac:(lia)).
      assert (Hmb := Z.mod_pos_bound (n + 31) 32 ltac:(lia)).
      rewrite u64_small by lia. repeat split; lia.
    - assert (E : u64 (n + 31) / 32 = 0).
      { apply Z.div_small. unfold u64.
        replace (n + 31) with ((n + 31 - 2 ^ 64) + 1 * 2 ^ 64) by lia.
        rewrite Z.mod_add by lia. rewrite Z.mod_small; lia. }
      rewrite E. change (u64 (0 - 1)) with (2 ^ 64 - 1). repeat split; lia. }
  destruct Hx as (Hx & Hx1 & Hx2). split; [exact Hx|]. split; [|split; assumption].
  unfold get_size_class. change (SMALL_GRANULARITY * 16) with 512.
  destruct (Z.leb_spec n 512); [lia|]. fold x.
  destruct (most_significant_bits x Hx) as (Hb & Hq & Hland & Hrange).
  set (b := Z.log2 x) in *. set (q := x / 2 ^ (b - 2)) in *.
  unfold rpmalloc_clz. destruct (Z.eqb_spec x 0); [lia|]. fold b.
  replace (63 - (63 - b)) with b by lia.
  rewrite (u32_small b) by lia. rewrite (u32_small (b - 2)) by lia.
  rewrite Hland. rewrite Z.shiftl_mul_pow2 by lia. change (2 ^ 2) with 4.
  rewrite (u32_small (q - 4)), (u32_small (b * 4)) by lia.
  rewrite (u32_small (b * 4 + (q - 4))) by lia. rewrite u32_small by lia. lia.
Qed.

(** The class computed from the top bits grows with the block count. *)
Lemma top_bits_monotone x y :
  16 <= x <= y -> y < 2 ^ 64 ->
  4 * Z.log2 x + x / 2 ^ (Z.log2 x - 2) <= 4 * Z.log2 y + y / 2 ^ (Z.log2 y - 2).
Proof.
  intros Hx Hy.
  destruct (most_significant_bits x ltac:(lia)) as (Hb & Hq & _ & Hr).
  destruct (most_significant_bits y ltac:(lia)) as (Hb' & Hq' & _ & Hr').
  set (b := Z.log2 x) in *. set (q := x / 2 ^ (b - 2)) in *.
  set (b' := Z.log2 y) in *. set (q' := y / 2 ^ (b' - 2)) in *.
  assert (Hbb : b <= b') by (apply Z.log2_le_mono; lia).
  destruct (Z.eq_dec b b') as [E|E].
  - assert (HP : 0 < 2 ^ (b - 2)) by (apply Z.pow_pos_nonneg; lia).
    enough (q <= q') by lia. subst q q'. rewrite <- E. apply Z.div_le_mono; lia.
  - lia.
Qed.

(** X2.  [get_size_class] is monotone: a larger request never gets a
    smaller class index, over the whole range of [size_t]. *)
Theorem get_size_class_monotone (n m : Z) :
  0 <= n <= m -> m < 2 ^ 64 -> get_size_class n <= get_size_class m.
Proof.
  intros Hn Hm.
  destruct (Z.le_gt_cases n (16 * SMALL_GRANULARITY)) as [Hnl|Hng].
  - destruct (get_size_class_linear n ltac:(lia)) as (En & _ & Hcn & Hbn).
    destruct (Z.le_gt_cases m (16 * SMALL_GRANULARITY)) as [Hml|Hmg].
    + destruct (get_size_class_linear m ltac:(lia)) as (Em & _ & Hcm & Hbm).
      rewrite En, Em. lia.
    + destruct (get_size_class_of_count m ltac:(lia)) as (Hx & Em & _).
      destruct (most_significant_bits _ Hx) as (Hb & Hq & _). cbv zeta in Hb, Hq.
      rewrite En, Em. lia.
  - destruct (get_size_class_of_count n ltac:(lia)) as (Hx & En & Hx1 & Hx2).
    destruct (get_size_class_of_count m ltac:(lia)) as (Hy & Em & Hy1 & Hy2).
    rewrite En, Em.
    set (x := u64 (u64 (n + (SMALL_GRANULARITY - 1)) / SMALL_GRANULARITY - 1)) in *.
    set (y := u64 (u64 (m + (SMALL_GRANULARITY - 1)) / SMALL_GRANULARITY - 1)) in *.
    assert (Hxy : x <= y).
    { destruct (Z.lt_ge_cases (m + 31) (2 ^ 64)) as [Hlt|Hge].
      - rewrite Hx1, Hy1 by lia.
        enough ((n + 31) / 32 <= (m + 31) / 32) by lia. apply Z.div_le_mono; lia.
      - rewrite (Hy2 Hge). lia. }
    pose proof (top_bits_monotone x y ltac:(lia) ltac:(lia)). lia.
Qed.

Lemma get_size_class_monotone_witness :
  0 <= 4096 <= 4097 /\ 4097 < 2 ^ 64 /\ get_size_class 4096 = 28 /\
  get_size_class 4097 = 29 /\ get_size_class 4096 <= get_size_class 4097.
Proof.
  split; [lia|]. split; [lia|]. split; [reflexivity|]. split; [reflexivity|].
  apply (get_size_class_monotone 4096 4097); lia.
Defined.

(** X3.  The block of the class chosen for a request wastes less than
    one granule for a request of the linear range and less than a
    quarter of the request above it. *)
Theorem get_size_class_waste (n : Z) :
  1 <= n <= LARGE_BLOCK_SIZE_LIMIT ->
  let bs := class_block_size (get_size_class n) in
  n <= bs /\
  (n <= 16 * SMALL_GRANULARITY -> bs < n + SMALL_GRANULARITY) /\
  (16 * SMALL_GRANULARITY < n -> 4 * bs < 5 * n).
Proof.
  change LARGE_BLOCK_SIZE_LIMIT with (2 ^ 23). change (16 * SMALL_GRANULARITY) with 512.
  change SMALL_GRANULARITY with 32.
  intros Hn bs. subst bs.
  destruct (Z.le_gt_cases n 512) as [Hl|Hg].
  - destruct (get_size_class_linear n) as (Ec & _ & Hc & Hb);
      [change (16 * SMALL_GRANULARITY) with 512; lia|].
    change SMALL_GRANULARITY with 32 in *.
    rewrite Ec. rewrite Z.max_l by lia. rewrite class_block_size_linear by lia. lia.
  - destruct (get_size_class_geometric n) as (x & b & s & Hc & Hb & Hs & Hx & Hn1 & Hn2);
      [change (16 * SMALL_GRANULARITY) with 512; lia|].
    assert (HP : 0 < 2 ^ (b - 2)) by (apply Z.pow_pos_nonneg; lia).
    assert (Hx59 : x < 2 ^ 59) by (destruct (Z.lt_ge_cases x (2 ^ 59)); [assumption|]; specialize (Hn2 ltac:(assumption)); lia).
    specialize (Hn1 Hx59).
    assert (Hb17 : b <= 17).
    { destruct (Z.le_gt_cases b 17) as [|Hb18]; [assumption|exfalso].
      assert (Hpow : 2 ^ 16 <= 2 ^ (b - 2)) by (apply Z.pow_le_mono_r; lia). nia. }
    destruct (class_block_size_geometric b s) as [E1 _]; [lia|lia|].
    rewrite Hc, E1. split; [nia|]. split; [lia|]. intros _. nia.
Qed.

Lemma get_size_class_waste_witness :
  1 <= 513 <= LARGE_BLOCK_SIZE_LIMIT /\
  class_block_size (get_size_class 513) = 640 /\
  4 * class_block_size (get_size_class 513) < 5 * 513.
Proof.
  split; [vm_compute; split; discriminate|]. split; [reflexivity|].
  apply (get_size_class_waste 513); vm_compute; [split; discriminate|reflexivity].
Defined.

(** X4.  [get_page_aligned_size] rounds up to the next multiple of the
    OS page size and leaves a multiple as it is. *)
Theorem get_page_aligned_size_multiple (st : state) (size : Z) :
  0 < os_page_size st -> 0 <= size -> size + os_page_size st <= 2 ^ 64 ->
  let r := get_page_aligned_size st size in
  r mod os_page_size st = 0 /\ size <= r < size + os_page_size st /\
  get_page_aligned_size st r = r.
Proof.
  intros Hps Hs Hfit r.
  assert (Hmod : r mod os_page_size st = 0).
  { subst r. unfold get_page_aligned_size. cbv zeta.
    pose proof (Z.mod_pos_bound size (os_page_size st) Hps) as Hm.
    destruct (Z.eqb_spec (size mod os_page_size st) 0) as [E|E]; [exact E|].
    rewrite u64_small by lia.
    replace (size + (os_page_size st - size mod os_page_size st))
      with (size - size mod os_page_size st + 1 * os_page_size st) by lia.
    rewrite Z.mod_add by lia.
    rewrite Zminus_mod, Z.mod_mod, Z.sub_diag by lia. apply Z.mod_0_l. lia. }
  split; [exact Hmod|]. split.
  - apply get_page_aligned_size_bounds; assumption.
  - unfold get_page_aligned_size at 1. cbv zeta. rewrite Hmod. reflexivity.
Qed.

Lemma get_page_aligned_size_multiple_witness :
  os_page_size (snd after_alloc_1) = 4096 /\
  get_page_aligned_size (snd after_alloc_1) 1304 mod os_page_size (snd after_alloc_1) = 0.
Proof.
  split; [reflexivity|].
  apply (get_page_aligned_size_multiple (snd after_alloc_1) 1304);
    [vm_compute; reflexivity | lia | vm_compute; discriminate].
Defined.

(** * Mapping and unmapping *)

Lemma land_low_bits ptr k :
  0 <= k < 64 -> Z.land ptr (u64 (2 ^ k - 1)) = ptr mod 2 ^ k.
Proof.
  intros Hk. assert (H : 0 < 2 ^ k < 2 ^ 64 + 1).
  { split; [apply Z.pow_pos_nonneg; lia|].
    enough (2 ^ k <= 2 ^ 63) by lia. apply Z.pow_le_mono_r; lia. }
  rewrite u64_small by lia. replace (2 ^ k - 1) with (Z.ones k).
  - apply Z.land_ones. lia.
  - rewrite Z.ones_equiv. lia.
Qed.

(** What [os_mmap] returns for an alignment that is a power of two. *)
Lemma os_mmap_power_of_two (size alignment offset mapped_size k : Z) (st : state) :
  0 <= k < 63 -> alignment = 2 ^ k ->
  let raw := hd 0 (mmap_results st) in
  let r := os_mmap size alignment offset mapped_size st in
  let ptr := fst (fst (fst r)) in
  trace (snd r)
  = trace st ++ ev_mmap (u64 (size + alignment))
                :: (if raw =? 0 then [] else [ev_set_page_name raw (u64 (size + alignment))]) /\
  mmap_results (snd r) = tl (mmap_results st) /\
  (raw = 0 -> ptr = 0 /\ snd (fst (fst r)) = offset /\ snd (fst r) = mapped_size) /\
  (0 < raw < 2 ^ 63 ->
   ptr mod alignment = 0 /\ raw <= ptr < raw + alignment /\
   snd (fst (fst r)) = ptr - raw /\ snd (fst r) = u64 (size + alignment)).
Proof.
  intros Hk Hal raw r ptr. subst r ptr. unfold os_mmap, os_set_page_name. cbv zeta. fold raw.
  assert (HP : 0 < 2 ^ k <= 2 ^ 62).
  { split; [apply Z.pow_pos_nonneg; lia|apply Z.pow_le_mono_r; lia]. }
  destruct (Z.eqb_spec raw 0) as [E|E].
  - cbn [fst snd]. split; [reflexivity|]. split; [reflexivity|].
    split; [intros _; repeat split; reflexivity|intros; lia].
  - destruct (Z.eqb_spec alignment 0) as [Ea|Ea]; [lia|]. cbn [fst snd].
    split; [rewrite !trace_emit, <- app_assoc; reflexivity|].
    split; [reflexivity|]. split; [intros; contradiction|].
    intros Hraw. subst alignment. rewrite land_low_bits by lia.
    pose proof (Z.mod_pos_bound raw (2 ^ k) ltac:(lia)) as Hm.
    pose proof (Z.div_mod raw (2 ^ k) ltac:(lia)) as Hdm.
    unfold pointer_offset.
    destruct (Z.eqb_spec (raw mod 2 ^ k) 0) as [E0|E0].
    + rewrite E0, Z.add_0_r, u64_small by lia.
      split; [exact E0|]. split; [lia|]. split; [lia|reflexivity].
    + rewrite (u64_small (2 ^ k - raw mod 2 ^ k)) by lia.
      rewrite (u64_small (raw + _)) by lia.
      split; [|split; [lia|split; [lia|reflexivity]]].
      replace (raw + (2 ^ k - raw mod 2 ^ k)) with ((raw / 2 ^ k + 1) * 2 ^ k) by lia.
      apply Z.mod_mul. lia.
Qed.

(** X5.  [os_mmap] calls [mmap] once, for [size + alignment] bytes,
    names the mapping when the call succeeded, and writes no allocator
    memory.  When the kernel refuses, it returns null and leaves both
    out parameters as they were.  With alignment 0 it returns the
    mapping itself and leaves [*offset] alone.  For an alignment that is
    a power of two the returned address is a multiple of the alignment
    less than [alignment] bytes into the mapping, and [*offset] is that
    distance.  On success [*mapped_size] is the size asked for. *)
Theorem os_mmap_aligned (size alignment offset mapped_size : Z) (st : state) :
  let raw := hd 0 (mmap_results st) in
  let r := os_mmap size alignment offset mapped_size st in
  let ptr := fst (fst (fst r)) in
  trace (snd r)
  = trace st ++ ev_mmap (u64 (size + alignment))
                :: (if raw =? 0 then [] else [ev_set_page_name raw (u64 (size + alignment))]) /\
  mmap_results (snd r) = tl (mmap_results st) /\
  mem (snd r) = mem st /\
  (raw = 0 -> ptr = 0 /\ snd (fst (fst r)) = offset /\ snd (fst r) = mapped_size) /\
  (raw <> 0 -> snd (fst r) = u64 (size + alignment)) /\
  (raw <> 0 -> alignment = 0 -> ptr = raw /\ snd (fst (fst r)) = offset) /\
  (forall k, 0 <= k < 63 -> alignment = 2 ^ k -> 0 < raw < 2 ^ 63 ->
        ptr mod alignment = 0 /\ raw <= ptr < raw + alignment /\
        snd (fst (fst r)) = ptr - raw).
Proof.
  intros raw r ptr.
  assert (Hbase : trace (snd r)
                  = trace st ++ ev_mmap (u64 (size + alignment))
                                :: (if raw =? 0 then []
                                    else [ev_set_page_name raw (u64 (size + alignment))]) /\
                  mmap_results (snd r) = tl (mmap_results st) /\ mem (snd r) = mem st /\
                  (raw = 0 -> ptr = 0 /\ snd (fst (fst r)) = offset /\
                              snd (fst r) = mapped_size) /\
                  (raw <> 0 -> snd (fst r) = u64 (size + alignment)) /\
                  (raw <> 0 -> alignment = 0 -> ptr = raw /\ snd (fst (fst r)) = offset)).
  { subst ptr r. unfold os_mmap, os_set_page_name. cbv zeta. fold raw.
    destruct (Z.eqb_spec raw 0) as [E|E]; cbn [fst snd].
    - split; [reflexivity|]. split; [reflexivity|]. split; [reflexivity|].
      split; [intros _; repeat split; reflexivity|]. split; intros; contradiction.
    - destruct (Z.eqb_spec alignment 0) as [Ea|Ea]; cbn [fst snd];
        (split; [rewrite !trace_emit, <- app_assoc; reflexivity|]);
        (split; [reflexivity|]); (split; [reflexivity|]);
        (split; [intros; contradiction|]); (split; [intros _; reflexivity|]).
      + intros _ _. split; reflexivity.
      + intros _ Hz. contradiction. }
  destruct Hbase as (H1 & H2 & H3 & H4 & H5 & H6).
  split; [exact H1|]. split; [exact H2|]. split; [exact H3|]. split; [exact H4|].
  split; [exact H5|]. split; [exact H6|].
  intros k Hk Hal Hraw.
  destruct (os_mmap_power_of_two size alignment offset mapped_size k st Hk Hal)
    as (_ & _ & _ & H).
  destruct (H Hraw) as (Hmod & Hrange & Hoff & _).
  split; [exact Hmod|]. split; [exact Hrange|exact Hoff].
Qed.

Lemma os_mmap_aligned_witness :
  let r := os_mmap 4096 SPAN_SIZE 0 0 fresh_process in
  fst (fst (fst r)) = 0x7f0010000000 /\ fst (fst (fst r)) mod SPAN_SIZE = 0 /\
  snd (fst (fst r)) = 0x7f0010000000 - 0x7f0000001000 /\
  trace (snd r) = [ev_mmap 268439552; ev_set_page_name 0x7f0000001000 268439552].
Proof.
  destruct (os_mmap_aligned 4096 SPAN_SIZE 0 0 fresh_process)
    as (Htr & _ & _ & _ & _ & _ & H).
  destruct (H 28 ltac:(lia) ltac:(reflexivity) ltac:(vm_compute; split; reflexivity))
    as (Hmod & _ & Hoff).
  split; [vm_compute; reflexivity|]. split; [exact Hmod|].
  split; [vm_compute; reflexivity|].
  rewrite Htr. vm_compute. reflexivity.
Defined.



(** * Address lookups *)

(** X7.  Every address inside a page of a span is resolved by the
    address masks to that span and to that page: [block_get_span] gives
    the span of the page, whose type is the page type, and
    [span_get_page_from_block] gives the page. *)
Theorem span_get_page_from_block_inside (st : state) (t page b : Z) :
  page_placed st t page ->
  page <= b < page + page_size_of t ->
  block_get_span b = page_get_span page /\
  load st (block_get_span b) span_page_type = t /\
  span_get_page_from_block st (block_get_span b) b = page.
Proof.
  intros Hplaced Hb.
  destruct (block_page_lookup st t page b Hplaced Hb) as [Hty Hpg].
  pose proof (page_size_of_range t) as Hps.
  destruct (block_page_lookup st t page page Hplaced ltac:(lia)) as [_ Hpg0].
  split; [|split; [exact Hty|exact Hpg]].
  destruct Hplaced as (span & j & (Ht & Hs0 & Hs1 & Hal & _) & Hj & Hpage & Hfit).
  unfold page_get_span. fold (block_get_span page).
  rewrite (block_get_span_inside span b), (block_get_span_inside span page);
    solve [reflexivity | lia | assumption | unfold SPAN_SIZE in *; nia].
Qed.

(** X8.  In a page whose block area fits the page, the block of index
    [k] lies [k] block sizes behind the header and its index is [k]
    again. *)
Theorem page_block_index_round_trip (st : state) (page k : Z) :
  page_geometry st page ->
  0 <= k < load st page page_block_count ->
  page_block st page k = page + PAGE_HEADER_SIZE + k * load st page page_block_size /\
  page_block_index st page (page_block st page k) = k /\
  page_block_realign st page (page_block st page k) = page_block st page k.
Proof.
  intros (Hp0 & Hp1 & Hbs & Hbc & Harea) Hk.
  change PAGE_HEADER_SIZE with 128 in *. change LARGE_PAGE_SIZE with (2 ^ 26) in Harea.
  change LARGE_BLOCK_SIZE_LIMIT with (2 ^ 23) in Hbs.
  set (bs := load st page page_block_size) in *.
  set (bc := load st page page_block_count) in *.
  assert (Hprod : 0 <= bs * k < bs * bc) by nia.
  assert (Hblock : page_block st page k = page + 128 + k * bs).
  { unfold page_block. change PAGE_HEADER_SIZE with 128. fold bs.
    rewrite (u32_small (bs * k)) by lia.
    rewrite u32_small by lia. unfold pointer_offset. rewrite u64_small by lia. lia. }
  assert (Hstart : page_block_start page = page + 128).
  { unfold page_block_start, pointer_offset. change PAGE_HEADER_SIZE with 128.
    apply u64_small. lia. }
  rewrite Hblock. split; [reflexivity|]. split.
  - unfold page_block_index, pointer_diff. cbv zeta. rewrite Hstart. fold bs.
    replace (page + 128 + k * bs - (page + 128)) with (k * bs) by lia.
    rewrite u32_small by lia. apply Z.div_mul. lia.
  - unfold page_block_realign, pointer_diff. cbv zeta. rewrite Hstart. fold bs.
    replace (page + 128 + k * bs - (page + 128)) with (k * bs) by lia.
    rewrite u32_small by lia. rewrite Z.mod_mul by lia.
    change (- s32 0) with 0. unfold pointer_offset. rewrite Z.add_0_r.
    apply u64_small. lia.
Qed.

Lemma span_get_page_from_block_inside_witness :
  let st := snd after_alloc_1 in
  let b := fst after_alloc_1 in
  b = 0x7f1010000080 /\
  span_get_page_from_block st (block_get_span b) b = 0x7f1010000000.
Proof.
  cbv zeta. split; [vm_compute; reflexivity|].
  apply (span_get_page_from_block_inside (snd after_alloc_1) PAGE_SMALL).
  - exists 0x7f1010000000, 0.
    split; [|split; [lia|split; [reflexivity|vm_compute; discriminate]]].
    unfold span_placed.
    split; [vm_compute; split; discriminate|].
    split; [reflexivity|]. split; [vm_compute; discriminate|].
    split; vm_compute; auto.
  - vm_compute. split; [discriminate|reflexivity].
Defined.

Lemma page_block_index_round_trip_witness :
  let st := snd after_alloc_1 in
  let page := 0x7f1010000000 in
  load st page page_block_size = 64 /\
  page_block st page 3 = page + PAGE_HEADER_SIZE + 3 * 64 /\
  page_block_index st page (page_block st page 3) = 3.
Proof.
  cbv zeta. split; [vm_compute; reflexivity|].
  destruct (page_block_index_round_trip (snd after_alloc_1) 0x7f1010000000 3) as (H1 & H2 & _).
  - unfold page_geometry.
    split; [lia|]. split; [vm_compute; discriminate|].
    split; [vm_compute; split; [reflexivity|discriminate]|].
    split; vm_compute; discriminate.
  - vm_compute. split; [discriminate|reflexivity].
  - split; [|exact H2]. rewrite H1. vm_compute. reflexivity.
Defined.

(** * Free and allocate on one page *)

(** X9.  A block freed to the local free list of a page is the block the
    next allocation from that list returns, and the two calls together
    leave the list head and both counters as they were. *)
Theorem page_local_free_round_trip (page block : Z) (st : state) :
  block <> 0 ->
  0 < load st page page_block_used < 2 ^ 32 ->
  0 <= load st page page_local_free_count < 2 ^ 32 - 1 ->
  let r := page_get_local_free_block page (page_put_local_free_block page block st) in
  fst r = block /\
  load (snd r) page page_local_free = load st page page_local_free /\
  load (snd r) page page_local_free_count = load st page page_local_free_count /\
  load (snd r) page page_block_used = load st page page_block_used.
Proof.
  intros Hb Hu Hc r. subst r.
  destruct (page_put_local_free_block_loads page block st) as (H1 & H2 & H3 & H4 & _).
  cbv zeta in H1, H2, H3, H4.
  set (st1 := page_put_local_free_block page block st) in *.
  unfold page_get_local_free_block. rewrite H1.
  destruct (Z.eqb_spec block 0); [contradiction|]. cbv zeta. cbn [fst snd].
  split; [reflexivity|]. ld. rewrite H2, H3, H4.
  rewrite (u32_small (load st page page_local_free_count + 1)) by lia.
  rewrite (u32_small (load st page page_block_used - 1)) by lia.
  rewrite !u32_small by lia.
  split; [reflexivity|]. split; f_equal; lia.
Qed.

Lemma page_local_free_round_trip_witness :
  let st := snd after_alloc_2 in
  let page := 0x7f1010000000 in
  let block := fst after_alloc_1 in
  fst (page_get_local_free_block page (page_put_local_free_block page block st)) = block.
Proof.
  cbv zeta.
  apply (page_local_free_round_trip 0x7f1010000000 (fst after_alloc_1) (snd after_alloc_2));
    vm_compute; try discriminate; split; try reflexivity; discriminate.
Defined.

(** X10.  A block pushed by another thread on the thread-free list of a
    page whose local list is empty is the block the owner takes next:
    [page_get_thread_free_block] adopts the list and returns its head,
    and the blocks pushed before it become the local free list. *)
Theorem page_thread_free_round_trip (st : state) (page block : Z) (lt : list Z) :
  page_accounting st page [] lt ->
  block_in_page st page block ->
  (block - page_block_start page) mod load st page page_block_size = 0 ->
  ~ In block lt ->
  thread_free_count st page < load st page page_block_used ->
  let r := page_get_thread_free_block page (page_put_thread_free_block page block st) in
  fst r = block /\ page_accounting (snd r) page lt [] /\
  load (snd r) page page_thread_free = 0.
Proof.
  intros Hacc Hin Hmod Hnin Hlive r. subst r.
  pose proof (page_put_thread_free_block_accounting st page block [] lt Hacc Hin Hmod
                ltac:(intros []) Hnin Hlive) as Hacc1.
  destruct (page_get_thread_free_block_accounting _ page (block :: lt) Hacc1) as [Hfst Hacc2].
  split; [exact Hfst|]. split; [exact Hacc2|].
  set (st1 := page_put_thread_free_block page block st) in *.
  rewrite page_get_thread_free_block_eq.
  assert (Hadopt : load (page_adopt_thread_free_block_list page st1) page page_thread_free = 0).
  { unfold page_adopt_thread_free_block_list. cbv zeta.
    destruct (Z.eqb_spec (load st1 page page_thread_free) 0) as [E|E]; [exact E|].
    destruct (page_block_from_thread_free_list _ _ _) as [list_count head]. ld. reflexivity. }
  unfold page_get_local_free_block.
  destruct (_ =? 0); cbn [snd]; [exact Hadopt|]. cbv zeta. ld. exact Hadopt.
Qed.

Lemma page_thread_free_round_trip_witness :
  let st := snd after_alloc_2 in
  let page := 0x7f1010000000 in
  let block := fst after_alloc_1 in
  fst (page_get_thread_free_block page (page_put_thread_free_block page block st)) = block.
Proof.
  cbv zeta.
  destruct (page_thread_free_round_trip (snd after_alloc_2) 0x7f1010000000
              (fst after_alloc_1) []) as (H & _).
  - unfold page_accounting. vm_compute. intuition discriminate.
  - vm_compute. intuition discriminate.
  - vm_compute. reflexivity.
  - intros [].
  - vm_compute. reflexivity.
  - exact H.
Defined.

(** * The fast list of the heap *)

(** X11.  [page_push_local_free_to_heap] hands the whole local free list
    of a page to the fast list of its heap for the class of the page:
    the list is the same chain of blocks, the page counts every block of
    it as used and its own list becomes empty, so the page accounting
    still holds.  With an empty local list nothing happens. *)
Theorem page_push_local_free_to_heap_accounting (st : state) (page : Z) (l lt : list Z) :
  page_accounting st page l lt ->
  let st' := page_push_local_free_to_heap page st in
  let heap := load st page page_heap in
  let c := load st page page_size_class in
  page_accounting st' page [] lt /\
  load st' page page_block_used = load st page page_block_used + Z.of_nat (length l) /\
  (l <> [] ->
   load st' heap (heap_local_free c) = load st page page_local_free /\
   free_chain st' (load st' heap (heap_local_free c)) l) /\
  (l = [] -> st' = st).
Proof.
  intros Hacc st' heap c.
  pose proof Hacc as (Heq & Hu & Hbi & Hbc & Hlfc & Hch & Htc & Htch & Htu).
  assert (Hlen : 0 <= Z.of_nat (length l)) by lia.
  subst st'. unfold page_push_local_free_to_heap.
  destruct (Z.eqb_spec (load st page page_local_free) 0) as [E|E].
  - rewrite E in Hch. apply free_chain_head_null in Hch. subst l.
    cbn [length] in *. split; [exact Hacc|]. split; [lia|].
    split; [intros H; contradiction|reflexivity].
  - cbv zeta. fold heap c.
    set (st' := store page page_local_free_count 0 _).
    assert (Hnext : forall a, load st' a block_next = load st a block_next)
      by (intros a; subst st'; ld; reflexivity).
    destruct (thread_free_view_eq st st' page) as [Hc Hh]; try (subst st'; ld; reflexivity).
    assert (Hused : load st' page page_block_used
                    = load st page page_block_used + Z.of_nat (length l)).
    { subst st'. ld. rewrite Hlfc. apply u32_small. lia. }
    split; [|split; [exact Hused|split]].
    + apply (page_accounting_transfer st st' page l lt [] lt Hacc); rewrite ?Hc, ?Hh.
      * subst st'; ld; reflexivity.
      * rewrite Hused. subst st'; ld. lia.
      * lia.
      * subst st'; ld. assumption.
      * subst st'; ld. reflexivity.
      * subst st'; ld. reflexivity.
      * assumption.
      * apply free_chain_frame with st; assumption.
      * lia.
    + intros _. assert (Hhead : load st' heap (heap_local_free c) = load st page page_local_free)
        by (subst st'; ld; reflexivity).
      split; [exact Hhead|]. rewrite Hhead.
      apply free_chain_frame with st; assumption.
    + intros ->. cbn [free_chain] in Hch. contradiction.
Qed.

Lemma page_push_local_free_to_heap_accounting_witness :
  let st := after_large_free in
  let page := 0x7f1010000000 in
  let heap := 0x7f0000001000 in
  load st heap (heap_local_free 72) = 0 /\
  load (page_push_local_free_to_heap page st) heap (heap_local_free 72) = 0x7f1010000080 /\
  load (page_push_local_free_to_heap page st) page page_block_used = 2.
Proof.
  cbv zeta. split; [vm_compute; reflexivity|].
  destruct (page_push_local_free_to_heap_accounting after_large_free 0x7f1010000000
              [0x7f1010000080] []) as (_ & Hused & Hlist & _).
  - unfold page_accounting. vm_compute. intuition discriminate.
  - cbv zeta in Hused, Hlist. destruct (Hlist ltac:(discriminate)) as [Hhead _].
    split.
    + change 0x7f0000001000 with (load after_large_free 0x7f1010000000 page_heap).
      change 72 with (load after_large_free 0x7f1010000000 page_size_class) at 1.
      rewrite Hhead. vm_compute. reflexivity.
    + rewrite Hused. vm_compute. reflexivity.
Defined.

(** X12.  [heap_pop_local_free] takes the blocks of a fast list in list
    order: it returns the head and leaves the rest of the chain as the
    list, writing nothing but the list head; on an empty list it returns
    null and leaves the state as it is. *)
Theorem heap_pop_local_free_chain (st : state) (heap c : Z) (l : list Z) :
  free_chain st (load st heap (heap_local_free c)) l ->
  let r := heap_pop_local_free heap c st in
  fst r = hd 0 l /\
  free_chain (snd r) (load (snd r) heap (heap_local_free c)) (tl l) /\
  (forall a f, f <> heap_local_free c -> load (snd r) a f = load st a f) /\
  trace (snd r) = trace st /\
  (l = [] -> snd r = st).
Proof.
  intros Hch r. subst r. unfold heap_pop_local_free. cbv zeta.
  destruct l as [|b l]; cbn [free_chain hd tl] in *.
  - rewrite Hch. cbn [Z.eqb negb fst snd]. repeat split; try reflexivity. exact Hch.
  - destruct Hch as (Hhead & Hb & Hch). rewrite Hhead.
    destruct (Z.eqb_spec b 0); [contradiction|]. cbn [negb fst snd].
    split; [reflexivity|]. split; [|split; [|split; [reflexivity|discriminate]]].
    + ld. apply free_chain_frame with st; [|exact Hch].
      intros a. ld. reflexivity.
    + intros a f Hf. apply load_store_field.
      destruct (field_eqb f (heap_local_free c)) eqn:E; [|reflexivity].
      apply field_eqb_eq in E. contradiction.
Qed.

Lemma heap_pop_local_free_chain_witness :
  let st := snd after_alloc_2 in
  let heap := 0x7f0000001000 in
  fst (heap_pop_local_free heap 2 st) = 0x7f1010000100 /\
  load (snd (heap_pop_local_free heap 2 st)) heap (heap_local_free 2) = 0x7f1010000140.
Proof.
  cbv zeta.
  destruct (heap_pop_local_free_chain (snd after_alloc_2) 0x7f0000001000 2
              (block_run 0x7f1010000100 64 60)) as (Hfst & Hchain & _).
  - vm_compute. repeat split; try reflexivity; discriminate.
  - cbv zeta in Hfst, Hchain. split; [exact Hfst|].
    destruct Hchain as (Hhead & _). exact Hhead.
Defined.

(** * Page list transitions *)

Lemma is_list_field_not_block f :
  is_list_field f = true -> is_block_field f = false.
Proof. destruct f; cbn; intros H; try discriminate H; reflexivity. Qed.

Lemma page_get_size_frame touched st st' page :
  touched page_page_type = false -> touched span_page_size = false ->
  frame touched st st' -> page_get_size st' page = page_get_size st page.
Proof.
  intros H1 H2 Hfr. unfold page_get_size. rewrite !(Hfr _ page_page_type) by exact H1.
  rewrite (Hfr _ span_page_size) by exact H2. reflexivity.
Qed.

(** The move of a page from the available list of its class to the free
    list of its page type. *)
Lemma page_available_to_free_loads page st :
  let heap := load st page page_heap in
  let c := load st page page_size_class in
  let t := load st page page_page_type in
  let head := load st heap (heap_page_free t) in
  let st' := page_available_to_free page st in
  load st' page page_is_free = 1 /\
  load st' heap (heap_page_free t) = page /\
  load st' page page_next = head /\
  (load st heap (heap_page_available c) = page ->
   load st' heap (heap_page_available c) = load st page page_next) /\
  (head = 0 -> trace st' = trace st) /\
  (head <> 0 ->
   load st' head page_is_decommitted = 1 /\
   trace st' = trace st ++ [ev_mdecommit (pointer_offset head (os_page_size st))
                                         (u64 (page_get_size st head - os_page_size st))]).
Proof.
  intros heap c t head st'. subst st'. unfold page_available_to_free. cbv zeta.
  fold heap c.
  match goal with
  | |- context [store page page_is_free 1 ?s0] => set (st2 := s0)
  end.
  assert (Hfr : forall a f, field_eqb f (heap_page_available c) = false ->
                       field_eqb f page_next = false -> field_eqb f page_prev = false ->
                       load st2 a f = load st a f).
  { intros a f H1 H2 H3. subst st2.
    destruct (_ =? page); [|destruct (_ =? 0)]; rewrite ?load_store_field by assumption;
      reflexivity. }
  assert (Htr : trace st2 = trace st /\ os_page_size st2 = os_page_size st).
  { subst st2. destruct (_ =? page); [|destruct (_ =? 0)]; split; reflexivity. }
  destruct Htr as [Htr Hps].
  assert (Hhead : load st heap (heap_page_available c) = page ->
                  load st2 heap (heap_page_available c) = load st page page_next).
  { intros E. subst st2. rewrite E, Z.eqb_refl. ld. reflexivity. }
  ld. rewrite !(Hfr _ page_page_type) by reflexivity. fold t.
  rewrite (Hfr _ (heap_page_free t)) by reflexivity. fold head.
  set (st5 := store heap (heap_page_free t) page _).
  assert (H5 : load st5 page page_is_free = 1 /\ load st5 heap (heap_page_free t) = page /\
               load st5 page page_next = head /\
               (load st heap (heap_page_available c) = page ->
                load st5 heap (heap_page_available c) = load st page page_next) /\
               trace st5 = trace st /\ os_page_size st5 = os_page_size st /\
               page_get_size st5 head = page_get_size st head).
  { subst st5. ld.
    split; [reflexivity|]. split; [reflexivity|]. split; [reflexivity|].
    split; [exact Hhead|]. split; [exact Htr|]. split; [exact Hps|].
    unfold page_get_size. ld. rewrite !(Hfr _ page_page_type), (Hfr _ span_page_size)
      by reflexivity. reflexivity. }
  destruct H5 as (H51 & H52 & H53 & H54 & H55 & H56 & H57).
  destruct (Z.eqb_spec head 0) as [E|E].
  - split; [exact H51|]. split; [exact H52|]. split; [exact H53|]. split; [exact H54|].
    split; [intros _; exact H55|intros; contradiction].
  - unfold page_decommit_memory_pages, memory_decommit, os_mdecommit. cbv zeta.
    rewrite H56, H57. ld.
    split; [exact H51|]. split; [exact H52|]. split; [exact H53|]. split; [exact H54|].
    split; [intros; contradiction|]. intros _. split; [reflexivity|].
    rewrite trace_store, trace_emit, H55. reflexivity.
Qed.

(** The move of a full page back to the head of the available list of
    its class. *)
Lemma page_full_to_available_loads page st :
  let heap := load st page page_heap in
  let c := load st page page_size_class in
  let head := load st heap (heap_page_available c) in
  let st' := page_full_to_available page st in
  load st' page page_is_full = 0 /\
  load st' heap (heap_page_available c) = page /\
  load st' page page_next = head /\
  (head <> 0 -> load st' head page_prev = page) /\
  trace st' = trace st.
Proof.
  intros heap c head st'. subst st'. unfold page_full_to_available. cbv zeta.
  fold heap c. ld. fold head.
  destruct (Z.eqb_spec head 0) as [E|E]; ld.
  - repeat split; try reflexivity. intros; contradiction.
  - repeat split; reflexivity.
Qed.

(** X13.  What a local free does to the lists of the heap.  When the
    last used block of a page is freed, the page is marked free and
    becomes the head of the free list of its page type, linked to the
    previous head; that previous head, if there is one, is decommitted,
    so the newest free page stays committed; and a page that headed the
    available list of its class is replaced there by its successor.
    When a block of a full page is freed, the page is unmarked and
    becomes the head of the available list of its class, in front of
    the previous head.  In every other case no list, no flag and no OS
    page changes. *)
Theorem page_put_local_free_block_transitions (page block : Z) (st : state) :
  let heap := load st page page_heap in
  let c := load st page page_size_class in
  let t := load st page page_page_type in
  let used := u32 (load st page page_block_used - 1) in
  let free_head := load st heap (heap_page_free t) in
  let available_head := load st heap (heap_page_available c) in
  let st' := page_put_local_free_block page block st in
  (used = 0 ->
   load st' page page_is_free = 1 /\
   load st' heap (heap_page_free t) = page /\
   load st' page page_next = free_head /\
   (available_head = page -> load st' heap (heap_page_available c) = load st page page_next) /\
   (free_head = 0 -> trace st' = trace st) /\
   (free_head <> 0 ->
    load st' free_head page_is_decommitted = 1 /\
    trace st' = trace st ++ [ev_mdecommit (pointer_offset free_head (os_page_size st))
                                          (u64 (page_get_size st free_head - os_page_size st))])) /\
  (used <> 0 -> load st page page_is_full <> 0 ->
   load st' page page_is_full = 0 /\
   load st' heap (heap_page_available c) = page /\
   load st' page page_next = available_head /\
   (available_head <> 0 -> load st' available_head page_prev = page) /\
   trace st' = trace st) /\
  (used <> 0 -> load st page page_is_full = 0 ->
   trace st' = trace st /\
   forall a f, is_list_field f = true -> load st' a f = load st a f).
Proof.
  intros heap c t used free_head available_head st'. subst st'.
  unfold page_put_local_free_block. cbv zeta.
  set (st1 := store page page_block_used _ _).
  assert (Hfr : frame is_block_field st st1).
  { subst st1. repeat (eapply frame_trans; [ | apply frame_store; reflexivity ]).
    apply frame_refl. }
  assert (Hused : load st1 page page_block_used = used) by (subst st1; ld; reflexivity).
  assert (Htr : trace st1 = trace st) by reflexivity.
  assert (Hps : os_page_size st1 = os_page_size st) by reflexivity.
  rewrite Hused, (Hfr _ page_is_full) by reflexivity.
  split; [|split].
  - intros E. rewrite E. cbn [Z.eqb].
    pose proof (page_available_to_free_loads page st1) as H. cbv zeta in H.
    rewrite Htr, Hps in H.
    rewrite (page_get_size_frame is_block_field st st1) in H by (reflexivity || exact Hfr).
    rewrite !(Hfr _ page_heap), !(Hfr _ page_page_type), !(Hfr _ page_size_class),
      !(Hfr _ page_next) in H by reflexivity.
    rewrite !(Hfr _ (heap_page_free _)), !(Hfr _ (heap_page_available _)) in H by reflexivity.
    exact H.
  - intros E Hfull. destruct (Z.eqb_spec used 0); [contradiction|].
    destruct (Z.eqb_spec (load st page page_is_full) 0); [contradiction|]. cbn [negb].
    pose proof (page_full_to_available_loads page st1) as H. cbv zeta in H.
    rewrite Htr in H.
    rewrite !(Hfr _ page_heap), !(Hfr _ page_size_class) in H by reflexivity.
    rewrite !(Hfr _ (heap_page_available _)) in H by reflexivity.
    exact H.
  - intros E Hfull. destruct (Z.eqb_spec used 0); [contradiction|].
    rewrite Hfull. cbn [Z.eqb negb]. split; [exact Htr|].
    intros a f Hf. apply Hfr. apply is_list_field_not_block. exact Hf.
Qed.

Lemma page_put_local_free_block_transitions_witness :
  let page := 0x7f1010000000 in
  let heap := 0x7f0000001000 in
  let block := 0x7f1010000080 in
  (load (snd after_filling_page) page page_is_full = 1 /\
   load (page_put_local_free_block page block (snd after_filling_page)) page page_is_full = 0 /\
   load (page_put_local_free_block page block (snd after_filling_page))
        heap (heap_page_available 72) = page) /\
  (load (snd (rpmalloc default_build thread_A (8 * 1024 * 1024) fresh_process))
        page page_block_used = 1 /\
   load after_page_freed page page_is_free = 1 /\
   load after_page_freed heap (heap_page_free PAGE_LARGE) = page).
Proof.
  cbv zeta. split.
  - split; [vm_compute; reflexivity|].
    pose proof (page_put_local_free_block_transitions 0x7f1010000000 0x7f1010000080
                  (snd after_filling_page)) as H.
    cbv zeta in H. destruct H as (_ & H & _).
    assert (Eh : load (snd after_filling_page) 0x7f1010000000 page_heap = 0x7f0000001000)
      by (vm_compute; reflexivity).
    assert (Ec : load (snd after_filling_page) 0x7f1010000000 page_size_class = 72)
      by (vm_compute; reflexivity).
    rewrite Eh, Ec in H.
    destruct H as (H1 & H2 & _).
    + vm_compute. discriminate.
    + vm_compute. discriminate.
    + split; [exact H1|exact H2].
  - split; [vm_compute; reflexivity|].
    split; vm_compute; reflexivity.
Defined.

(** * What an allocation from a page writes *)

Lemma page_get_local_free_block_block_frame page st :
  frame is_block_field st (snd (page_get_local_free_block page st)).
Proof. unfold page_get_local_free_block. cbv zeta. frame_auto. Qed.

Lemma page_adopt_thread_free_block_list_block_frame page st :
  frame is_block_field st (page_adopt_thread_free_block_list page st).
Proof.
  unfold page_adopt_thread_free_block_list. cbv zeta.
  destruct (_ =? 0); [apply frame_refl|].
  destruct (page_block_from_thread_free_list _ _ _) as [list_count block]. frame_auto.
Qed.

Lemma page_link_free_blocks_block_frame fuel :
  forall page memory_page_next max free last count st,
    frame is_block_field st
          (snd (page_link_free_blocks fuel page memory_page_next max free last count st)).
Proof.
  induction fuel as [|fuel IH]; intros; cbn [page_link_free_blocks].
  - apply frame_refl.
  - destruct (_ && _); [|apply frame_refl]. cbv zeta.
    eapply frame_trans; [|apply IH]. apply frame_store. reflexivity.
Qed.

Lemma page_initialize_blocks_block_frame page st :
  frame is_block_field st (snd (page_initialize_blocks page st)).
Proof.
  unfold page_initialize_blocks. cbv zeta.
  destruct (_ && _); [|frame_auto].
  match goal with
  | |- context [page_link_free_blocks ?fuel ?p ?n ?m ?f ?l ?c ?s] =>
      pose proof (page_link_free_blocks_block_frame fuel p n m f l c s) as Hloop;
      destruct (page_link_free_blocks fuel p n m f l c s) as [[last_block list_count] st2]
  end.
  cbn [snd] in Hloop.
  assert (Hpre : frame is_block_field st st2).
  { eapply frame_trans; [|exact Hloop]. frame_auto. }
  clear Hloop. destruct (list_count =? 0); cbn [snd]; [exact Hpre|].
  repeat (eapply frame_trans; [ | apply frame_store; reflexivity ]). exact Hpre.
Qed.

Lemma page_take_block_block_frame page st :
  frame is_block_field st (snd (page_take_block page st)).
Proof.
  unfold page_take_block.
  pose proof (page_get_local_free_block_block_frame page st) as H0.
  destruct (page_get_local_free_block page st) as [b0 s0]. cbn [snd] in H0.
  destruct (b0 =? 0); [|exact H0].
  rewrite page_get_thread_free_block_eq.
  pose proof (page_adopt_thread_free_block_list_block_frame page s0) as Ha.
  pose proof (page_get_local_free_block_block_frame
                page (page_adopt_thread_free_block_list page s0)) as H1.
  destruct (page_get_local_free_block page _) as [b1 s1]. cbn [snd] in H1.
  destruct (b1 =? 0); [|cbn [snd]; repeat (eapply frame_trans; [eassumption|]); apply frame_refl].
  pose proof (page_initialize_blocks_block_frame page s1) as H2.
  destruct (page_initialize_blocks page s1) as [b2 s2]. cbn [snd] in *.
  repeat (eapply frame_trans; [eassumption|]). apply frame_refl.
Qed.

Lemma page_push_local_free_to_heap_block_frame page st :
  frame is_block_field st (page_push_local_free_to_heap page st).
Proof. unfold page_push_local_free_to_heap. cbv zeta. frame_auto. Qed.

(** X14.  What [page_allocate_block] writes.  As long as the page does
    not become full, an allocation writes only the links in the blocks,
    the counters and free list heads of the page and the fast list of
    the heap: the page stays in its list and keeps its flags, owner and
    geometry.  When the allocation uses the last block of the page, the
    page is marked full and no longer zero, and a page that headed the
    available list of its class is replaced there by its successor. *)
Theorem page_allocate_block_full_transition (page zero : Z) (st : state) :
  let st' := snd (page_allocate_block page zero st) in
  let heap := load st page page_heap in
  let c := load st page page_size_class in
  (load st' page page_block_used <> load st' page page_block_count ->
   frame is_block_field st st') /\
  (load st' page page_block_used = load st' page page_block_count ->
   load st' page page_is_full = 1 /\ load st' page page_is_zero = 0 /\
   (load st page page_is_full = 0 -> load st heap (heap_page_available c) = page ->
    load st' heap (heap_page_available c) = load st page page_next)).
Proof.
  intros st' heap c. subst st'.
  pose proof (page_take_block_block_frame page st) as Htake.
  unfold page_allocate_block. fold (page_take_block page st).
  destruct (page_take_block page st) as [[block is_zero] st1]. cbn [snd] in Htake.
  cbv zeta.
  set (st2 := page_push_local_free_to_heap page st1).
  assert (H2 : frame is_block_field st st2).
  { eapply frame_trans; [exact Htake|]. apply page_push_local_free_to_heap_block_frame. }
  set (st3 := if load st2 page page_block_used =? load st2 page page_block_count
              then page_adopt_thread_free_block_list page st2 else st2).
  assert (H3 : frame is_block_field st st3).
  { subst st3. destruct (_ =? _); [|exact H2].
    eapply frame_trans; [exact H2|apply page_adopt_thread_free_block_list_block_frame]. }
  clearbody st3. clear Htake H2 st2 st1.
  match goal with
  | |- context [if negb (zero =? 0) && _ && _ then memset _ _ ?s else ?s] => set (st4 := s)
  end.
  assert (Hm : forall s, frame is_block_field s
                    (if negb (zero =? 0) && (is_zero =? 0) && negb (block =? 0)
                     then memset block (load s page page_block_size) s else s)).
  { intros s. destruct (_ && _); [apply frame_memset; reflexivity|apply frame_refl]. }
  assert (Hm' : forall s a f, field_eqb f block_next = false ->
                    load (if negb (zero =? 0) && (is_zero =? 0) && negb (block =? 0)
                          then memset block (load s page page_block_size) s else s) a f
                    = load s a f).
  { intros s a f Hf. destruct (_ && _); [apply load_memset; exact Hf|reflexivity]. }
  cbn [snd]. rewrite !(Hm' st4) by reflexivity.
  subst st4.
  destruct (Z.eqb_spec (load st3 page page_block_used) (load st3 page page_block_count))
    as [E|E].
  - match goal with
    | |- context [store page page_is_full 1 ?s] => set (st5 := s)
    end.
    assert (H5 : frame is_list_field st3 st5) by (subst st5; frame_auto).
    split.
    + intros Hne. exfalso. apply Hne. ld.
      rewrite (H5 _ page_block_used), (H5 _ page_block_count) by reflexivity. exact E.
    + intros _. ld. split; [reflexivity|]. split; [reflexivity|].
      intros Hfull Hhead. subst st5.
      rewrite (H3 _ page_is_full), Hfull by reflexivity. cbn [Z.eqb].
      rewrite !(H3 _ page_heap), !(H3 _ page_size_class) by reflexivity. fold heap c.
      rewrite (H3 _ (heap_page_available c)), Hhead, Z.eqb_refl by reflexivity.
      ld. apply H3. reflexivity.
  - split.
    + intros _. eapply frame_trans; [exact H3|apply Hm].
    + intros Heq. contradiction.
Qed.

Lemma page_allocate_block_full_transition_witness :
  let page := 0x7f1010000000 in
  let st6 := snd (alloc_blocks 6 thread_A (8 * 1024 * 1024) fresh_process) in
  frame is_block_field (snd after_alloc_2) (snd (page_allocate_block page 0 (snd after_alloc_2))) /\
  load st6 page page_is_full = 0 /\
  load (snd (page_allocate_block page 0 st6)) page page_is_full = 1.
Proof.
  cbv zeta. split; [|split; [vm_compute; reflexivity|]].
  - destruct (page_allocate_block_full_transition 0x7f1010000000 0 (snd after_alloc_2))
      as (H & _).
    apply H. vm_compute. discriminate.
  - destruct (page_allocate_block_full_transition 0x7f1010000000 0
                (snd (alloc_blocks 6 thread_A (8 * 1024 * 1024) fresh_process)))
      as (_ & H).
    destruct H as (H1 & _); [vm_compute; reflexivity|exact H1].
Defined.

(** * Reallocation in place and its failures *)

(** X15.  Reallocating a class-backed block to a size that its page's
    block size holds never allocates: the result is the origin of the
    block, memory and the kernel are left alone, and the only effect is
    the [memmove] of the contents to the origin when the pointer was
    inside the block and NO_PRESERVE is not set. *)
Theorem heap_reallocate_block_in_place (tid heap block size old_size flags : Z) (st : state) :
  block <> 0 -> block_is_class_backed st block = true ->
  size <= load st (block_page st block) page_block_size ->
  let origin := block_origin st block in
  let old := realloc_old_size st block old_size in
  let r := heap_reallocate_block tid heap block size old_size flags st in
  fst r = origin /\
  mem (snd r) = mem st /\ mmap_results (snd r) = mmap_results st /\
  (block = origin \/ Z.land flags RPMALLOC_NO_PRESERVE <> 0 -> snd r = st) /\
  (block <> origin -> Z.land flags RPMALLOC_NO_PRESERVE = 0 ->
   snd r = emit (ev_memmove origin block old) st).
Proof.
  intros Hb Hclass Hfit origin old r. subst r origin old.
  unfold heap_reallocate_block, realloc_old_size.
  destruct (Z.eqb_spec block 0) as [|_]; [contradiction|]. cbn [negb].
  rewrite Hclass. unfold block_is_class_backed in Hclass. rewrite Hclass.
  fold (block_page st block). cbv zeta. fold (block_origin st block).
  destruct (Z.leb_spec size (load st (block_page st block) page_block_size)); [|lia].
  set (old := if old_size =? 0 then _ else old_size).
  destruct (Z.eqb_spec block (block_origin st block)) as [E|E]; cbn [negb andb fst snd].
  - split; [reflexivity|]. split; [reflexivity|]. split; [reflexivity|].
    split; [reflexivity|intros Hne; contradiction].
  - destruct (Z.eqb_spec (Z.land flags RPMALLOC_NO_PRESERVE) 0) as [F|F]; cbn [fst snd].
    + split; [reflexivity|]. split; [reflexivity|]. split; [reflexivity|].
      split; [intros [Hc|Hc]; contradiction|reflexivity].
    + split; [reflexivity|]. split; [reflexivity|]. split; [reflexivity|].
      split; [reflexivity|intros; contradiction].
Qed.

Lemma heap_reallocate_block_in_place_witness :
  let p := fst after_alloc_1 in
  let st := snd after_alloc_2 in
  heap_reallocate_block thread_A (get_thread_heap thread_A st) (p + 16) 40 0 0 st
  = (p, emit (ev_memmove p (p + 16) 48) st).
Proof.
  cbv zeta.
  destruct (heap_reallocate_block_in_place thread_A (get_thread_heap thread_A (snd after_alloc_2))
              (fst after_alloc_1 + 16) 40 0 0 (snd after_alloc_2))
    as (H1 & _ & _ & _ & H2).
  - vm_compute. discriminate.
  - vm_compute. reflexivity.
  - vm_compute. discriminate.
  - cbv zeta in H1, H2.
    specialize (H2 ltac:(vm_compute; discriminate) ltac:(vm_compute; reflexivity)).
    rewrite (surjective_pairing (heap_reallocate_block _ _ _ _ _ _ _)).
    rewrite H1, H2.
    assert (Eo : block_origin (snd after_alloc_2) (fst after_alloc_1 + 16) = fst after_alloc_1)
      by (vm_compute; reflexivity).
    assert (Es : realloc_old_size (snd after_alloc_2) (fst after_alloc_1 + 16) 0 = 48)
      by (vm_compute; reflexivity).
    rewrite Eo, Es. reflexivity.
Defined.

(** X16.  When [heap_reallocate_block] has to move a block and the new
    allocation fails, it returns null and does not release the old
    block: the state is the one the failed allocation left.  With
    GROW_OR_FAIL it returns null without trying, also for a null block.
    With a null block and no flag it is an allocation of the requested
    size, so [rprealloc] of a null pointer is [rpmalloc]. *)
Theorem heap_reallocate_block_failure (cfg : build)
        (tid heap block size old_size flags : Z) (st : state) :
  realloc_fits_in_place st block size = false ->
  let old := realloc_old_size st block old_size in
  let a := heap_allocate_block tid heap (heap_reallocate_new_size size old) 0 st in
  let r := heap_reallocate_block tid heap block size old_size flags st in
  (Z.land flags RPMALLOC_GROW_OR_FAIL <> 0 -> r = (0, st)) /\
  (Z.land flags RPMALLOC_GROW_OR_FAIL = 0 -> fst a = 0 -> r = (0, snd a)) /\
  (Z.land flags RPMALLOC_GROW_OR_FAIL = 0 -> block = 0 ->
   r = heap_allocate_block tid heap size 0 st) /\
  rprealloc cfg tid 0 size st = rpmalloc cfg tid size st.
Proof.
  intros Hfit old a r. subst r.
  rewrite heap_reallocate_block_moves by exact Hfit. fold old.
  split; [|split; [|split]].
  - intros Hflag. destruct (Z.eqb_spec (Z.land flags RPMALLOC_GROW_OR_FAIL) 0);
      [contradiction|reflexivity].
  - intros Hflag Hnull. rewrite Hflag. cbn [Z.eqb negb]. cbv zeta.
    unfold realloc_move. fold a. destruct a as [nb s1]. cbn [fst snd] in *.
    subst nb. reflexivity.
  - intros Hflag ->. rewrite Hflag. cbn [Z.eqb negb]. cbv zeta.
    subst old. unfold realloc_old_size, realloc_move. cbn [Z.eqb].
    assert (E : heap_reallocate_new_size size 0 = size).
    { unfold heap_reallocate_new_size. cbn. destruct (0 <? size); reflexivity. }
    rewrite E. destruct (heap_allocate_block tid heap size 0 st) as [nb s1].
    rewrite orb_true_r. reflexivity.
  - unfold rprealloc, rpmalloc.
    destruct (ENABLE_VALIDATE_ARGS cfg && (MAX_ALLOC_SIZE cfg <=? size)); [reflexivity|].
    cbv zeta.
    assert (E : heap_reallocate_new_size size 0 = size).
    { unfold heap_reallocate_new_size. cbn. destruct (0 <? size); reflexivity. }
    unfold heap_reallocate_block. change (negb (0 =? 0)) with false. cbv iota beta.
    change (negb (Z.land 0 RPMALLOC_GROW_OR_FAIL =? 0)) with false. cbv iota zeta.
    rewrite E.
    destruct (heap_allocate_block tid (get_thread_heap tid st) size 0 st) as [nb s1].
    rewrite andb_false_r. reflexivity.
Qed.

Lemma heap_reallocate_block_failure_witness :
  let p := fst after_first_alloc in
  let st := snd after_first_alloc in
  let heap := get_thread_heap thread_A st in
  realloc_fits_in_place st p (16 * 1024 * 1024) = false /\
  mmap_results st = [] /\
  fst (heap_reallocate_block thread_A heap p (16 * 1024 * 1024) 0 0 st) = 0 /\
  trace (snd (heap_reallocate_block thread_A heap p (16 * 1024 * 1024) 0 0 st))
  = trace st ++ [ev_mmap 285216768].
Proof.
  cbv zeta.
  assert (Hfit : realloc_fits_in_place (snd after_first_alloc) (fst after_first_alloc)
                   (16 * 1024 * 1024) = false) by (vm_compute; reflexivity).
  split; [exact Hfit|]. split; [vm_compute; reflexivity|].
  destruct (heap_reallocate_block_failure default_build thread_A
              (get_thread_heap thread_A (snd after_first_alloc))
              (fst after_first_alloc) (16 * 1024 * 1024) 0 0 (snd after_first_alloc) Hfit)
    as (_ & H & _).
  cbv zeta in H. rewrite H; [|reflexivity|vm_compute; reflexivity].
  split; vm_compute; reflexivity.
Defined.

(** X17.  [heap_reallocate_block_aligned] with an alignment above the
    granularity keeps the block, when it holds the size, is aligned and
    is not more than twice too large (or GROW_OR_FAIL is set), and then
    changes nothing.  Otherwise the old block is released also when
    null is returned: with GROW_OR_FAIL nothing is allocated, null is
    returned and the old block has been deallocated; when the aligned
    allocation fails, as it does with EINVAL for an alignment of 256 KiB
    or more, null is returned and the old block has been deallocated as
    well.  When the allocation succeeds and NO_PRESERVE is set, the old
    block is deallocated without a copy.  When it succeeds for a
    class-backed block whose old size was passed as 0, what the old
    block holds behind the pointer, or the new size if that is less, is
    copied before the old block is deallocated. *)
Theorem heap_reallocate_block_aligned_release (cfg : build)
        (tid heap block alignment size old_size flags : Z) (st : state) :
  SMALL_GRANULARITY < alignment -> block <> 0 ->
  let usable := block_usable_size st block in
  let no_alloc := negb (Z.land flags RPMALLOC_GROW_OR_FAIL =? 0) in
  let kept := (size <=? usable) && (Z.land block (u64 (alignment - 1)) =? 0)
              && (no_alloc || (usable / 2 <=? size)) in
  let a := heap_allocate_block_aligned cfg tid heap alignment size 0 st in
  let r := heap_reallocate_block_aligned cfg tid heap block alignment size old_size flags st in
  (kept = true -> r = (block, st)) /\
  (kept = false -> no_alloc = true -> r = (0, block_deallocate tid block st)) /\
  (kept = false -> no_alloc = false -> fst a = 0 ->
   r = (0, block_deallocate tid block (snd a))) /\
  (kept = false -> no_alloc = false -> MAX_ALIGNMENT <= alignment ->
   r = (0, block_deallocate tid block (set_errno tid EINVAL st))) /\
  (kept = false -> no_alloc = false -> fst a <> 0 ->
   Z.land flags RPMALLOC_NO_PRESERVE <> 0 ->
   r = (fst a, block_deallocate tid block (snd a))) /\
  (kept = false -> no_alloc = false -> fst a <> 0 ->
   Z.land flags RPMALLOC_NO_PRESERVE = 0 ->
   old_size = 0 -> block_is_class_backed st block = true ->
   r = (fst a,
        block_deallocate tid block
          (emit (ev_memcpy (fst a) block (if usable <? size then usable else size))
                (snd a)))).
Proof.
  intros Hal Hb usable no_alloc kept a r. subst r.
  unfold heap_reallocate_block_aligned.
  destruct (Z.leb_spec alignment SMALL_GRANULARITY); [lia|].
  destruct (Z.eqb_spec block 0) as [|_]; [contradiction|].
  cbv zeta. fold usable. fold no_alloc. fold kept. fold a. cbn [negb].
  destruct kept.
  - split; [reflexivity|]. repeat split; intros; discriminate.
  - split; [intros; discriminate|].
    split; [intros _ ->; cbn [Z.eqb negb andb]; reflexivity|].
    split.
    { intros _ -> Ha. destruct a as [nb s1]. cbn [fst snd] in *. subst nb.
      cbn [Z.eqb negb andb]. reflexivity. }
    split.
    { intros _ -> Hmax.
      assert (E : a = (0, set_errno tid EINVAL st)).
      { subst a. unfold heap_allocate_block_aligned.
        destruct (Z.leb_spec alignment SMALL_GRANULARITY); [lia|].
        destruct (_ && _); [reflexivity|]. destruct (_ && _); [reflexivity|].
        destruct (Z.leb_spec MAX_ALIGNMENT alignment); [reflexivity|lia]. }
      rewrite E. cbn [Z.eqb negb andb]. reflexivity. }
    split.
    { intros _ -> Ha Hnp. destruct a as [nb s1]. cbn [fst snd] in *.
      destruct (Z.eqb_spec nb 0); [contradiction|].
      destruct (Z.eqb_spec (Z.land flags RPMALLOC_NO_PRESERVE) 0); [contradiction|].
      cbn [negb andb]. reflexivity. }
    intros _ -> Ha Hp -> _. destruct a as [nb s1]. cbn [fst snd] in *.
    destruct (Z.eqb_spec nb 0); [contradiction|]. rewrite Hp.
    cbn [Z.eqb negb andb]. reflexivity.
Qed.

Lemma heap_reallocate_block_aligned_release_witness :
  let p := fst after_alloc_1 in
  let st := snd after_alloc_2 in
  let heap := get_thread_heap thread_A st in
  block_usable_size st p = 64 /\
  heap_reallocate_block_aligned default_build thread_A heap p 64 100 0 RPMALLOC_GROW_OR_FAIL st
  = (0, block_deallocate thread_A p st) /\
  fst (heap_reallocate_block_aligned default_build thread_A heap p 64 100 0 0 st)
  = 0x7f1010010080 /\
  trace (snd (heap_reallocate_block_aligned default_build thread_A heap p 64 100 0 0 st))
  = trace st ++ [ev_memcpy 0x7f1010010080 p 64].
Proof.
  cbv zeta. split; [vm_compute; reflexivity|].
  destruct (heap_reallocate_block_aligned_release default_build thread_A
              (get_thread_heap thread_A (snd after_alloc_2)) (fst after_alloc_1)
              64 100 0 RPMALLOC_GROW_OR_FAIL (snd after_alloc_2))
    as (_ & H & _).
  - vm_compute. reflexivity.
  - vm_compute. discriminate.
  - split; [apply H; vm_compute; reflexivity|].
    destruct (heap_reallocate_block_aligned_release default_build thread_A
                (get_thread_heap thread_A (snd after_alloc_2)) (fst after_alloc_1)
                64 100 0 0 (snd after_alloc_2))
      as (_ & _ & _ & _ & _ & H').
    + vm_compute. reflexivity.
    + vm_compute. discriminate.
    + assert (E := H' ltac:(vm_compute; reflexivity) ltac:(vm_compute; reflexivity)
                      ltac:(vm_compute; discriminate) ltac:(vm_compute; reflexivity)
                      ltac:(reflexivity) ltac:(vm_compute; reflexivity)).
      clear H H'. cbv zeta in E.
      split.
      * etransitivity; [exact (f_equal fst E)|]. vm_compute. reflexivity.
      * etransitivity; [exact (f_equal (fun x => trace (snd x)) E)|]. vm_compute. reflexivity.
Defined.

(** * Aligned allocation *)

(** X18.  For a power of two alignment above the granularity and below
    256 KiB, [heap_allocate_block_aligned] allocates
    [size + alignment] bytes and returns the block itself when it is
    aligned (or null), and otherwise the next multiple of the alignment
    above it, less than [alignment] bytes further, so that [size] bytes
    still lie within the allocation; the page found for the moved
    pointer is then marked as holding an aligned block.  An alignment of
    256 KiB or more is refused with EINVAL and nothing is allocated. *)
Theorem heap_allocate_block_aligned_result (cfg : build)
        (tid heap alignment size zero k : Z) (st : state) :
  5 < k -> alignment = 2 ^ k ->
  0 <= size -> size + alignment < 2 ^ 64 ->
  let a := heap_allocate_block tid heap (u64 (size + alignment)) zero st in
  let r := heap_allocate_block_aligned cfg tid heap alignment size zero st in
  (MAX_ALIGNMENT <= alignment -> r = (0, set_errno tid EINVAL st)) /\
  (alignment < MAX_ALIGNMENT -> 0 <= fst a -> fst a + alignment < 2 ^ 64 ->
   fst r mod alignment = 0 /\
   fst a <= fst r < fst a + alignment /\
   (fst a mod alignment = 0 -> r = a) /\
   (fst a mod alignment <> 0 ->
    snd r = store (block_page (snd a) (fst r)) page_has_aligned_block 1 (snd a))).
Proof.
  intros Hk Hal Hs Hov a r. subst r.
  assert (Hk63 : k < 64).
  { destruct (Z.lt_ge_cases k 64) as [|Hge]; [assumption|exfalso].
    assert (2 ^ 64 <= 2 ^ k) by (apply Z.pow_le_mono_r; lia). lia. }
  assert (HP : 2 ^ 6 <= 2 ^ k) by (apply Z.pow_le_mono_r; lia).
  unfold heap_allocate_block_aligned. change SMALL_GRANULARITY with 32.
  destruct (Z.leb_spec alignment 32); [lia|].
  assert (V1 : (u64 (size + alignment) <? size) = false).
  { rewrite u64_small by lia. apply Z.ltb_ge. lia. }
  assert (V2 : Z.land alignment (u64 (alignment - 1)) = 0).
  { subst alignment. rewrite land_low_bits by lia. apply Z.mod_same. lia. }
  rewrite V1, V2. cbn [Z.eqb negb]. rewrite !andb_false_r.
  split.
  - intros Hmax. destruct (Z.leb_spec MAX_ALIGNMENT alignment); [reflexivity|lia].
  - intros Hmax Ha0 Ha1. destruct (Z.leb_spec MAX_ALIGNMENT alignment); [lia|].
    cbv zeta. fold a. destruct a as [b s1]. cbn [fst snd] in *.
    subst alignment. rewrite land_low_bits by lia.
    pose proof (Z.mod_pos_bound b (2 ^ k) ltac:(lia)) as Hm.
    pose proof (Z.div_mod b (2 ^ k) ltac:(lia)) as Hdm.
    destruct (Z.eqb_spec (b mod 2 ^ k) 0) as [E|E]; cbn [negb fst snd].
    + split; [exact E|]. split; [lia|]. split; [reflexivity|intros; contradiction].
    + assert (Hup : u64 (Z.land b (u64 (Z.lnot (u64 (2 ^ k - 1)))) + 2 ^ k)
                    = (b / 2 ^ k + 1) * 2 ^ k).
      { rewrite (u64_small (2 ^ k - 1)) by lia.
        replace (2 ^ k - 1) with (Z.ones k) by (rewrite Z.ones_equiv; lia).
        assert (Hl : Z.land b (u64 (Z.lnot (Z.ones k))) = b / 2 ^ k * 2 ^ k).
        { unfold u64. rewrite <- (Z.land_ones _ 64) by lia.
          rewrite Z.land_assoc, (Z.land_comm b), <- Z.land_assoc.
          rewrite (Z.land_ones b 64) by lia. rewrite (Z.mod_small b) by lia.
          rewrite Z.land_comm.
          rewrite <- Z.ldiff_land.
          rewrite Z.ldiff_ones_r by lia.
          rewrite Z.shiftl_mul_pow2, Z.shiftr_div_pow2 by lia. reflexivity. }
        rewrite Hl. rewrite u64_small by lia. lia. }
      rewrite Hup. fold (block_page s1 ((b / 2 ^ k + 1) * 2 ^ k)).
      split; [apply Z.mod_mul; lia|]. split; [lia|].
      split; [intros; contradiction|reflexivity].
Qed.

Lemma heap_allocate_block_aligned_result_witness :
  let st := snd after_alloc_2 in
  let heap := get_thread_heap thread_A st in
  let a := heap_allocate_block thread_A heap (u64 (100 + 256)) 0 st in
  let r := heap_allocate_block_aligned default_build thread_A heap 256 100 0 st in
  fst a = 0x7f1010010080 /\ fst r = 0x7f1010010100 /\ fst r mod 256 = 0.
Proof.
  cbv zeta.
  destruct (heap_allocate_block_aligned_result default_build thread_A
              (get_thread_heap thread_A (snd after_alloc_2)) 256 100 0 8 (snd after_alloc_2)
              ltac:(lia) ltac:(reflexivity) ltac:(lia) ltac:(lia)) as (_ & H).
  destruct H as (Hmod & _).
  - vm_compute. reflexivity.
  - vm_compute. discriminate.
  - vm_compute. reflexivity.
  - split; [vm_compute; reflexivity|]. split; [vm_compute; reflexivity|exact Hmod].
Defined.

(** * Heaps and threads *)

(** X19.  The queue of released heaps is a stack: the heap released
    last is the one the next [heap_allocate] adopts, for the adopting
    thread, and the pair of calls maps nothing and leaves the queue as
    it was before the release. *)
Theorem heap_release_allocate_reuse (tid tid' heap : Z) (st : state) :
  heap <> 0 ->
  let st1 := heap_release tid heap st in
  let r := heap_allocate tid' 0 st1 in
  global_heap_queue st1 = heap /\
  load st1 heap heap_next = global_heap_queue st /\
  fst r = heap /\
  global_heap_queue (snd r) = global_heap_queue st /\
  load (snd r) heap heap_owner_thread = tid' /\
  load (snd r) heap heap_next = 0 /\
  global_heap_lock (snd r) = 0 /\
  trace (snd r) = trace st /\ mmap_results (snd r) = mmap_results st.
Proof.
  intros Hh st1 r. subst r st1.
  unfold heap_allocate, heap_release, heap_lock_acquire, heap_lock_release. cbv zeta.
  cbn [Z.eqb global_heap_queue with_global_heap_queue with_global_heap_lock].
  destruct (Z.eqb_spec heap 0) as [|_]; [contradiction|].
  split; [reflexivity|]. split; [apply load_store_same|].
  destruct (Z.eqb_spec heap 0) as [|_]; [contradiction|]. cbn [fst snd].
  split; [reflexivity|]. split; [|split; [|split; [|split; [|split]]]].
  - cbn. rewrite Z.eqb_refl. reflexivity.
  - ld. reflexivity.
  - ld. reflexivity.
  - reflexivity.
  - reflexivity.
  - reflexivity.
Qed.

Lemma heap_release_allocate_reuse_witness :
  let st := snd after_alloc_2 in
  let heap := get_thread_heap thread_A st in
  heap = 0x7f0000001000 /\
  fst (heap_allocate thread_B 0 (heap_release thread_A heap st)) = heap /\
  load (snd (heap_allocate thread_B 0 (heap_release thread_A heap st))) heap heap_owner_thread
  = thread_B.
Proof.
  cbv zeta. split; [vm_compute; reflexivity|].
  destruct (heap_release_allocate_reuse thread_A thread_B
              (get_thread_heap thread_A (snd after_alloc_2)) (snd after_alloc_2)
              ltac:(vm_compute; discriminate)) as (_ & _ & H1 & _ & H2 & _).
  split; [exact H1|exact H2].
Defined.

(** X20.  [rpmalloc_thread_finalize] detaches the thread from its heap:
    afterwards the thread counts as not initialized, its heap heads the
    queue of released heaps in front of the heaps released before, and
    the next thread that needs a heap gets this one without any
    mapping.  No other thread's heap pointer changes, and a thread that
    never got a heap of its own leaves the state as it is. *)
Theorem rpmalloc_thread_finalize_releases (tid tid' release_caches : Z) (st : state) :
  let heap := get_thread_heap tid st in
  let st' := rpmalloc_thread_finalize tid release_caches st in
  rpmalloc_is_thread_initialized tid st' = 0 /\
  (forall t, t <> tid -> get_thread_heap t st' = get_thread_heap t st) /\
  (heap = global_heap_default st -> st' = st) /\
  (heap <> global_heap_default st ->
   global_heap_queue st' = heap /\
   trace st' = trace st /\
   (heap <> 0 ->
    load st' heap heap_next = global_heap_queue st /\
    fst (get_thread_heap_allocate tid' st') = heap /\
    get_thread_heap tid' (snd (get_thread_heap_allocate tid' st')) = heap /\
    mmap_results (snd (get_thread_heap_allocate tid' st')) = mmap_results st)).
Proof.
  intros heap st'. subst st'. unfold rpmalloc_thread_finalize. fold heap.
  destruct (Z.eqb_spec heap (global_heap_default st)) as [E|E]; cbn [negb].
  - split; [|split; [reflexivity|split; [reflexivity|intros; contradiction]]].
    unfold rpmalloc_is_thread_initialized. fold heap. rewrite E, Z.eqb_refl. reflexivity.
  - unfold set_thread_heap. cbv zeta.
    set (st1 := if global_heap_default st =? 0 then _ else _).
    assert (H1 : global_thread_heap st1 tid = global_heap_default st /\
                 (forall t, t <> tid -> global_thread_heap st1 t = global_thread_heap st t) /\
                 global_heap_default st1 = global_heap_default st /\
                 global_heap_queue st1 = global_heap_queue st /\
                 trace st1 = trace st /\ mmap_results st1 = mmap_results st).
    { subst st1. destruct (_ =? 0); cbn; rewrite Z.eqb_refl;
        (split; [reflexivity|]); (split; [|repeat split; reflexivity]);
        intros t Ht; destruct (Z.eqb_spec t tid); [contradiction|reflexivity
                                                  |contradiction|reflexivity]. }
    destruct H1 as (Ht & Hot & Hd & Hq & Htr & Hmm). clearbody st1.
    split; [|split; [|split; [intros; contradiction|]]].
    + unfold rpmalloc_is_thread_initialized, get_thread_heap, heap_release,
        heap_lock_acquire, heap_lock_release. cbn. rewrite Ht, Hd, Z.eqb_refl. reflexivity.
    + intros t Hne. unfold get_thread_heap, heap_release, heap_lock_acquire, heap_lock_release.
      cbn. apply Hot. exact Hne.
    + intros _. split; [reflexivity|]. split; [exact Htr|]. intros Hnz.
      unfold heap_release, heap_lock_acquire, heap_lock_release. cbv zeta.
      cbn [global_heap_queue with_global_heap_queue with_global_heap_lock].
      split; [unfold load; cbn; rewrite Z.eqb_refl; exact Hq|].
      unfold get_thread_heap_allocate, heap_allocate, heap_lock_acquire, heap_lock_release.
      cbv zeta. cbn [Z.eqb global_heap_queue with_global_heap_queue with_global_heap_lock].
      destruct (Z.eqb_spec heap 0) as [|_]; [contradiction|].
      destruct (Z.eqb_spec heap 0) as [|_]; [contradiction|]. cbn [fst snd].
      split; [reflexivity|]. unfold set_thread_heap. cbv zeta.
      destruct (Z.eqb_spec heap 0) as [|_]; [contradiction|].
      split; [|exact Hmm].
      unfold get_thread_heap. cbn. rewrite Z.eqb_refl. reflexivity.
Qed.

Lemma rpmalloc_thread_finalize_releases_witness :
  let st := snd after_alloc_2 in
  let st' := rpmalloc_thread_finalize thread_A 0 st in
  rpmalloc_is_thread_initialized thread_A st = 1 /\
  rpmalloc_is_thread_initialized thread_A st' = 0 /\
  fst (get_thread_heap_allocate thread_B st') = 0x7f0000001000.
Proof.
  cbv zeta. split; [vm_compute; reflexivity|].
  destruct (rpmalloc_thread_finalize_releases thread_A thread_B 0 (snd after_alloc_2))
    as (H0 & _ & _ & H).
  split; [exact H0|].
  destruct H as (_ & _ & H); [vm_compute; discriminate|].
  destruct H as (_ & H & _); [vm_compute; discriminate|].
  rewrite H. vm_compute. reflexivity.
Defined.

(** X21.  [rpmalloc_initialize] always returns 0, writes no memory and
    maps nothing.  The first call installs the memory interface and
    reads the page size of the system; a call while the allocator is
    initialized changes nothing, so calling it twice is calling it
    once; after [rpmalloc_finalize] the next call reads the page size
    again. *)
Theorem rpmalloc_initialize_idempotent (st : state) :
  let r := rpmalloc_initialize st in
  fst r = 0 /\
  mem (snd r) = mem st /\ trace (snd r) = trace st /\
  mmap_results (snd r) = mmap_results st /\
  global_memory_interface (snd r) <> 0 /\
  (global_memory_interface st = 0 ->
   os_page_size (snd r) = sysconf_pagesize st /\
   os_map_granularity (snd r) = sysconf_pagesize st) /\
  (global_memory_interface st <> 0 -> snd r = st) /\
  rpmalloc_initialize (snd r) = r /\
  os_page_size (snd (rpmalloc_initialize (rpmalloc_finalize (snd r)))) = sysconf_pagesize st.
Proof.
  intros r. subst r. unfold rpmalloc_initialize, rpmalloc_finalize.
  destruct (Z.eqb_spec (global_memory_interface st) 0) as [E|E]; cbn [negb fst snd].
  - cbn. split; [reflexivity|]. split; [reflexivity|]. split; [reflexivity|].
    split; [reflexivity|]. split; [discriminate|]. split; [intros _; split; reflexivity|].
    split; [intros Hne; contradiction|]. split; reflexivity.
  - destruct (Z.eqb_spec (global_memory_interface st) 0) as [|_]; [contradiction|].
    cbn. split; [reflexivity|]. split; [reflexivity|]. split; [reflexivity|].
    split; [reflexivity|]. split; [exact E|]. split; [intros Heq; contradiction|].
    split; [reflexivity|]. split; reflexivity.
Qed.

(** * Reusing a free page *)

Lemma mmap_results_store ptr f v st : mmap_results (store ptr f v st) = mmap_results st.
Proof. reflexivity. Qed.

Lemma mmap_results_emit e st : mmap_results (emit e st) = mmap_results st.
Proof. reflexivity. Qed.

Lemma os_page_size_emit e st : os_page_size (emit e st) = os_page_size st.
Proof. reflexivity. Qed.

Lemma mmap_results_memset address size st :
  mmap_results (memset address size st) = mmap_results st.
Proof. reflexivity. Qed.

Lemma trace_memset address size st :
  trace (memset address size st) = trace st ++ [ev_memset address size].
Proof. reflexivity. Qed.

Lemma heap_make_free_page_available_reset heap c page st0 st :
  load st heap (heap_page_available c) = 0 ->
  (forall a f, is_heap_field f = false -> load st a f = load st0 a f) ->
  load st heap heap_owner_thread = load st0 heap heap_owner_thread ->
  mmap_results st = mmap_results st0 -> trace st = trace st0 ->
  os_page_size st = os_page_size st0 ->
  page_reset_for st0 (heap_make_free_page_available heap c page st) heap c page.
Proof.
  intros Hhead Hsame Hown Hmm Htr Hps.
  unfold heap_make_free_page_available. cbv zeta. ld. rewrite Hhead. cbn [Z.eqb].
  ld. rewrite (Hsame _ page_is_decommitted) by reflexivity.
  unfold page_reset_for.
  destruct (Z.eqb_spec (load st0 page page_is_decommitted) 0) as [E|E].
  - ld. rewrite Hown, !(Hsame _ page_is_decommitted), !(Hsame _ page_is_zero) by reflexivity.
    rewrite !mmap_results_store, !trace_store, Hmm, Htr.
    do 17 (split; [first [assumption|reflexivity]|]).
    split; [|intros; contradiction].
    intros _. split; reflexivity.
  - unfold page_commit_memory_pages, memory_commit, os_mcommit. cbv zeta.
    ld_all. rewrite Hown.
    repeat first [rewrite mmap_results_store | rewrite mmap_results_emit
                 | rewrite mmap_results_memset].
    repeat first [rewrite trace_store | rewrite trace_emit | rewrite trace_memset].
    repeat first [rewrite os_page_size_store | rewrite os_page_size_emit].
    unfold page_get_size. ld.
    rewrite !(Hsame _ page_page_type), (Hsame _ span_page_size) by reflexivity.
    rewrite Hmm, Htr, Hps, <- !app_assoc. cbn [app].
    do 17 (split; [reflexivity|]).
    split; [intros; contradiction|].
    intros _. split; reflexivity.
Qed.

Lemma heap_make_free_page_available_free_lists heap c page t st :
  load (heap_make_free_page_available heap c page st) heap (heap_page_free t)
  = load st heap (heap_page_free t) /\
  load (heap_make_free_page_available heap c page st) heap (heap_page_free_thread t)
  = load st heap (heap_page_free_thread t).
Proof.
  unfold heap_make_free_page_available. cbv zeta.
  unfold page_commit_memory_pages, memory_commit, os_mcommit. cbv zeta.
  repeat match goal with
         | |- context [if ?c then _ else _] => destruct c
         end; ld_all; split; reflexivity.
Qed.

(** X22.  [heap_get_page] reuses free pages before it takes a new page
    from a span.  With no available page of the class, the head of the
    free list of the page type is taken: the list advances to its
    successor, and the page is set up anew for the class as the only
    available page, with the geometry of the class, empty free lists,
    zero counters, cleared flags and the owner of the heap.  With the
    free list empty as well, the pages freed by other threads are taken
    over: their head is set up in the same way and the pages behind it
    become the free list.  Nothing is mapped; a page that had been
    decommitted is committed again, its first OS page is cleared behind
    the header and it is marked zero. *)
Theorem heap_get_page_reuses_free_page (tid heap c : Z) (st : state) :
  load st heap (heap_page_available c) = 0 ->
  let t := get_page_type c in
  let r := heap_get_page tid heap c st in
  (load st heap (heap_page_free t) <> 0 ->
   fst r = load st heap (heap_page_free t) /\
   load (snd r) heap (heap_page_free t) = load st (fst r) page_next /\
   load (snd r) heap (heap_page_free_thread t) = load st heap (heap_page_free_thread t) /\
   page_reset_for st (snd r) heap c (fst r)) /\
  (load st heap (heap_page_free t) = 0 -> load st heap (heap_page_free_thread t) <> 0 ->
   fst r = load st heap (heap_page_free_thread t) /\
   load (snd r) heap (heap_page_free t) = load st (fst r) page_next /\
   load (snd r) heap (heap_page_free_thread t) = 0 /\
   page_reset_for st (snd r) heap c (fst r)).
Proof.
  intros Havail t r. subst r. unfold heap_get_page. cbv zeta. fold t.
  rewrite Havail. cbn [Z.eqb negb].
  split.
  - intros Hfree.
    destruct (Z.eqb_spec (load st heap (heap_page_free t)) 0) as [|_]; [contradiction|].
    cbn [negb fst snd].
    set (page := load st heap (heap_page_free t)).
    set (st1 := store heap (heap_page_free t) (load st page page_next) st).
    destruct (heap_make_free_page_available_free_lists heap c page t st1) as [H1 H2].
    split; [reflexivity|]. split; [|split].
    + rewrite H1. subst st1. ld. reflexivity.
    + rewrite H2. subst st1. ld. reflexivity.
    + apply heap_make_free_page_available_reset.
      * subst st1. ld. exact Havail.
      * intros a f Hf. subst st1. apply load_store_field.
        destruct f; try discriminate Hf; reflexivity.
      * subst st1. ld. reflexivity.
      * reflexivity.
      * reflexivity.
      * reflexivity.
  - intros Hfree Hmt. rewrite Hfree. cbn [Z.eqb negb].
    destruct (Z.eqb_spec (load st heap (heap_page_free_thread t)) 0) as [|_]; [contradiction|].
    cbn [negb fst snd].
    set (page := load st heap (heap_page_free_thread t)).
    ld.
    set (st1 := store heap (heap_page_free t) (load st page page_next)
                      (store heap (heap_page_free_thread t) 0 st)).
    destruct (heap_make_free_page_available_free_lists heap c page t st1) as [H1 H2].
    split; [reflexivity|]. split; [|split].
    + rewrite H1. subst st1. ld. reflexivity.
    + rewrite H2. subst st1. ld. reflexivity.
    + apply heap_make_free_page_available_reset.
      * subst st1. ld. exact Havail.
      * intros a f Hf. subst st1. rewrite !load_store_field; [reflexivity| |];
          destruct f; try discriminate Hf; reflexivity.
      * subst st1. ld. reflexivity.
      * reflexivity.
      * reflexivity.
      * reflexivity.
Qed.

Lemma heap_get_page_reuses_free_page_witness :
  let heap := 0x7f0000001000 in
  let r := heap_get_page thread_A heap 60 after_page_freed in
  load after_page_freed 0x7f1010000000 page_block_size = 8 * 1024 * 1024 /\
  fst r = 0x7f1010000000 /\
  load (snd r) (fst r) page_block_size = class_block_size 60 /\
  load (snd r) heap (heap_page_free PAGE_LARGE) = 0.
Proof.
  cbv zeta. split; [vm_compute; reflexivity|].
  destruct (heap_get_page_reuses_free_page thread_A 0x7f0000001000 60 after_page_freed)
    as (H & _); [vm_compute; reflexivity|].
  destruct H as (H1 & H2 & _ & H4); [vm_compute; discriminate|].
  destruct H4 as (_ & _ & Hbs & _).
  split; [rewrite H1; vm_compute; reflexivity|]. split; [exact Hbs|].
  change PAGE_LARGE with (get_page_type 60). rewrite H2, H1. vm_compute. reflexivity.
Defined.

(** * Taking a page from a span *)

(** X23.  [span_allocate_page] hands out the pages of a span in address
    order: the page returned is the one behind the pages initialized so
    far, the count of initialized pages goes up by one, and the page
    gets the page type of the span, the heap of the span and that
    heap's owner, and is marked zero.  With the last page the span
    leaves the partial slot of the heap and becomes the head of its
    list of used spans, in front of the previous head; before that no
    field of any heap changes. *)
Theorem span_allocate_page_spec (st : state) (t span : Z) :
  span_ready st t span ->
  let heap := load st span page_heap in
  let n := load st span span_page_initialized in
  let r := span_allocate_page span st in
  fst r = span + n * page_size_of t /\
  page_placed (snd r) t (fst r) /\
  load (snd r) span span_page_initialized = n + 1 /\
  load (snd r) (fst r) page_page_type = t /\
  load (snd r) (fst r) page_is_zero = 1 /\
  load (snd r) (fst r) page_heap = heap /\
  load (snd r) (fst r) page_owner_thread = load st heap heap_owner_thread /\
  trace (snd r) = trace st /\
  (n + 1 = load st span span_page_count ->
   load (snd r) heap (heap_span_partial t) = 0 /\
   load (snd r) heap (heap_span_used t) = span /\
   load (snd r) span span_next = load st heap (heap_span_used t)) /\
  (n + 1 <> load st span span_page_count ->
   forall a f, is_heap_field f = true -> load (snd r) a f = load st a f).
Proof.
  intros Hready heap n r.
  pose proof (span_allocate_page_placed st t span Hready) as Hplaced. fold r in Hplaced.
  destruct Hready as ((Ht & Hs0 & Hs1 & Hal & Hty & Hsh) & Hsize & Hcount & Hinit).
  pose proof (page_size_of_range t) as Hps. fold n in Hinit.
  assert (Hle : (n + 1) * page_size_of t <= SPAN_SIZE).
  { rewrite Hcount in Hinit.
    pose proof (Z.mul_div_le SPAN_SIZE (page_size_of t) ltac:(lia)). nia. }
  assert (Hcnt : load st span span_page_count <= 2 ^ 12).
  { rewrite Hcount. apply Z.div_le_upper_bound; [lia|]. unfold SPAN_SIZE. lia. }
  unfold SPAN_SIZE in *.
  assert (Hpage : fst r = span + n * page_size_of t).
  { subst r. unfold span_allocate_page. cbv zeta. cbn [fst]. rewrite Hsize. fold n.
    rewrite u32_small by nia. unfold pointer_offset. rewrite u64_small by nia. lia. }
  split; [exact Hpage|]. split; [exact Hplaced|]. clear Hpage Hplaced.
  subst r. unfold span_allocate_page. cbv zeta. cbn [fst snd].
  fold heap n.
  set (page := pointer_offset span (u32 (load st span span_page_size * n))).
  ld. rewrite Hty.
  rewrite (u32_small (n + 1)) by lia.
  match goal with
  | |- context [if ?c then ?a else ?b] => set (st5 := b); set (stf := if c then a else b)
  end.
  assert (H5 : load st5 span span_page_initialized = n + 1 /\
               load st5 page page_page_type = t /\ load st5 page page_is_zero = 1 /\
               load st5 page page_heap = heap /\
               load st5 page page_owner_thread = load st heap heap_owner_thread /\
               forall a f, is_heap_field f = true -> load st5 a f = load st a f).
  { subst st5. ld. repeat split; try reflexivity.
    intros a f Hf. rewrite !load_store_field; try reflexivity;
      destruct f; try discriminate Hf; reflexivity. }
  destruct H5 as (H51 & H52 & H53 & H54 & H55 & H56).
  destruct (Z.eqb_spec (n + 1) (load st span span_page_count)) as [E|E]; subst stf.
  - clear H51 H52 H53 H54 H55 H56.
    destruct (Z.eqb_spec (load st heap (heap_span_used t)) 0) as [Eu|Eu];
      subst st5; ld; rewrite ?Hty; ld;
      (split; [reflexivity|]); (split; [reflexivity|]); (split; [reflexivity|]);
      (split; [reflexivity|]); (split; [reflexivity|]); (split; [reflexivity|]);
      (split; [|intros; contradiction]); intros _; repeat split; reflexivity.
  - split; [exact H51|]. split; [exact H52|]. split; [exact H53|]. split; [exact H54|].
    split; [exact H55|]. split; [reflexivity|].
    split; [intros; contradiction|]. intros _. exact H56.
Qed.

Lemma span_allocate_page_spec_witness :
  let st := snd after_alloc_1 in
  let span := 0x7f1010000000 in
  load st span span_page_initialized = 1 /\
  fst (span_allocate_page span st) = span + 65536 /\
  load (snd (span_allocate_page span st)) span span_page_initialized = 2.
Proof.
  cbv zeta. split; [vm_compute; reflexivity|].
  destruct (span_allocate_page_spec (snd after_alloc_1) PAGE_SMALL 0x7f1010000000)
    as (H1 & _ & H3 & _).
  - unfold span_ready, span_placed.
    split; [|vm_compute; intuition discriminate].
    split; [vm_compute; split; discriminate|].
    split; [reflexivity|]. split; [vm_compute; discriminate|].
    split; vm_compute; auto.
  - cbv zeta in H1, H3. split.
    + rewrite H1. vm_compute. reflexivity.
    + rewrite H3. vm_compute. reflexivity.
Defined.

(** * Deallocation and the layout *)

Lemma page_laid_out_bounds st c page :
  0 <= c < SIZE_CLASS_COUNT -> page_laid_out st c page ->
  0 < page /\ page + page_size_of (get_page_type c) <= 2 ^ 64 /\
  32 <= load st page page_block_size <= 2 ^ 23 /\
  7 <= load st page page_block_count <= 2047 /\
  PAGE_HEADER_SIZE + load st page page_block_size * load st page page_block_count
  <= page_size_of (get_page_type c).
Proof.
  intros Hc (Hplaced & Hbs & Hbc).
  pose proof (class_block_area c Hc) as Harea.
  pose proof (class_block_size_pos c Hc) as Hpos.
  pose proof (class_block_count_range c Hc) as Hcnt.
  pose proof (page_size_of_range (get_page_type c)) as Hps.
  rewrite Hbs, Hbc.
  destruct Hplaced as (span & j & (Ht & Hs0 & Hs1 & Hal & Hty & Hsh) & Hj & Hp & Hfit).
  unfold SPAN_SIZE in *. repeat split; try lia; nia.
Qed.

(** What the two ways of returning a block to its page leave alone. *)
Lemma page_put_block_effect page block st :
  (forall put, put = page_put_local_free_block \/ put = page_put_thread_free_block ->
   let st' := put page block st in
   frame block_ops_touch st st' /\
   mmap_results st' = mmap_results st /\
   (forall a, a <> block -> load st' a block_next = load st a block_next) /\
   (trace st' = trace st \/ exists a n, trace st' = trace st ++ [ev_mdecommit a n])).
Proof.
  assert (Hdec : forall p s,
             frame is_list_field s (page_decommit_memory_pages p s) /\
             mmap_results (page_decommit_memory_pages p s) = mmap_results s /\
             exists a n, trace (page_decommit_memory_pages p s) = trace s ++ [ev_mdecommit a n]).
  { intros p s. split; [apply page_decommit_memory_pages_frame|].
    unfold page_decommit_memory_pages, memory_decommit, os_mdecommit. cbv zeta.
    split; [reflexivity|]. eexists. eexists. rewrite trace_store, trace_emit. reflexivity. }
  assert (Hkeep : forall s s', frame is_list_field s s' ->
                    frame block_ops_touch s s' /\
                    forall a, load s' a block_next = load s a block_next).
  { intros s s' H. split.
    - apply (frame_weaken is_list_field); [|exact H].
      intros f Hf. destruct f; try discriminate Hf; reflexivity.
    - intros a. apply H. reflexivity. }
  intros put [-> | ->] st'; subst st'.
  - unfold page_put_local_free_block. cbv zeta.
    match goal with
    | |- context [if ?c1 then page_available_to_free _ ?s1
                  else if ?c2 then page_full_to_available _ ?s1 else ?s1] =>
        set (st1 := s1)
    end.
    assert (H1 : frame block_ops_touch st st1)
      by (subst st1; repeat (eapply frame_trans; [ | apply frame_store; reflexivity ]);
          apply frame_refl).
    assert (Hm1 : mmap_results st1 = mmap_results st) by reflexivity.
    assert (Ht1 : trace st1 = trace st) by (subst st1; rewrite !trace_store; reflexivity).
    assert (Hn1 : forall a, a <> block -> load st1 a block_next = load st a block_next).
    { intros a Ha. subst st1. ld. rewrite load_store_addr by exact Ha. reflexivity. }
    clearbody st1.
    assert (Hgoal : forall s',
               frame is_list_field st1 s' -> mmap_results s' = mmap_results st1 ->
               (trace s' = trace st1 \/ exists a n, trace s' = trace st1 ++ [ev_mdecommit a n]) ->
               frame block_ops_touch st s' /\ mmap_results s' = mmap_results st /\
               (forall a, a <> block -> load s' a block_next = load st a block_next) /\
               (trace s' = trace st \/ exists a n, trace s' = trace st ++ [ev_mdecommit a n])).
    { intros s' Hf Hm Ht. destruct (Hkeep _ _ Hf) as [Hb Hn].
      split; [eapply frame_trans; eassumption|]. split; [congruence|].
      split; [intros a Ha; rewrite Hn; apply Hn1; exact Ha|].
      rewrite <- Ht1. exact Ht. }
    destruct (_ =? 0); [|destruct (negb _)].
    + apply Hgoal; [apply page_available_to_free_frame| |].
      * unfold page_available_to_free. cbv zeta.
        match goal with
        | |- context [if ?c then ?s else page_decommit_memory_pages ?p ?s] =>
            assert (Hs : mmap_results s = mmap_results st1);
            [|destruct c; [exact Hs|rewrite (proj1 (proj2 (Hdec p s))); exact Hs]]
        end.
        repeat match goal with
               | |- context [if ?c then _ else _] => destruct c
               end; reflexivity.
      * unfold page_available_to_free. cbv zeta.
        match goal with
        | |- context [if ?c then ?s else page_decommit_memory_pages ?p ?s] =>
            assert (Hs : trace s = trace st1);
            [|destruct c; [left; exact Hs|
                           right; destruct (proj2 (proj2 (Hdec p s))) as (a & n & E);
                           exists a, n; rewrite E, Hs; reflexivity]]
        end.
        rewrite !trace_store.
        repeat match goal with
               | |- context [if ?c then _ else _] => destruct c
               end; rewrite ?trace_store; reflexivity.
    + apply Hgoal; [apply page_full_to_available_frame| |left].
      * unfold page_full_to_available. cbv zeta. destruct (_ =? 0); reflexivity.
      * unfold page_full_to_available. cbv zeta.
        destruct (_ =? 0); rewrite !trace_store; reflexivity.
    + apply Hgoal; [apply frame_refl|reflexivity|left; reflexivity].
  - destruct (page_put_thread_free_block_loads page block st) as (_ & _ & Hl).
    split.
    { intros a f Hf. apply Hl; destruct f; try discriminate Hf; reflexivity. }
    unfold page_put_thread_free_block.
    destruct (page_block_from_thread_free_list st page (load st page page_thread_free))
      as [prev_count prev_head]. cbv zeta.
    match goal with
    | |- context [if ?c1 then ?s else if ?c2 then ?t else ?s] => set (st1 := s)
    end.
    assert (Hm1 : mmap_results st1 = mmap_results st) by reflexivity.
    assert (Ht1 : trace st1 = trace st) by (subst st1; rewrite !trace_store; reflexivity).
    assert (Hn1 : forall a, a <> block -> load st1 a block_next = load st a block_next).
    { intros a Ha. subst st1. ld. rewrite load_store_addr by exact Ha. reflexivity. }
    clearbody st1.
    destruct (_ && _); [|destruct (_ <=? _)].
    + split; [exact Hm1|]. split; [exact Hn1|left; exact Ht1].
    + destruct (Hdec page st1) as (Hf & Hm & (a & n & Ht)).
      split; [exact (eq_trans Hm Hm1)|]. split.
      * intros x Hx. ld. rewrite Hf by reflexivity. apply Hn1. exact Hx.
      * right. exists a, n. rewrite !trace_store, Ht, Ht1. reflexivity.
    + split; [exact Hm1|]. split; [exact Hn1|left; exact Ht1].
Qed.

(** X25.  Freeing a pointer the allocator handed out from a page set up
    for a class: the origin of a block, or a pointer moved forward
    inside its block in a page marked as holding aligned blocks.
    [rpfree] writes the link of that block's origin and no other link,
    and none of the fields that locate a block and give its size, so
    the usable size of every pointer is what it was.  It maps and
    unmaps nothing; at most one range of pages is decommitted. *)
Theorem rpfree_keeps_layout (tid c page b d : Z) (st : state) :
  0 <= c < SIZE_CLASS_COUNT ->
  page_laid_out st c page ->
  block_origin_of st page b ->
  0 <= d < class_block_size c ->
  d = 0 \/ load st page page_has_aligned_block <> 0 ->
  let st' := rpfree tid (b + d) st in
  (forall a f, is_layout_field f = true -> load st' a f = load st a f) /\
  (forall q, block_usable_size st' q = block_usable_size st q) /\
  (forall a, a <> b -> load st' a block_next = load st a block_next) /\
  mmap_results st' = mmap_results st /\
  (trace st' = trace st \/ exists a n, trace st' = trace st ++ [ev_mdecommit a n]).
Proof.
  intros Hc Hlaid (k & Hk & Hb) Hd Hptr st'.
  destruct (page_laid_out_bounds st c page Hc Hlaid) as (Hp0 & Hp1 & Hbsr & Hbcr & Harea).
  pose proof Hlaid as (Hplaced & Hbs & Hbc).
  pose proof (page_size_of_range (get_page_type c)) as Hps.
  pose proof (get_page_type_range c Hc) as Htr.
  rewrite Hbs, Hbc in *. change PAGE_HEADER_SIZE with 128 in *.
  set (bs := class_block_size c) in *. set (bc := class_block_count c) in *.
  assert (Hin : page <= b + d < page + page_size_of (get_page_type c)) by nia.
  destruct (block_page_lookup st _ page (b + d) Hplaced Hin) as [Hty Hpg].
  assert (Htarget : dealloc_target st page (b + d) = b).
  { unfold dealloc_target.
    destruct (Z.eqb_spec (load st page page_has_aligned_block) 0) as [E|E]; cbn [negb].
    - destruct Hptr as [-> | Hn]; [lia|contradiction].
    - unfold page_block_realign, page_block_start, pointer_offset, pointer_diff. cbv zeta.
      rewrite Hbs. fold bs. change PAGE_HEADER_SIZE with 128.
      rewrite (u64_small (page + 128)) by lia.
      replace (b + d - (page + 128)) with (d + k * bs) by lia.
      rewrite (u32_small (d + k * bs)) by nia.
      rewrite Z.mod_add by lia. rewrite Z.mod_small by lia.
      unfold s32. rewrite u32_small by lia.
      destruct (Z.ltb_spec d (2 ^ 31)); [|lia].
      rewrite u64_small by lia. lia. }
  assert (E : st' = (if (load st page page_owner_thread =? 0)
                        || (load st page page_owner_thread =? tid)
                     then page_put_local_free_block page b st
                     else page_put_thread_free_block page b st)).
  { subst st'. unfold rpfree. destruct (Z.eqb_spec (b + d) 0); [lia|].
    unfold block_deallocate. cbv zeta. fold (block_get_span (b + d)). rewrite Hty.
    destruct (Z.leb_spec (get_page_type c) PAGE_LARGE); [|lia].
    fold (block_page st (b + d)). rewrite Hpg.
    unfold page_deallocate_block. cbv zeta.
    fold (dealloc_target st page (b + d)). rewrite Htarget. reflexivity. }
  assert (H : frame block_ops_touch st st' /\
              mmap_results st' = mmap_results st /\
              (forall a, a <> b -> load st' a block_next = load st a block_next) /\
              (trace st' = trace st \/ exists a n, trace st' = trace st ++ [ev_mdecommit a n])).
  { rewrite E. destruct (_ || _).
    - apply (page_put_block_effect page b st page_put_local_free_block). left. reflexivity.
    - apply (page_put_block_effect page b st page_put_thread_free_block). right. reflexivity. }
  destruct H as (Hfr & Hmm & Hnext & Htrace).
  split; [apply block_ops_touch_layout; exact Hfr|].
  split; [intros q; apply block_usable_size_frame, block_ops_touch_layout; exact Hfr|].
  split; [exact Hnext|]. split; [exact Hmm|exact Htrace].
Qed.

Lemma rpfree_keeps_layout_witness :
  let st := snd after_alloc_2 in
  let p := fst after_alloc_1 in
  p = 0x7f1010000080 /\
  block_usable_size (rpfree thread_B p st) p = 64 /\
  load (rpfree thread_B p st) 0x7f10100000c0 block_next = load st 0x7f10100000c0 block_next.
Proof.
  cbv zeta.
  assert (Ep : fst after_alloc_1 = 0x7f1010000080 + 0) by (vm_compute; reflexivity).
  split; [vm_compute; reflexivity|]. rewrite Ep.
  destruct (rpfree_keeps_layout thread_B 2 0x7f1010000000 0x7f1010000080 0 (snd after_alloc_2))
    as (_ & Hu & Hn & _).
  - vm_compute. split; [discriminate|reflexivity].
  - unfold page_laid_out. split; [|split].
    + exists 0x7f1010000000, 0.
      split; [|split; [lia|split; [reflexivity|vm_compute; discriminate]]].
      unfold span_placed.
      split; [vm_compute; split; discriminate|].
      split; [reflexivity|]. split; [vm_compute; discriminate|].
      split; [vm_compute; reflexivity|]. split; vm_compute; reflexivity.
    + vm_compute. reflexivity.
    + vm_compute. reflexivity.
  - exists 0. split; [vm_compute; split; [discriminate|reflexivity]|].
    vm_compute. reflexivity.
  - vm_compute. split; [discriminate|reflexivity].
  - left. reflexivity.
  - split.
    + etransitivity; [apply Hu|]. vm_compute. reflexivity.
    + apply Hn. lia.
Defined.

(** The first heap of a thread: with no released heap in the queue, a
    new heap is mapped, initialized and bound to the thread. *)
Lemma get_thread_heap_allocate_new tid h rest st :
  global_heap_queue st = 0 -> mmap_results st = h :: rest -> h <> 0 ->
  let r := get_thread_heap_allocate tid st in
  fst r = h /\
  get_thread_heap tid (snd r) = h /\
  (forall t', t' <> tid -> get_thread_heap t' (snd r) = get_thread_heap t' st) /\
  load (snd r) h heap_owner_thread = tid /\
  (forall f, is_heap_field f = true -> f <> heap_owner_thread -> f <> heap_id ->
        f <> heap_offset -> f <> heap_mapped_size -> load (snd r) h f = 0) /\
  (forall a f, a <> h \/ is_heap_field f = false -> load (snd r) a f = load st a f) /\
  mmap_results (snd r) = rest /\
  trace (snd r)
  = trace st ++ [ev_mmap (u64 (get_page_aligned_size st sizeof_heap_t + 0));
                 ev_set_page_name h (u64 (get_page_aligned_size st sizeof_heap_t + 0))] /\
  global_memory_interface (snd r) = global_memory_interface st /\
  global_heap_default (snd r) = global_heap_default st /\
  os_page_size (snd r) = os_page_size st.
Proof.
  intros Hq Hmm Hh r. subst r.
  unfold get_thread_heap_allocate, heap_allocate, heap_lock_acquire, heap_lock_release,
    heap_allocate_new, memory_map, os_mmap, os_set_page_name, heap_initialize, set_thread_heap.
  cbn [Z.eqb]. cbv zeta.
  cbn [global_heap_queue with_global_heap_lock with_global_heap_queue mmap_results
       with_mmap_results emit].
  rewrite Hq, Hmm. cbn [Z.eqb hd tl].
  destruct (Z.eqb_spec h 0) as [|_]; [contradiction|]. cbn [Z.eqb fst snd].
  destruct (Z.eqb_spec h 0) as [|_]; [contradiction|]. cbn [fst snd].
  destruct (Z.eqb_spec h 0) as [|_]; [contradiction|].
  split; [reflexivity|].
  split; [unfold get_thread_heap; cbn; rewrite Z.eqb_refl; reflexivity|].
  split.
  { intros t' Ht. unfold get_thread_heap. cbn.
    destruct (Z.eqb_spec t' tid); [contradiction|reflexivity]. }
  split; [ld; reflexivity|].
  split.
  { intros f Hf H1 H2 H3 H4. unfold load, store, memset_heap.
    destruct f; try discriminate Hf; try contradiction; cbn; rewrite ?Z.eqb_refl;
      reflexivity. }
  split.
  { intros a f Haf. unfold load, store, memset_heap. cbn.
    destruct Haf as [Ha|Hf].
    - destruct (Z.eqb_spec a h); [contradiction|]. rewrite !andb_false_r. reflexivity.
    - rewrite Hf. cbn.
      destruct f; try discriminate Hf; reflexivity. }
  split; [reflexivity|].
  split; [|repeat split; reflexivity].
  rewrite !trace_store. cbn [trace with_global_thread_heap].
  rewrite !trace_store. unfold memset_heap, with_global_heap_id, with_mem, emit.
  cbn [trace]. rewrite <- app_assoc. reflexivity.
Qed.

(** X24.  The first request of a thread for a span.  A thread that
    still uses the default heap, with no released heap to adopt, gets a
    heap of its own before any span is mapped: the allocator is
    initialized, a heap is mapped and bound to the thread, and the span
    mapped after it belongs to that heap, is aligned to the span size
    and becomes the partial span of its page type there; the default
    heap gets no span.  When the kernel refuses the span, null is
    returned, and the thread keeps its new heap. *)
Theorem heap_get_span_first_use (tid t h s : Z) (rest : list Z) (st : state) :
  let heap := global_heap_default st in
  load st heap (heap_span_partial t) = 0 ->
  global_heap_queue st = 0 ->
  mmap_results st = h :: s :: rest -> h <> 0 ->
  let r := heap_get_span tid heap t st in
  get_thread_heap tid (snd r) = h /\
  (forall t', t' <> tid -> get_thread_heap t' (snd r) = get_thread_heap t' st) /\
  load (snd r) h heap_owner_thread = tid /\
  global_memory_interface (snd r) <> 0 /\
  mmap_results (snd r) = rest /\
  (h <> heap -> load (snd r) heap (heap_span_partial t) = 0) /\
  (s = 0 -> fst r = 0 /\ load (snd r) h (heap_span_partial t) = 0) /\
  (0 < s < 2 ^ 63 ->
   fst r = mmap_aligned s SPAN_SIZE /\
   fst r mod SPAN_SIZE = 0 /\
   load (snd r) (fst r) span_page_type = t /\
   load (snd r) (fst r) page_heap = h /\
   load (snd r) (fst r) page_owner_thread = tid /\
   load (snd r) (fst r) span_mapped_size = u64 (SPAN_SIZE + SPAN_SIZE) /\
   load (snd r) h (heap_span_partial t) = fst r).
Proof.
  intros heap Hpartial Hq Hmm Hh r. subst r. unfold heap_get_span.
  rewrite Hpartial. cbn [Z.eqb negb]. subst heap. rewrite Z.eqb_refl.
  set (heap := global_heap_default st) in *.
  assert (Hinit : exists sti, rpmalloc_initialize st = (0, sti) /\
            global_heap_queue sti = 0 /\ mmap_results sti = h :: s :: rest /\
            global_memory_interface sti <> 0 /\ mem sti = mem st /\
            global_thread_heap sti = global_thread_heap st /\
            global_heap_default sti = global_heap_default st).
  { unfold rpmalloc_initialize. destruct (Z.eqb_spec (global_memory_interface st) 0) as [E|E].
    - eexists. split; [reflexivity|]. cbn. repeat split; try assumption. discriminate.
    - exists st. cbn [negb]. repeat split; assumption. }
  destruct Hinit as (sti & -> & Hq' & Hmm' & Hif & Hmem & Hth & Hdef).
  destruct (get_thread_heap_allocate_new tid h (s :: rest) sti Hq' Hmm' Hh)
    as (H1 & H2 & H3 & H4 & H5 & H6 & H7 & _ & H9 & H10 & _).
  destruct (get_thread_heap_allocate tid sti) as [heap0 st0]. cbn [fst snd] in *. subst heap0.
  unfold memory_map.
  destruct (os_mmap_effect SPAN_SIZE SPAN_SIZE st0) as (Hm & Hr & _ & Hnull & Hsome).
  assert (Eg : forall x, global_thread_heap (snd (os_mmap SPAN_SIZE SPAN_SIZE 0 0 st0)) x
                    = global_thread_heap st0 x /\
                    global_memory_interface (snd (os_mmap SPAN_SIZE SPAN_SIZE 0 0 st0))
                    = global_memory_interface st0).
  { intros x. unfold os_mmap, os_set_page_name. cbv zeta. destruct (_ =? 0); [split; reflexivity|].
    destruct (_ =? 0); split; reflexivity. }
  destruct (os_mmap SPAN_SIZE SPAN_SIZE 0 0 st0) as [[[span offset] mapped_size] st1].
  cbn [fst snd] in Hm, Hr, Hnull, Hsome, Eg. rewrite H7 in Hr, Hnull, Hsome.
  cbn [hd tl] in Hr, Hnull, Hsome. cbv zeta.
  assert (Hl1 : forall a f, load st1 a f = load st0 a f)
    by (intros a f; unfold load; rewrite Hm; reflexivity).
  match goal with
  | |- context [if ?c then store h heap_owner_thread tid ?s2 else ?s2] =>
      set (st2 := s2)
  end.
  assert (Hst2 :
            (forall a, load st2 a heap_owner_thread = load st0 a heap_owner_thread) /\
            (forall a, a <> h -> load st2 a (heap_span_partial t)
                                 = load st0 a (heap_span_partial t)) /\
            global_thread_heap st2 = global_thread_heap st1 /\
            global_memory_interface st2 = global_memory_interface st1 /\
            mmap_results st2 = mmap_results st1 /\
            (span = 0 -> load st2 h (heap_span_partial t) = load st0 h (heap_span_partial t)) /\
            (span <> 0 ->
             load st2 span span_page_type = t /\
             load st2 span page_heap = h /\
             load st2 span page_owner_thread = load st0 h heap_owner_thread /\
             load st2 span span_mapped_size = mapped_size /\
             load st2 h (heap_span_partial t) = span)).
  { subst st2. destruct (Z.eqb_spec span 0) as [Es|Es].
    - split; [intros a; apply Hl1|]. split; [intros a _; apply Hl1|].
      split; [reflexivity|]. split; [reflexivity|]. split; [reflexivity|].
      split; [intros _; apply Hl1|intros; contradiction].
    - destruct (t =? PAGE_SMALL); [|destruct (t =? PAGE_MEDIUM)];
        (split; [intros a; ld; apply Hl1|]);
        (split; [intros a Ha; rewrite load_store_addr by exact Ha; ld; apply Hl1|]);
        (split; [reflexivity|]); (split; [reflexivity|]); (split; [reflexivity|]);
        (split; [intros; contradiction|]); intros _; ld; rewrite Hl1;
        repeat split; reflexivity. }
  destruct Hst2 as (S1 & S2 & S3 & S4 & S5 & S6 & S7).
  clearbody st2.
  assert (Hown : forall (c : bool) a f, f <> heap_owner_thread ->
             load (if c then store h heap_owner_thread tid st2 else st2) a f = load st2 a f).
  { intros c a f Hf. destruct c; [|reflexivity]. apply load_store_field.
    destruct f; try reflexivity. contradiction. }
  assert (Hrec : forall (c : bool),
             global_thread_heap (if c then store h heap_owner_thread tid st2 else st2)
             = global_thread_heap st2 /\
             global_memory_interface (if c then store h heap_owner_thread tid st2 else st2)
             = global_memory_interface st2 /\
             mmap_results (if c then store h heap_owner_thread tid st2 else st2)
             = mmap_results st2).
  { intros c. destruct c; repeat split; reflexivity. }
  rewrite (S1 h), H4.
  cbn [fst snd].
  split.
  { unfold get_thread_heap. rewrite (proj1 (Hrec _)), S3.
    rewrite (proj1 (Eg tid)). exact H2. }
  split.
  { intros t' Ht'. unfold get_thread_heap. rewrite (proj1 (Hrec _)), S3.
    rewrite (proj1 (Eg t')), <- Hth. apply H3. exact Ht'. }
  split.
  { destruct (tid =? 0) eqn:E0; [apply load_store_same|]. rewrite S1. exact H4. }
  split.
  { rewrite (proj1 (proj2 (Hrec _))), S4, (proj2 (Eg 0)), H9. exact Hif. }
  split.
  { rewrite (proj2 (proj2 (Hrec _))), S5. exact Hr. }
  assert (E0 : forall a, a <> h -> load st0 a (heap_span_partial t) = load st a (heap_span_partial t)).
  { intros a Ha. rewrite H6 by (left; exact Ha). unfold load. rewrite Hmem. reflexivity. }
  split.
  { intros Hne. rewrite Hown by discriminate.
    rewrite S2, E0 by (intros E; apply Hne; symmetry; exact E). exact Hpartial. }
  split.
  - intros Hs. pose proof (Hnull Hs) as Hsp. split; [exact Hsp|].
    rewrite Hown by discriminate. rewrite (S6 Hsp).
    apply H5; try reflexivity; discriminate.
  - intros Hs. destruct (Hsome ltac:(lia) ltac:(discriminate)) as [Hspan Hms].
    destruct (mmap_aligned_span s Hs) as [Hrange Hal]. rewrite <- Hspan in Hrange, Hal.
    split; [exact Hspan|]. split; [exact Hal|].
    rewrite !Hown by discriminate.
    destruct (S7 ltac:(lia)) as (T1 & T2 & T3 & T4 & T5).
    rewrite T1, T2, T3, T4, T5, H4, Hms. repeat split; reflexivity.
Qed.

Lemma heap_get_span_first_use_witness :
  let r := heap_get_span thread_A (global_heap_default fresh_process) PAGE_SMALL fresh_process in
  rpmalloc_is_thread_initialized thread_A fresh_process = 0 /\
  get_thread_heap thread_A (snd r) = 0x7f0000001000 /\
  fst r = 0x7f1010000000 /\
  load (snd r) (fst r) page_heap = 0x7f0000001000.
Proof.
  cbv zeta. split; [vm_compute; reflexivity|].
  destruct (heap_get_span_first_use thread_A PAGE_SMALL 0x7f0000001000 0x7f1000002000
              [0x7f4000003000; 0x7f8000004000] fresh_process)
    as (H1 & _ & _ & _ & _ & _ & _ & H).
  - vm_compute. reflexivity.
  - reflexivity.
  - reflexivity.
  - discriminate.
  - destruct H as (H2 & _ & _ & H3 & _); [lia|].
    split; [exact H1|]. split; [rewrite H2; vm_compute; reflexivity|exact H3].
Defined.

(** * Pointers inside a block *)

(** X26.  The usable size of a pointer into a block of a page set up
    for a class, full or not, is what is left of the block behind the
    pointer: the block size of the class at the block origin, and [d]
    bytes less [d] bytes into the block.  So a pointer moved forward
    for an alignment still reports a size that ends where its block
    ends. *)
Theorem block_usable_size_interior (st : state) (c page b d : Z) :
  0 <= c < SIZE_CLASS_COUNT ->
  page_laid_out st c page ->
  block_origin_of st page b ->
  0 <= d < class_block_size c ->
  block_usable_size st (b + d) = class_block_size c - d /\
  block_page st (b + d) = page /\
  rpmalloc_usable_size (b + d) st = class_block_size c - d.
Proof.
  intros Hc Hlaid (k & Hk & Hb) Hd.
  destruct (page_laid_out_bounds st c page Hc Hlaid) as (Hp0 & Hp1 & Hbsr & Hbcr & Harea).
  pose proof Hlaid as (Hplaced & Hbs & Hbc).
  pose proof (page_size_of_range (get_page_type c)) as Hps.
  pose proof (get_page_type_range c Hc) as Htr.
  rewrite Hbs, Hbc in *. change PAGE_HEADER_SIZE with 128 in *.
  set (bs := class_block_size c) in *. set (bc := class_block_count c) in *.
  assert (Hin : page <= b + d < page + page_size_of (get_page_type c)) by nia.
  destruct (block_page_lookup st _ page (b + d) Hplaced Hin) as [Hty Hpg].
  assert (Hus : block_usable_size st (b + d) = bs - d).
  { unfold block_usable_size. cbv zeta. fold (block_get_span (b + d)). rewrite Hty.
    fold (block_page st (b + d)). rewrite Hpg.
    destruct (Z.leb_spec (get_page_type c) PAGE_LARGE); [|lia].
    rewrite Hbs. fold bs.
    unfold pointer_offset, pointer_diff. change PAGE_HEADER_SIZE with 128.
    rewrite (u64_small (page + 128)) by lia.
    replace (b + d - (page + 128)) with (d + k * bs) by lia.
    rewrite (u64_small (d + k * bs)) by nia.
    rewrite Z.mod_add by lia. rewrite Z.mod_small by lia. apply u64_small. lia. }
  split; [exact Hus|]. split; [exact Hpg|].
  unfold rpmalloc_usable_size. destruct (Z.eqb_spec (b + d) 0); [nia|exact Hus].
Qed.

Lemma block_usable_size_interior_witness :
  let st := snd after_filling_page in
  let page := 0x7f1010000000 in
  let p := nth 3 (fst after_filling_page) 0 in
  load st page page_is_full = 1 /\
  load st page page_block_used = load st page page_block_count /\
  p = page + PAGE_HEADER_SIZE + 3 * 8388608 /\
  block_usable_size st (p + 4096) = 8388608 - 4096.
Proof.
  cbv zeta. split; [vm_compute; reflexivity|]. split; [vm_compute; reflexivity|].
  split; [vm_compute; reflexivity|].
  assert (Ep : nth 3 (fst after_filling_page) 0 = 0x7f1010000000 + 128 + 3 * 8388608)
    by (vm_compute; reflexivity).
  rewrite Ep.
  destruct (block_usable_size_interior (snd after_filling_page) 72 0x7f1010000000
              (0x7f1010000000 + 128 + 3 * 8388608) 4096) as (H & _).
  - vm_compute. split; [discriminate|reflexivity].
  - unfold page_laid_out. split; [|split].
    + exists 0x7f1010000000, 0.
      split; [|split; [lia|split; [reflexivity|vm_compute; discriminate]]].
      unfold span_placed.
      split; [vm_compute; split; discriminate|].
      split; [reflexivity|]. split; [vm_compute; discriminate|].
      split; [vm_compute; reflexivity|]. split; vm_compute; reflexivity.
    + vm_compute. reflexivity.
    + vm_compute. reflexivity.
  - exists 3. split; [vm_compute; split; [discriminate|reflexivity]|].
    vm_compute. reflexivity.
  - vm_compute. split; [discriminate|reflexivity].
  - rewrite H. vm_compute. reflexivity.
Defined.

(** * Clearing a block for calloc *)

Lemma page_link_free_blocks_trace fuel :
  forall page memory_page_next max free last count st,
    trace (snd (page_link_free_blocks fuel page memory_page_next max free last count st))
    = trace st.
Proof.
  induction fuel as [|fuel IH]; intros; cbn [page_link_free_blocks]; [reflexivity|].
  destruct (_ && _); [|reflexivity]. cbv zeta. rewrite IH. reflexivity.
Qed.

Lemma page_adopt_thread_free_block_list_trace page st :
  trace (page_adopt_thread_free_block_list page st) = trace st.
Proof.
  unfold page_adopt_thread_free_block_list. cbv zeta.
  destruct (_ =? 0); [reflexivity|].
  destruct (page_block_from_thread_free_list _ _ _) as [list_count block]. reflexivity.
Qed.

Lemma page_get_local_free_block_trace page st :
  trace (snd (page_get_local_free_block page st)) = trace st.
Proof. unfold page_get_local_free_block. destruct (_ =? 0); reflexivity. Qed.

Lemma page_initialize_blocks_trace page st :
  trace (snd (page_initialize_blocks page st)) = trace st.
Proof.
  unfold page_initialize_blocks. cbv zeta.
  destruct (_ && _); [|reflexivity].
  match goal with
  | |- context [page_link_free_blocks ?fuel ?p ?n ?m ?f ?l ?c ?s] =>
      pose proof (page_link_free_blocks_trace fuel p n m f l c s) as Hloop;
      destruct (page_link_free_blocks fuel p n m f l c s) as [[last_block list_count] st2]
  end.
  cbn [snd] in Hloop. destruct (list_count =? 0); cbn [snd]; rewrite ?trace_store; exact Hloop.
Qed.

(** The list head after adoption into an empty local list. *)
Lemma page_adopt_thread_free_block_list_head page st :
  load st page page_local_free = 0 ->
  load (page_adopt_thread_free_block_list page st) page page_local_free
  = thread_free_head st page.
Proof.
  intros Hlf. unfold page_adopt_thread_free_block_list. cbv zeta.
  destruct (Z.eqb_spec (load st page page_thread_free) 0) as [E|E].
  - rewrite Hlf. symmetry. apply (thread_free_empty st page E).
  - assert (Hdec : page_block_from_thread_free_list
                     (store page page_thread_free 0 st) page (load st page page_thread_free)
                   = (thread_free_count st page, thread_free_head st page)).
    { unfold thread_free_count, thread_free_head, page_block_from_thread_free_list, page_block.
      ld. reflexivity. }
    rewrite Hdec. ld. reflexivity.
Qed.

(** The zero flag [page_allocate_block] works with and the events of its
    first step. *)
Lemma page_take_block_is_zero page st :
  snd (fst (page_take_block page st))
  = (if (load st page page_local_free =? 0) && (thread_free_head st page =? 0)
     then load st page page_is_zero else 0) /\
  trace (snd (page_take_block page st)) = trace st.
Proof.
  assert (H : exists block st1,
             page_take_block page st
             = (block,
                if (load st page page_local_free =? 0) && (thread_free_head st page =? 0)
                then load st page page_is_zero else 0,
                st1) /\ trace st1 = trace st).
  { unfold page_take_block, page_get_local_free_block at 1.
    destruct (Z.eqb_spec (load st page page_local_free) 0) as [Elf|Elf].
    - rewrite Z.eqb_refl. rewrite page_get_thread_free_block_eq.
      pose proof (page_adopt_thread_free_block_list_head page st Elf) as Hhead.
      pose proof (page_adopt_thread_free_block_list_trace page st) as Htr.
      pose proof (page_adopt_thread_free_block_list_block_frame page st) as Hfr.
      set (sta := page_adopt_thread_free_block_list page st) in *.
      unfold page_get_local_free_block. rewrite Hhead.
      destruct (Z.eqb_spec (thread_free_head st page) 0) as [E|E]; cbn [andb].
      + rewrite Z.eqb_refl.
        pose proof (page_initialize_blocks_trace page sta) as Htr2.
        pose proof (page_initialize_blocks_block_frame page sta) as Hfr2.
        destruct (page_initialize_blocks page sta) as [b2 s2]. cbn [fst snd] in *.
        exists b2, s2. rewrite Hfr2, Hfr by reflexivity.
        split; [reflexivity|]. rewrite Htr2. exact Htr.
      + cbv zeta. destruct (Z.eqb_spec (thread_free_head st page) 0); [contradiction|].
        eexists. eexists. split; [reflexivity|]. rewrite !trace_store. exact Htr.
    - cbv zeta. destruct (Z.eqb_spec (load st page page_local_free) 0); [contradiction|].
      cbn [andb]. eexists. eexists. split; reflexivity. }
  destruct H as (block & st1 & -> & Htr). cbn [fst snd]. split; [reflexivity|exact Htr].
Qed.

(** X27.  When [page_allocate_block] clears the block it returns.  With
    the zero flag set, a block taken from the local free list or from
    the adopted thread-free list is always cleared over the whole block
    size; a block taken by bumping [block_initialized] is cleared only
    if the page is not marked zero.  A page marked zero therefore hands
    out its never-initialized blocks to calloc as they are.  Without the
    zero flag, or when no block is returned, nothing is cleared.  No
    other event happens. *)
Theorem page_allocate_block_zeroing (page zero : Z) (st : state) :
  let r := page_allocate_block page zero st in
  let from_list :=
    negb (load st page page_local_free =? 0) || negb (thread_free_head st page =? 0) in
  let cleared :=
    trace (snd r) = trace st ++ [ev_memset (fst r) (load st page page_block_size)] in
  let untouched := trace (snd r) = trace st in
  (zero = 0 \/ fst r = 0 -> untouched) /\
  (zero <> 0 -> fst r <> 0 -> from_list = true -> cleared) /\
  (zero <> 0 -> fst r <> 0 -> from_list = false ->
   (load st page page_is_zero = 0 -> cleared) /\
   (load st page page_is_zero <> 0 -> untouched)).
Proof.
  intros r from_list cleared untouched. subst cleared untouched r from_list.
  destruct (page_take_block_is_zero page st) as [Hz Htr].
  pose proof (page_take_block_frame page st) as Hfr.
  unfold page_allocate_block. fold (page_take_block page st).
  destruct (page_take_block page st) as [[block is_zero] st1]. cbn [fst snd] in Hz, Htr, Hfr.
  cbv zeta. cbn [fst snd].
  set (st2 := page_push_local_free_to_heap page st1).
  assert (H2 : trace st2 = trace st1 /\ frame block_ops_touch st1 st2).
  { subst st2. split; [|apply page_push_local_free_to_heap_frame].
    unfold page_push_local_free_to_heap.
    destruct (load st1 page page_local_free =? 0); reflexivity. }
  set (st3 := if load st2 page page_block_used =? load st2 page page_block_count
              then page_adopt_thread_free_block_list page st2 else st2).
  assert (H3 : trace st3 = trace st2 /\ frame block_ops_touch st2 st3).
  { subst st3.
    destruct (load st2 page page_block_used =? load st2 page page_block_count);
      [|split; [reflexivity|apply frame_refl]].
    split; [apply page_adopt_thread_free_block_list_trace
           |apply page_adopt_thread_free_block_list_frame]. }
  clearbody st3. clearbody st2.
  match goal with
  | |- context [if negb (zero =? 0) && _ && _ then memset _ _ ?s else ?s] => set (st4 := s)
  end.
  assert (H4 : trace st4 = trace st /\
               load st4 page page_block_size = load st page page_block_size).
  { assert (Hfr4 : frame block_ops_touch st3 st4) by (subst st4; frame_auto).
    assert (Htr4 : trace st4 = trace st3).
    { subst st4.
      repeat match goal with
             | |- context [if ?c then _ else _] => destruct c
             end; reflexivity. }
    split.
    - rewrite Htr4, (proj1 H3), (proj1 H2). exact Htr.
    - rewrite Hfr4, (proj2 H3), (proj2 H2), Hfr by reflexivity. reflexivity. }
  destruct H4 as [Htr4 Hbs4]. clearbody st4.
  subst is_zero.
  destruct (Z.eqb_spec zero 0) as [Ez|Ez]; cbn [negb andb].
  - split; [intros _; exact Htr4|]. split; intros; contradiction.
  - destruct (Z.eqb_spec block 0) as [Eb|Eb]; cbn [negb].
    + rewrite andb_false_r. split; [intros _; exact Htr4|]. split; intros; contradiction.
    + rewrite andb_true_r.
      split; [intros [H|H]; contradiction|].
      destruct (load st page page_local_free =? 0); cbn [negb orb andb].
      * destruct (thread_free_head st page =? 0); cbn [negb orb andb].
        -- split; [intros _ _ H; discriminate H|]. intros _ _ _.
           destruct (Z.eqb_spec (load st page page_is_zero) 0) as [E|E].
           ++ split; [|intros; contradiction]. intros _.
              rewrite trace_memset, Htr4, Hbs4. reflexivity.
           ++ split; [intros; contradiction|]. intros _. exact Htr4.
        -- split; [|intros _ _ H; discriminate H]. intros _ _ _.
           cbn [Z.eqb]. rewrite trace_memset, Htr4, Hbs4. reflexivity.
      * split; [|intros _ _ H; discriminate H]. intros _ _ _.
        cbn [Z.eqb]. rewrite trace_memset, Htr4, Hbs4. reflexivity.
Qed.

Lemma page_allocate_block_zeroing_witness :
  let page := 0x7f1010000000 in
  let st := snd (heap_get_page thread_A 0x7f0000001000 72 after_page_freed) in
  fst (rpmalloc default_build thread_A (8 * 1024 * 1024) fresh_process) = 0x7f1010000080 /\
  load st page page_is_zero = 1 /\
  fst (page_allocate_block page 1 st) = 0x7f1010000080 /\
  trace (snd (page_allocate_block page 1 st)) = trace st.
Proof.
  cbv zeta. split; [vm_compute; reflexivity|]. split; [vm_compute; reflexivity|].
  split; [vm_compute; reflexivity|].
  destruct (page_allocate_block_zeroing 0x7f1010000000 1
              (snd (heap_get_page thread_A 0x7f0000001000 72 after_page_freed)))
    as (_ & _ & H).
  destruct H as (_ & H).
  - discriminate.
  - vm_compute. discriminate.
  - vm_compute. reflexivity.
  - apply H. vm_compute. discriminate.
Defined.
